(** * CalcPlot: the chart registry and the Plotly adapter of
      [src/components/CalcPlot.jsx]

    A shallow embedding of the component: JavaScript numbers are IEEE-754
    binary64 values (Rocq's primitive floats, the same format and the same
    round-to-nearest-even arithmetic), arrays are lists, object literals are
    association lists in the order the source writes their properties, and
    the page (the module variable [_plotlyPromise], [window.Plotly],
    [document.head], the console, the promise store and the mounted
    components) is an explicit state threaded through the adapter. *)

From Stdlib Require Import ZArith List String Bool Lia DecimalString.
From Stdlib Require Import Floats Uint63 Zpower FunctionalExtensionality.
Import ListNotations.

Set Warnings "-inexact-float,-register-all".

(* ================================================================== *)
(** ** JavaScript numbers *)

Module Num.

Open Scope float_scope.

(** [Math.PI], the binary64 value nearest to pi. *)
Definition Math_PI : float := 0x1.921fb54442d18p+1.

(** An array index or a small count used as a number: exact below 2^53. *)
Definition of_nat (k : nat) : float :=
  PrimFloat.of_uint63 (Uint63.of_Z (Z.of_nat k)).

(** [Math.abs] is exact: it clears the sign bit. *)
Definition Math_abs (x : float) : float := PrimFloat.abs x.

(** [Math.max(a, b)] as ECMAScript defines it: NaN if either argument is
    NaN, [+0] above [-0], the larger value otherwise. *)
Definition Math_max (a b : float) : float :=
  if PrimFloat.is_nan a || PrimFloat.is_nan b then nan
  else if a <? b then b
  else if b <? a then a
  else if PrimFloat.is_zero a && PrimFloat.is_zero b
       then (if PrimFloat.get_sign a then b else a)
  else a.

(** JavaScript's [>] on numbers (false when either side is NaN). *)
Definition gt (a b : float) : bool := b <? a.

(** Truthiness of a number: every number except [0], [-0] and NaN. *)
Definition truthy (x : float) : bool :=
  negb (PrimFloat.is_nan x || PrimFloat.is_zero x).

(** [|a - b| < eps], in binary64 arithmetic. *)
Definition within (eps a b : float) : bool := PrimFloat.abs (a - b) <? eps.

End Num.

(** The transcendental functions of the host's [Math] object.  ECMAScript
    leaves their results implementation-approximated, so they are an
    interface of the model, not definitions of it. *)
Class HostMath : Type := {
  Math_sin : float -> float;
  Math_cos : float -> float;
  Math_exp : float -> float;
  Math_log : float -> float;
  Math_sqrt : float -> float;
  Math_atan2 : float -> float -> float
}.

(* ================================================================== *)
(** ** JavaScript values *)

(** The values a chart descriptor is made of. *)
Inductive jsval : Type :=
| JUndefined
| JNull
| JBool (b : bool)
| JNum (x : float)
| JStr (s : string)
| JArr (elems : list jsval)
| JObj (props : list (string * jsval)).

Module JS.

Open Scope string_scope.

Definition nums (l : list float) : jsval := JArr (map JNum l).
Definition grid (g : list (list float)) : jsval := JArr (map nums g).
Definition strs (l : list string) : jsval := JArr (map JStr l).

(** [Array.from({ length: n }, (_, i) => f i)]. *)
Definition Array_from {A : Type} (n : nat) (f : nat -> A) : list A :=
  map f (seq 0 n).

(** [Array(n).fill(v)]. *)
Definition Array_fill {A : Type} (n : nat) (v : A) : list A := repeat v n.

(** [arr[i]] on an array of numbers used in arithmetic: a missing element
    is [undefined], which arithmetic turns into NaN. *)
Definition at_num (l : list float) (i : nat) : float := nth i l nan.

(** [arr[i]] on an array of values. *)
Definition at_val (l : list jsval) (i : nat) : jsval := nth i l JUndefined.

(** Own-property read on the properties of an object literal. *)
Fixpoint assoc {A : Type} (k : string) (ps : list (string * A)) : option A :=
  match ps with
  | [] => None
  | (k', v) :: rest => if String.eqb k k' then Some v else assoc k rest
  end.

(** [o.k] on a value that is known not to be [undefined] or [null]:
    a missing property reads as [undefined]; numbers, strings and
    booleans have no [data], [layout] or [height]. *)
Definition get (k : string) (o : jsval) : jsval :=
  match o with
  | JObj ps => match assoc k ps with Some v => v | None => JUndefined end
  | _ => JUndefined
  end.

(** Writing property [k]: an existing key keeps its place, a new key is
    appended (the order of [Object.keys]). *)
Fixpoint set {A : Type} (k : string) (v : A) (ps : list (string * A))
  : list (string * A) :=
  match ps with
  | [] => [(k, v)]
  | (k', v') :: rest =>
      if String.eqb k k' then (k', v) :: rest else (k', v') :: set k v rest
  end.

(** ToBoolean. *)
Definition truthy (v : jsval) : bool :=
  match v with
  | JUndefined | JNull => false
  | JBool b => b
  | JNum x => Num.truthy x
  | JStr s => negb (String.eqb s "")
  | JArr _ | JObj _ => true
  end.

(** [a || b]. *)
Definition or_else (a b : jsval) : jsval := if truthy a then a else b.

End JS.

Notation "k ::= v" := (pair k%string v)
  (at level 60, no associativity, only parsing).

(* ================================================================== *)
(** ** Math helpers *)

Section Helpers.

Open Scope float_scope.

(** [linspace(start, end, n)], for a count [n] that [Array.from] accepts
    as a length, that is a whole number below 2^32 (the registry passes
    literals between 10 and 500); [linspace_call] below adds what happens
    from 2^32 on. *)
Definition linspace (start end_ : float) (n : nat) : list float :=
  JS.Array_from n
    (fun i => start + (end_ - start) * Num.of_nat i / (Num.of_nat n - 1)).

(** [meshgrid(xArr, yArr)]. *)
Definition meshgrid (xArr yArr : list float)
  : list (list float) * list (list float) :=
  (map (fun _ => xArr) yArr,
   map (fun y => JS.Array_fill (List.length xArr) y) yArr).

Context {M : HostMath}.

(** The tail probability [p] that [normCDF] computes before it picks a
    branch. *)
Definition normCDF_p (x : float) : float :=
  let t := 1 / (1 + 0.2316419 * Num.Math_abs x) in
  let d := 0.3989422820 * Math_exp (- x * x / 2) in
  d * t * (0.3193815300 + t * (-0.3565637820 + t * (1.7814779370
           + t * (-1.8212559780 + t * 1.3302744290)))).

(** [normCDF(x)], the Abramowitz and Stegun approximation. *)
Definition normCDF (x : float) : float :=
  let p := normCDF_p x in
  if Num.gt x 0 then 1 - p else p.

End Helpers.

(** [boxMesh(x0, x1, y0, y1, z0, z1, color)]: the 8 vertices and 12
    triangles of one Riemann bar. *)
Definition boxMesh (x0 x1 y0 y1 z0 z1 : float) (color : jsval) : jsval :=
  (JObj [
    "type" ::= JStr "mesh3d";
    "x" ::= JS.nums [x0; x1; x1; x0; x0; x1; x1; x0];
    "y" ::= JS.nums [y0; y0; y1; y1; y0; y0; y1; y1];
    "z" ::= JS.nums [z0; z0; z0; z0; z1; z1; z1; z1];
    "i" ::= JS.nums [0; 0; 4; 4; 0; 0; 1; 1; 2; 2; 3; 3];
    "j" ::= JS.nums [1; 2; 5; 6; 1; 5; 2; 6; 3; 7; 0; 4];
    "k" ::= JS.nums [2; 3; 6; 7; 5; 4; 6; 5; 7; 6; 4; 7];
    "color" ::= color;
    "opacity" ::= JNum 0.78;
    "showscale" ::= JBool false;
    "hoverinfo" ::= JStr "none"
  ])%float.

(** The Viridis palette (8 colours). *)
Definition VIRIDIS8 : list jsval :=
  map JStr ["#440154"; "#3b528b"; "#21918c"; "#5ec962";
            "#fde725"; "#31688e"; "#35b779"; "#90d743"]%string.

(* ================================================================== *)
(** ** The chart data factories *)

Section Charts.

Context {M : HostMath}.

Open Scope string_scope.
Open Scope float_scope.

Import Num JS.

(** 1 - Riemann sum. *)
Definition chart_riemann_sum (_ : unit) : jsval :=
  let n := 8%nat in
  let xFine := linspace 0 Math_PI 300 in
  let yFine := map (fun xi => Math_sin xi + 1.5) xFine in
  let dx := Math_PI / of_nat n in
  let bars := Array_from n (fun i =>
    let xi := (of_nat i + 0.5) * dx in
    let hi := Math_sin xi + 1.5 in
    boxMesh (of_nat i * dx) ((of_nat i + 0.92) * dx) 0 0.3 0 hi
            (at_val VIRIDIS8 i)) in
  JObj [
    "data" ::= JArr (bars ++ [
      JObj [
        "type" ::= JStr "scatter3d"; "mode" ::= JStr "lines";
        "x" ::= nums xFine; "y" ::= nums (Array_fill 300 0); "z" ::= nums yFine;
        "line" ::= JObj ["color" ::= JStr "red"; "width" ::= JNum 4];
        "name" ::= JStr "f(x) = sin(x) + 1.5"
      ]
    ]);
    "layout" ::= JObj [
      "title" ::= JStr "Riemann Sum (n=8 rectangles)<br>Area ≈ Σ f(xᵢ*)·Δx  →  ∫f(x)dx  as n→∞";
      "scene" ::= JObj [
        "xaxis" ::= JObj ["title" ::= JStr "X"];
        "yaxis" ::= JObj ["title" ::= JStr "Depth"; "showticklabels" ::= JBool false];
        "zaxis" ::= JObj ["title" ::= JStr "f(x)"]
      ]
    ]
  ].

(** 2 - Surface of revolution: a parametric surface, so [x], [y] and [z]
    are all grids of shape [nT] by [nX]. *)
Definition chart_surface_revolution (_ : unit) : jsval :=
  let nX := 80%nat in
  let nT := 80%nat in
  let xVals := linspace 0 Math_PI nX in
  let rVals := map (fun xi => Math_sin xi + 1.5) xVals in
  let theta := linspace 0 (2 * Math_PI) nT in
  let Xs := map (fun _ => xVals) theta in
  let Ys := map (fun t => map (fun r => r * Math_cos t) rVals) theta in
  let Zs := map (fun t => map (fun r => r * Math_sin t) rVals) theta in
  JObj [
    "data" ::= JArr [
      JObj [
        "type" ::= JStr "surface"; "x" ::= grid Xs; "y" ::= grid Ys; "z" ::= grid Zs;
        "colorscale" ::= JStr "YlOrBr"; "opacity" ::= JNum 0.85; "showscale" ::= JBool false;
        "name" ::= JStr "Surface of Revolution"
      ];
      JObj [
        "type" ::= JStr "scatter3d"; "mode" ::= JStr "lines";
        "x" ::= nums xVals; "y" ::= nums rVals; "z" ::= nums (Array_fill nX 0);
        "line" ::= JObj ["color" ::= JStr "red"; "width" ::= JNum 4];
        "name" ::= JStr "y = sin(x) + 1.5"
      ]
    ];
    "layout" ::= JObj [
      "title" ::= JStr "Surface of Revolution<br>S = 2π ∫ f(x) √(1+[f'(x)]²) dx";
      "scene" ::= JObj ["xaxis" ::= JObj ["title" ::= JStr "X"];
                        "yaxis" ::= JObj ["title" ::= JStr "Y"];
                        "zaxis" ::= JObj ["title" ::= JStr "Z"]]
    ]
  ].

(** 3 - 3D coordinate system. *)
Definition chart_3d_coordinates (_ : unit) : jsval :=
  let P := [3; 4; 5] in
  let dashed := JObj ["color" ::= JStr "black"; "width" ::= JNum 2; "dash" ::= JStr "dash"] in
  JObj [
    "data" ::= JArr [
      JObj [
        "type" ::= JStr "scatter3d"; "mode" ::= JStr "markers+text";
        "x" ::= nums [at_num P 0]; "y" ::= nums [at_num P 1]; "z" ::= nums [at_num P 2];
        "marker" ::= JObj ["color" ::= JStr "red"; "size" ::= JNum 8];
        "text" ::= strs ["P(3, 4, 5)"]; "textposition" ::= JStr "top center";
        "name" ::= JStr "P(3, 4, 5)"
      ];
      JObj ["type" ::= JStr "scatter3d"; "mode" ::= JStr "lines";
            "x" ::= nums [at_num P 0; at_num P 0]; "y" ::= nums [at_num P 1; at_num P 1];
            "z" ::= nums [0; at_num P 2]; "line" ::= dashed; "showlegend" ::= JBool false];
      JObj ["type" ::= JStr "scatter3d"; "mode" ::= JStr "lines";
            "x" ::= nums [at_num P 0; at_num P 0]; "y" ::= nums [0; at_num P 1];
            "z" ::= nums [0; 0]; "line" ::= dashed; "showlegend" ::= JBool false];
      JObj ["type" ::= JStr "scatter3d"; "mode" ::= JStr "lines";
            "x" ::= nums [0; at_num P 0]; "y" ::= nums [at_num P 1; at_num P 1];
            "z" ::= nums [0; 0]; "line" ::= dashed; "showlegend" ::= JBool false];
      JObj ["type" ::= JStr "scatter3d"; "mode" ::= JStr "markers";
            "x" ::= nums [at_num P 0]; "y" ::= nums [at_num P 1]; "z" ::= nums [0];
            "marker" ::= JObj ["color" ::= JStr "gray"; "size" ::= JNum 5; "symbol" ::= JStr "cross"];
            "showlegend" ::= JBool false]
    ];
    "layout" ::= JObj [
      "title" ::= JStr "3D Coordinate System<br>d = √(Δx² + Δy² + Δz²)";
      "scene" ::= JObj [
        "xaxis" ::= JObj ["title" ::= JStr "X"; "range" ::= nums [0; 5]];
        "yaxis" ::= JObj ["title" ::= JStr "Y"; "range" ::= nums [0; 5]];
        "zaxis" ::= JObj ["title" ::= JStr "Z"; "range" ::= nums [0; 6]]]
    ]
  ].

(** 4 - Helix with tangent vector. *)
Definition chart_helix_tangent (_ : unit) : jsval :=
  let n := 500%nat in
  let t := linspace 0 (4 * Math_PI) n in
  let x := map (fun ti => Math_cos ti) t in
  let y := map (fun ti => Math_sin ti) t in
  let z := t in
  let t0 := Math_PI / 4 in
  let p0 := [Math_cos t0; Math_sin t0; t0] in
  let dp := [- Math_sin t0 * 0.7; Math_cos t0 * 0.7; 0.7] in
  JObj [
    "data" ::= JArr [
      JObj ["type" ::= JStr "scatter3d"; "mode" ::= JStr "lines";
            "x" ::= nums x; "y" ::= nums y; "z" ::= nums z;
            "line" ::= JObj ["color" ::= JStr "royalblue"; "width" ::= JNum 3];
            "name" ::= JStr "r(t) = ⟨cos t, sin t, t⟩"];
      JObj [
        "type" ::= JStr "cone";
        "x" ::= nums [at_num p0 0]; "y" ::= nums [at_num p0 1]; "z" ::= nums [at_num p0 2];
        "u" ::= nums [at_num dp 0]; "v" ::= nums [at_num dp 1]; "w" ::= nums [at_num dp 2];
        "colorscale" ::= JArr [JArr [JNum 0; JStr "red"]; JArr [JNum 1; JStr "red"]];
        "showscale" ::= JBool false; "sizemode" ::= JStr "absolute"; "sizeref" ::= JNum 0.5;
        "anchor" ::= JStr "tail"; "name" ::= JStr "r'(t) tangent"
      ];
      JObj ["type" ::= JStr "scatter3d"; "mode" ::= JStr "markers";
            "x" ::= nums [at_num p0 0]; "y" ::= nums [at_num p0 1]; "z" ::= nums [at_num p0 2];
            "marker" ::= JObj ["color" ::= JStr "red"; "size" ::= JNum 5];
            "showlegend" ::= JBool false];
      JObj [
        "type" ::= JStr "scatter3d"; "mode" ::= JStr "lines";
        "x" ::= nums (map (fun ti => Math_cos ti) t);
        "y" ::= nums (map (fun ti => Math_sin ti) t);
        "z" ::= nums (Array_fill n 0);
        "line" ::= JObj ["color" ::= JStr "gray"; "width" ::= JNum 1; "dash" ::= JStr "dash"];
        "opacity" ::= JNum 0.4; "name" ::= JStr "projection"
      ]
    ];
    "layout" ::= JObj [
      "title" ::= JStr "Helix r(t) = ⟨cos t, sin t, t⟩<br>with tangent vector r'(t) = ⟨−sin t, cos t, 1⟩";
      "scene" ::= JObj ["xaxis" ::= JObj ["title" ::= JStr "X"];
                        "yaxis" ::= JObj ["title" ::= JStr "Y"];
                        "zaxis" ::= JObj ["title" ::= JStr "Z"]]
    ]
  ].

(** 5 - Multivariable surface with level curves. *)
Definition chart_multivariable_surface (_ : unit) : jsval :=
  let n := 80%nat in
  let xArr := linspace (-3) 3 n in
  let yArr := linspace (-3) 3 n in
  let Z := map (fun y => map (fun x =>
    Math_sin (Math_sqrt (x * x + y * y)) * Math_exp (-0.18 * (x * x + y * y))) xArr) yArr in
  JObj [
    "data" ::= JArr [JObj [
      "type" ::= JStr "surface"; "x" ::= nums xArr; "y" ::= nums yArr; "z" ::= grid Z;
      "colorscale" ::= JStr "Viridis"; "opacity" ::= JNum 0.92;
      "contours" ::= JObj [
        "z" ::= JObj ["show" ::= JBool true; "usecolormap" ::= JBool true;
                      "highlightcolor" ::= JStr "#42f462";
                      "project" ::= JObj ["z" ::= JBool true]]
      ];
      "name" ::= JStr "z = f(x,y)"
    ]];
    "layout" ::= JObj [
      "title" ::= JStr "Functions of Several Variables<br>z = sin(√(x²+y²)) · e^(−0.18(x²+y²))";
      "scene" ::= JObj ["xaxis" ::= JObj ["title" ::= JStr "X"];
                        "yaxis" ::= JObj ["title" ::= JStr "Y"];
                        "zaxis" ::= JObj ["title" ::= JStr "Z"]]
    ]
  ].

(** 6 - Partial derivatives. *)
Definition chart_partial_derivatives (_ : unit) : jsval :=
  let n := 60%nat in
  let xArr := linspace (-2) 2 n in
  let yArr := linspace (-2) 2 n in
  let Z := map (fun y => map (fun x => x * x + 0.5 * y * y) xArr) yArr in
  JObj [
    "data" ::= JArr [
      JObj ["type" ::= JStr "surface"; "x" ::= nums xArr; "y" ::= nums yArr; "z" ::= grid Z;
            "colorscale" ::= JStr "Plasma"; "opacity" ::= JNum 0.50; "showscale" ::= JBool false;
            "name" ::= JStr "f(x,y) = x² + 0.5y²"];
      JObj ["type" ::= JStr "scatter3d"; "mode" ::= JStr "lines";
            "x" ::= nums xArr; "y" ::= nums (Array_fill n 0);
            "z" ::= nums (map (fun x => x * x) xArr);
            "line" ::= JObj ["color" ::= JStr "red"; "width" ::= JNum 4];
            "name" ::= JStr "∂f/∂x slice (y=0)"];
      JObj ["type" ::= JStr "scatter3d"; "mode" ::= JStr "lines";
            "x" ::= nums (Array_fill n 0); "y" ::= nums xArr;
            "z" ::= nums (map (fun y => 0.5 * y * y) xArr);
            "line" ::= JObj ["color" ::= JStr "blue"; "width" ::= JNum 4];
            "name" ::= JStr "∂f/∂y slice (x=0)"]
    ];
    "layout" ::= JObj [
      "title" ::= JStr "f(x,y) = x² + 0.5y²<br>Partial-Derivative Cross-Sections (red=∂f/∂x, blue=∂f/∂y)";
      "scene" ::= JObj ["xaxis" ::= JObj ["title" ::= JStr "X"];
                        "yaxis" ::= JObj ["title" ::= JStr "Y"];
                        "zaxis" ::= JObj ["title" ::= JStr "Z"]]
    ]
  ].

(** 7 - Tangent plane. *)
Definition chart_tangent_plane (_ : unit) : jsval :=
  let n := 50%nat in
  let xArr := linspace (-2) 2 n in
  let yArr := linspace (-2) 2 n in
  let Z := map (fun y => map (fun x => x * x + y * y) xArr) yArr in
  let a := 1 in
  let b := 1 in
  let fab := 2 in
  let ZPlane := map (fun y => map (fun x => fab + 2 * (x - a) + 2 * (y - b)) xArr) yArr in
  JObj [
    "data" ::= JArr [
      JObj ["type" ::= JStr "surface"; "x" ::= nums xArr; "y" ::= nums yArr; "z" ::= grid Z;
            "colorscale" ::= JStr "Blues"; "opacity" ::= JNum 0.55;
            "name" ::= JStr "Surface z = x² + y²"];
      JObj ["type" ::= JStr "surface"; "x" ::= nums xArr; "y" ::= nums yArr; "z" ::= grid ZPlane;
            "colorscale" ::= JArr [JArr [JNum 0; JStr "orange"]; JArr [JNum 1; JStr "orange"]];
            "opacity" ::= JNum 0.40; "showscale" ::= JBool false;
            "name" ::= JStr "Tangent Plane at (1,1,2)"];
      JObj ["type" ::= JStr "scatter3d"; "mode" ::= JStr "markers+text";
            "x" ::= nums [a]; "y" ::= nums [b]; "z" ::= nums [fab];
            "marker" ::= JObj ["color" ::= JStr "red"; "size" ::= JNum 10];
            "text" ::= strs ["(a, b, f(a,b))"]; "textposition" ::= JStr "top center";
            "name" ::= JStr "Point of tangency"]
    ];
    "layout" ::= JObj [
      "title" ::= JStr "Tangent Plane to z = x² + y² at (1, 1, 2)<br>z − f(a,b) = fₓ(a,b)(x−a) + fᵧ(a,b)(y−b)";
      "scene" ::= JObj ["xaxis" ::= JObj ["title" ::= JStr "X"];
                        "yaxis" ::= JObj ["title" ::= JStr "Y"];
                        "zaxis" ::= JObj ["title" ::= JStr "Z"]]
    ]
  ].

(** 8 - Gradient vectors.  The two nested loops push, for every grid
    point, one arrow segment (two points and a [null] separator) and one
    arrow tip. *)
Definition gradient_arrows (gn : nat) (gx gy : list float) (scale : float)
  : list (float * float * float * float * float) :=
  flat_map (fun j => map (fun i =>
    let cx := at_num gx i in
    let cy := at_num gy j in
    let dx := 2 * cx in
    let dy := 4 * cy in
    let mag := Math_sqrt (dx * dx + dy * dy) + 1e-8 in
    let nx := dx / mag * scale in
    let ny := dy / mag * scale in
    (cx, cy, nx, ny, - Math_atan2 ny nx * 180 / Math_PI + 90)) (seq 0 gn)) (seq 0 gn).

Definition chart_gradient_vectors (_ : unit) : jsval :=
  let n := 120%nat in
  let xArr := linspace (-3) 3 n in
  let yArr := linspace (-3) 3 n in
  let Z := map (fun y => map (fun x => x * x + 2 * y * y) xArr) yArr in
  let gn := 10%nat in
  let gx := linspace (-2.5) 2.5 gn in
  let gy := linspace (-2.5) 2.5 gn in
  let scale := 0.28 in
  let arrows := gradient_arrows gn gx gy scale in
  let lineX := flat_map (fun '(cx, cy, nx, ny, ang) => [JNum cx; JNum (cx + nx); JNull]) arrows in
  let lineY := flat_map (fun '(cx, cy, nx, ny, ang) => [JNum cy; JNum (cy + ny); JNull]) arrows in
  let tipX := map (fun '(cx, cy, nx, ny, ang) => cx + nx) arrows in
  let tipY := map (fun '(cx, cy, nx, ny, ang) => cy + ny) arrows in
  let tipAngle := map (fun '(cx, cy, nx, ny, ang) => ang) arrows in
  JObj [
    "data" ::= JArr [
      JObj ["type" ::= JStr "contour"; "x" ::= nums xArr; "y" ::= nums yArr; "z" ::= grid Z;
            "colorscale" ::= JStr "RdYlGn"; "ncontours" ::= JNum 18; "showscale" ::= JBool true;
            "colorbar" ::= JObj ["title" ::= JStr "f(x,y)"];
            "name" ::= JStr "f(x,y) = x² + 2y²"];
      JObj ["type" ::= JStr "scatter"; "mode" ::= JStr "lines";
            "x" ::= JArr lineX; "y" ::= JArr lineY;
            "line" ::= JObj ["color" ::= JStr "black"; "width" ::= JNum 1.5];
            "showlegend" ::= JBool false; "hoverinfo" ::= JStr "none"];
      JObj ["type" ::= JStr "scatter"; "mode" ::= JStr "markers";
            "x" ::= nums tipX; "y" ::= nums tipY;
            "marker" ::= JObj ["symbol" ::= JStr "triangle-up"; "size" ::= JNum 8;
                               "color" ::= JStr "black"; "angle" ::= nums tipAngle];
            "showlegend" ::= JBool false; "hoverinfo" ::= JStr "none"]
    ];
    "layout" ::= JObj [
      "title" ::= JStr "∇f = ⟨2x, 4y⟩ — arrows point toward STEEPEST ASCENT (⊥ to level curves)";
      "xaxis" ::= JObj ["title" ::= JStr "X"; "scaleanchor" ::= JStr "y"];
      "yaxis" ::= JObj ["title" ::= JStr "Y"];
      "height" ::= JNum 550
    ]
  ].

(** 9 - Critical points (saddle, minimum, maximum). *)
Definition chart_critical_points (_ : unit) : jsval :=
  let n := 50%nat in
  let xArr := linspace (-2) 2 n in
  let yArr := linspace (-2) 2 n in
  let saddle := map (fun y => map (fun x => x * x - y * y) xArr) yArr in
  let localMin := map (fun y => map (fun x => x * x + y * y) xArr) yArr in
  let localMax := map (fun y => map (fun x => - (x * x + y * y)) xArr) yArr in
  let dot := fun (Z : list (list float)) (scene name : string) =>
    JObj ["type" ::= JStr "scatter3d"; "mode" ::= JStr "markers";
          "x" ::= nums [0]; "y" ::= nums [0]; "z" ::= nums [0];
          "marker" ::= JObj ["color" ::= JStr "red"; "size" ::= JNum 7];
          "scene" ::= JStr scene; "name" ::= JStr name; "showlegend" ::= JBool false] in
  let blank := JObj ["title" ::= JStr ""] in
  let dom := fun (x0 x1 : float) => JObj ["x" ::= nums [x0; x1]; "y" ::= nums [0; 1]] in
  let note := fun (x : float) (text : string) =>
    JObj ["x" ::= JNum x; "y" ::= JNum 1.05; "xref" ::= JStr "paper"; "yref" ::= JStr "paper";
          "text" ::= JStr text; "showarrow" ::= JBool false;
          "font" ::= JObj ["size" ::= JNum 12]] in
  JObj [
    "data" ::= JArr [
      JObj ["type" ::= JStr "surface"; "x" ::= nums xArr; "y" ::= nums yArr; "z" ::= grid saddle;
            "colorscale" ::= JStr "RdBu"; "opacity" ::= JNum 0.85; "showscale" ::= JBool false;
            "scene" ::= JStr "scene"; "name" ::= JStr "Saddle  z = x²−y²"];
      dot saddle "scene" "s";
      JObj ["type" ::= JStr "surface"; "x" ::= nums xArr; "y" ::= nums yArr; "z" ::= grid localMin;
            "colorscale" ::= JStr "Blues"; "opacity" ::= JNum 0.85; "showscale" ::= JBool false;
            "scene" ::= JStr "scene2"; "name" ::= JStr "Min  z = x²+y²"];
      dot localMin "scene2" "m";
      JObj ["type" ::= JStr "surface"; "x" ::= nums xArr; "y" ::= nums yArr; "z" ::= grid localMax;
            "colorscale" ::= JStr "Reds"; "opacity" ::= JNum 0.85; "showscale" ::= JBool false;
            "scene" ::= JStr "scene3"; "name" ::= JStr "Max  z = −x²−y²"];
      dot localMax "scene3" "x"
    ];
    "layout" ::= JObj [
      "title" ::= JStr "Critical Points — Second Derivative Test  D = fₓₓ·fᵧᵧ − (fₓᵧ)²";
      "scene" ::= JObj ["domain" ::= dom 0.00 0.30;
                        "xaxis" ::= blank; "yaxis" ::= blank; "zaxis" ::= blank;
                        "annotations" ::= JArr [JObj ["x" ::= JNum 0; "y" ::= JNum 0; "z" ::= JNum 0;
                                                      "text" ::= JStr "Saddle (D<0)";
                                                      "showarrow" ::= JBool false]]];
      "scene2" ::= JObj ["domain" ::= dom 0.35 0.65;
                         "xaxis" ::= blank; "yaxis" ::= blank; "zaxis" ::= blank];
      "scene3" ::= JObj ["domain" ::= dom 0.70 1.00;
                         "xaxis" ::= blank; "yaxis" ::= blank; "zaxis" ::= blank];
      "height" ::= JNum 500;
      "annotations" ::= JArr [
        note 0.15 "Saddle Point (D<0)";
        note 0.50 "Local Minimum (D>0, fₓₓ>0)";
        note 0.85 "Local Maximum (D>0, fₓₓ<0)"
      ]
    ]
  ].

(** 10 - Double integral volume. *)
Definition chart_double_integral (_ : unit) : jsval :=
  let n := 50%nat in
  let xArr := linspace 0 2 n in
  let yArr := linspace 0 2 n in
  let Z := map (fun y => map (fun x => Math_max 0 (4 - x * x - y * y)) xArr) yArr in
  JObj [
    "data" ::= JArr [
      JObj [
        "type" ::= JStr "surface"; "x" ::= nums xArr; "y" ::= nums yArr; "z" ::= grid Z;
        "colorscale" ::= JStr "Viridis"; "opacity" ::= JNum 0.82;
        "contours" ::= JObj ["z" ::= JObj ["show" ::= JBool true; "usecolormap" ::= JBool true;
                                           "project" ::= JObj ["z" ::= JBool true]]];
        "name" ::= JStr "f(x,y) = 4 − x² − y²"
      ];
      JObj ["type" ::= JStr "surface"; "x" ::= nums xArr; "y" ::= nums yArr;
            "z" ::= grid (map (fun _ => Array_fill n 0) yArr);
            "colorscale" ::= JArr [JArr [JNum 0; JStr "lightblue"]; JArr [JNum 1; JStr "lightblue"]];
            "opacity" ::= JNum 0.22; "showscale" ::= JBool false;
            "name" ::= JStr "xy-plane base"]
    ];
    "layout" ::= JObj [
      "title" ::= JStr "Double Integral ∬_R f(x,y) dA = Volume under surface<br>f(x,y) = 4 − x² − y²";
      "scene" ::= JObj ["xaxis" ::= JObj ["title" ::= JStr "X"];
                        "yaxis" ::= JObj ["title" ::= JStr "Y"];
                        "zaxis" ::= JObj ["title" ::= JStr "f(x,y)"]]
    ]
  ].

(** 11 - Coordinate systems (cylindrical and spherical).  Both surfaces
    are parametric: the cylinder's grids have shape [nZ] by [nT], the
    sphere's [nT] by [nT]. *)
Definition chart_coordinate_systems (_ : unit) : jsval :=
  let nT := 80%nat in
  let theta := linspace 0 (2 * Math_PI) nT in
  let nZ := 30%nat in
  let zArr := linspace 0 3 nZ in
  let rCyl := 1.5 in
  let cylX := map (fun _ => map (fun t => rCyl * Math_cos t) theta) zArr in
  let cylY := map (fun _ => map (fun t => rCyl * Math_sin t) theta) zArr in
  let cylZ := map (fun zi => Array_fill nT zi) zArr in
  let r0 := 1.5 in
  let th0 := Math_PI / 3 in
  let z0 := 2.0 in
  let px1 := r0 * Math_cos th0 in
  let py1 := r0 * Math_sin th0 in
  let phi := linspace 0 Math_PI nT in
  let rho := 2.0 in
  let sphX := map (fun t => map (fun p => rho * Math_sin p * Math_cos t) phi) theta in
  let sphY := map (fun t => map (fun p => rho * Math_sin p * Math_sin t) phi) theta in
  let sphZ := map (fun _ => map (fun p => rho * Math_cos p) phi) theta in
  let rho0 := 2.0 in
  let phi0 := Math_PI / 4 in
  let the0 := Math_PI / 3 in
  let px2 := rho0 * Math_sin phi0 * Math_cos the0 in
  let py2 := rho0 * Math_sin phi0 * Math_sin the0 in
  let pz2 := rho0 * Math_cos phi0 in
  let axes := ["xaxis" ::= JObj ["title" ::= JStr "X"];
               "yaxis" ::= JObj ["title" ::= JStr "Y"];
               "zaxis" ::= JObj ["title" ::= JStr "Z"]] in
  JObj [
    "data" ::= JArr [
      JObj ["type" ::= JStr "surface"; "x" ::= grid cylX; "y" ::= grid cylY; "z" ::= grid cylZ;
            "colorscale" ::= JArr [JArr [JNum 0; JStr "cyan"]; JArr [JNum 1; JStr "cyan"]];
            "opacity" ::= JNum 0.18; "showscale" ::= JBool false;
            "scene" ::= JStr "scene"; "name" ::= JStr "Cylinder"];
      JObj ["type" ::= JStr "scatter3d"; "mode" ::= JStr "markers";
            "x" ::= nums [px1]; "y" ::= nums [py1]; "z" ::= nums [z0];
            "marker" ::= JObj ["color" ::= JStr "red"; "size" ::= JNum 8];
            "scene" ::= JStr "scene"; "name" ::= JStr "P(r=1.5, θ=π/3, z=2)"];
      JObj ["type" ::= JStr "scatter3d"; "mode" ::= JStr "lines";
            "x" ::= nums [0; px1]; "y" ::= nums [0; py1]; "z" ::= nums [z0; z0];
            "line" ::= JObj ["color" ::= JStr "red"; "width" ::= JNum 2; "dash" ::= JStr "dash"];
            "scene" ::= JStr "scene"; "name" ::= JStr "r"; "showlegend" ::= JBool false];
      JObj ["type" ::= JStr "scatter3d"; "mode" ::= JStr "lines";
            "x" ::= nums [px1; px1]; "y" ::= nums [py1; py1]; "z" ::= nums [0; z0];
            "line" ::= JObj ["color" ::= JStr "green"; "width" ::= JNum 2; "dash" ::= JStr "dash"];
            "scene" ::= JStr "scene"; "name" ::= JStr "z"; "showlegend" ::= JBool false];
      JObj ["type" ::= JStr "surface"; "x" ::= grid sphX; "y" ::= grid sphY; "z" ::= grid sphZ;
            "colorscale" ::= JArr [JArr [JNum 0; JStr "lightgreen"]; JArr [JNum 1; JStr "lightgreen"]];
            "opacity" ::= JNum 0.18; "showscale" ::= JBool false;
            "scene" ::= JStr "scene2"; "name" ::= JStr "Sphere ρ=2"];
      JObj ["type" ::= JStr "scatter3d"; "mode" ::= JStr "markers";
            "x" ::= nums [px2]; "y" ::= nums [py2]; "z" ::= nums [pz2];
            "marker" ::= JObj ["color" ::= JStr "red"; "size" ::= JNum 8];
            "scene" ::= JStr "scene2"; "name" ::= JStr "P(ρ=2, φ=π/4, θ=π/3)"];
      JObj ["type" ::= JStr "scatter3d"; "mode" ::= JStr "lines";
            "x" ::= nums [0; px2]; "y" ::= nums [0; py2]; "z" ::= nums [0; pz2];
            "line" ::= JObj ["color" ::= JStr "red"; "width" ::= JNum 2];
            "scene" ::= JStr "scene2"; "name" ::= JStr "ρ"; "showlegend" ::= JBool false]
    ];
    "layout" ::= JObj [
      "title" ::= JStr "3D Coordinate Systems";
      "scene" ::= JObj (("domain" ::= JObj ["x" ::= nums [0.00; 0.48]; "y" ::= nums [0; 1]]) :: axes);
      "scene2" ::= JObj (("domain" ::= JObj ["x" ::= nums [0.52; 1.00]; "y" ::= nums [0; 1]]) :: axes);
      "height" ::= JNum 520;
      "annotations" ::= JArr [
        JObj ["x" ::= JNum 0.24; "y" ::= JNum 1.04; "xref" ::= JStr "paper"; "yref" ::= JStr "paper";
              "text" ::= JStr "Cylindrical (r, θ, z)  dV = r dz dr dθ";
              "showarrow" ::= JBool false; "font" ::= JObj ["size" ::= JNum 13]];
        JObj ["x" ::= JNum 0.76; "y" ::= JNum 1.04; "xref" ::= JStr "paper"; "yref" ::= JStr "paper";
              "text" ::= JStr "Spherical (ρ, φ, θ)  dV = ρ² sin φ dρ dφ dθ";
              "showarrow" ::= JBool false; "font" ::= JObj ["size" ::= JNum 13]]
      ]
    ]
  ].

(** 12 - 3D vector field: three nested [for ... of] loops over [pts],
    [z] outermost and [x] innermost. *)
Definition chart_vector_field_3d (_ : unit) : jsval :=
  let pts := [-2; -1; 0; 1; 2] in
  let cells := flat_map (fun z => flat_map (fun y => map (fun x => (x, y, z)) pts) pts) pts in
  let X := map (fun '(x, y, z) => x) cells in
  let Y := map (fun '(x, y, z) => y) cells in
  let Z := map (fun '(x, y, z) => z) cells in
  let U := map (fun '(x, y, z) => - y * 0.35) cells in
  let V := map (fun '(x, y, z) => x * 0.35) cells in
  let W := map (fun '(x, y, z) => z * 0.12) cells in
  JObj [
    "data" ::= JArr [JObj [
      "type" ::= JStr "cone";
      "x" ::= nums X; "y" ::= nums Y; "z" ::= nums Z;
      "u" ::= nums U; "v" ::= nums V; "w" ::= nums W;
      "colorscale" ::= JStr "Blues";
      "sizemode" ::= JStr "absolute"; "sizeref" ::= JNum 0.45;
      "showscale" ::= JBool true;
      "colorbar" ::= JObj ["title" ::= JStr "|F|"];
      "anchor" ::= JStr "tail";
      "name" ::= JStr "F = ⟨−y, x, z/3⟩"
    ]];
    "layout" ::= JObj [
      "title" ::= JStr "3D Vector Field  F = ⟨−y, x, z/3⟩<br>curl F ≠ 0 (rotation about z-axis)";
      "scene" ::= JObj ["xaxis" ::= JObj ["title" ::= JStr "X"];
                        "yaxis" ::= JObj ["title" ::= JStr "Y"];
                        "zaxis" ::= JObj ["title" ::= JStr "Z"];
                        "aspectmode" ::= JStr "cube"]
    ]
  ].

(** 13 - Black-Scholes (call price and delta).  [bsCall] and [delta] are
    the two closures of the factory, over its constants [K], [r] and
    [sigma]. *)
Definition bs_K : float := 100.
Definition bs_r : float := 0.05.
Definition bs_sigma : float := 0.20.

Definition bs_d1 (s tt : float) : float :=
  (Math_log (s / bs_K) + (bs_r + 0.5 * bs_sigma * bs_sigma) * tt)
  / (bs_sigma * Math_sqrt tt).

Definition bsCall (s t : float) : float :=
  let tt := Math_max t 1e-6 in
  let d1 := bs_d1 s tt in
  let d2 := d1 - bs_sigma * Math_sqrt tt in
  s * normCDF d1 - bs_K * Math_exp (- bs_r * tt) * normCDF d2.

Definition delta (s t : float) : float :=
  let tt := Math_max t 1e-6 in
  let d1 := bs_d1 s tt in
  normCDF d1.

Definition chart_black_scholes (_ : unit) : jsval :=
  let nS := 60%nat in
  let nT := 60%nat in
  let S := linspace 60 150 nS in
  let T := linspace 0.02 2.0 nT in
  let V := map (fun ti => map (fun si => bsCall si ti) S) T in
  let D := map (fun ti => map (fun si => delta si ti) S) T in
  JObj [
    "data" ::= JArr [
      JObj ["type" ::= JStr "surface"; "x" ::= nums S; "y" ::= nums T; "z" ::= grid V;
            "colorscale" ::= JStr "RdYlGn"; "opacity" ::= JNum 0.90;
            "scene" ::= JStr "scene"; "name" ::= JStr "Call Price V";
            "colorbar" ::= JObj ["title" ::= JStr "V ($)"; "x" ::= JNum 0.45; "len" ::= JNum 0.8]];
      JObj ["type" ::= JStr "surface"; "x" ::= nums S; "y" ::= nums T; "z" ::= grid D;
            "colorscale" ::= JStr "RdBu"; "opacity" ::= JNum 0.90;
            "scene" ::= JStr "scene2"; "name" ::= JStr "Delta Δ";
            "colorbar" ::= JObj ["title" ::= JStr "Δ"; "x" ::= JNum 1.00; "len" ::= JNum 0.8]]
    ];
    "layout" ::= JObj [
      "title" ::= JStr "Quant Finance — Option Greeks as Partial Derivatives";
      "scene" ::= JObj ["domain" ::= JObj ["x" ::= nums [0.00; 0.48]; "y" ::= nums [0; 1]];
                        "xaxis" ::= JObj ["title" ::= JStr "Stock Price S"];
                        "yaxis" ::= JObj ["title" ::= JStr "Time T"];
                        "zaxis" ::= JObj ["title" ::= JStr "V ($)"]];
      "scene2" ::= JObj ["domain" ::= JObj ["x" ::= nums [0.52; 1.00]; "y" ::= nums [0; 1]];
                         "xaxis" ::= JObj ["title" ::= JStr "Stock Price S"];
                         "yaxis" ::= JObj ["title" ::= JStr "Time T"];
                         "zaxis" ::= JObj ["title" ::= JStr "Δ = ∂V/∂S"]];
      "height" ::= JNum 520;
      "annotations" ::= JArr [
        JObj ["x" ::= JNum 0.24; "y" ::= JNum 1.04; "xref" ::= JStr "paper"; "yref" ::= JStr "paper";
              "text" ::= JStr "Call Price V(S,T)  —  slope ∂V/∂S = Delta";
              "showarrow" ::= JBool false; "font" ::= JObj ["size" ::= JNum 12]];
        JObj ["x" ::= JNum 0.76; "y" ::= JNum 1.04; "xref" ::= JStr "paper"; "yref" ::= JStr "paper";
              "text" ::= JStr "Delta Δ(S,T) = ∂V/∂S  —  curvature = Gamma";
              "showarrow" ::= JBool false; "font" ::= JObj ["size" ::= JNum 12]]
      ]
    ]
  ].

(** The registry: the own properties of the object literal [CHARTS], in
    source order. *)
Definition CHARTS : list (string * (unit -> jsval)) := [
  "riemann-sum" ::= chart_riemann_sum;
  "surface-revolution" ::= chart_surface_revolution;
  "3d-coordinates" ::= chart_3d_coordinates;
  "helix-tangent" ::= chart_helix_tangent;
  "multivariable-surface" ::= chart_multivariable_surface;
  "partial-derivatives" ::= chart_partial_derivatives;
  "tangent-plane" ::= chart_tangent_plane;
  "gradient-vectors" ::= chart_gradient_vectors;
  "critical-points" ::= chart_critical_points;
  "double-integral" ::= chart_double_integral;
  "coordinate-systems" ::= chart_coordinate_systems;
  "vector-field-3d" ::= chart_vector_field_3d;
  "black-scholes" ::= chart_black_scholes
].

End Charts.

(** The 13 chart identifiers. *)
Definition chart_ids : list string :=
  ["riemann-sum"; "surface-revolution"; "3d-coordinates"; "helix-tangent";
   "multivariable-surface"; "partial-derivatives"; "tangent-plane";
   "gradient-vectors"; "critical-points"; "double-integral";
   "coordinate-systems"; "vector-field-3d"; "black-scholes"]%string.

(* ================================================================== *)
(** ** What a factory reads of its environment *)






(* ================================================================== *)
(** ** The page: the Plotly loader and the chart component *)

(** The component is only ever rendered inside [BrowserOnly], so [window]
    and [document] exist and [typeof window !== 'undefined'] holds; what
    varies is whether [window.Plotly] is defined. *)

(** A handle of the engine object ([window.Plotly]), of a DOM node. *)
Definition Engine := nat.
Definition Container := nat.

Inductive JsError : Type :=
| TypeError (msg : string)
| RangeError (msg : string)
| LoadError.  (* the error event a failed script hands to [reject] *)

(** The completion of a piece of JavaScript: a value, or a thrown error. *)
Inductive Completion (A : Type) : Type :=
| Normal (a : A)
| Throw (e : JsError).
Arguments Normal {A} a.
Arguments Throw {A} e.

(** A call [linspace(start, end, n)] with any whole count:
    [Array.from({ length: n }, ...)] creates its array with [new Array(n)],
    which throws a [RangeError] when [n] is 2^32 or more. *)
Definition linspace_call (start end_ : float) (n : nat) : Completion (list float) :=
  if (Z.of_nat n <? 2 ^ 32)%Z then Normal (linspace start end_ n)
  else Throw (RangeError "Invalid array length").

(** The state of a promise.  A promise of the loader is fulfilled with the
    value [window.Plotly] had when the script's [onload] ran, which is
    [undefined] ([None]) if the script defined nothing. *)
Inductive Settled : Type :=
| Pending
| Fulfilled (v : option Engine)
| Rejected (e : JsError).

(** The script element the loader appends to [document.head]; [settles] is
    the promise whose [resolve] and [reject] its handlers close over. *)
Record Script : Type := {
  src : string;
  charset : string;
  settles : nat
}.

(** A call received by the engine. *)
Inductive EngineCall : Type :=
| NewPlot (eng : Engine) (div : Container) (data layout config : jsval)
| Purge (eng : Engine) (div : Container).

(** One mounted [PlotlyChart]: its prop, [divRef.current] and its [ready]
    state. *)
Record Chart : Type := {
  chartName : string;
  divRef : option Container;
  ready : bool
}.

(** A [.then(...).catch(...)] registered on a pending promise by the effect
    of chart [w_chart], with the [data] and [layout] its closure holds. *)
Record Waiting : Type := {
  w_promise : nat;
  w_chart : nat;
  w_data : jsval;
  w_layout : jsval
}.

Record Page : Type := {
  _plotlyPromise : option nat;     (* [null], or a handle into [promises] *)
  window_Plotly : option Engine;   (* [window.Plotly] *)
  promises : list Settled;         (* every promise created, by handle *)
  document_head : list Script;              (* scripts appended to [document.head] *)
  console : list JsError;          (* [console.error('Plotly load failed:', err)] *)
  charts : list Chart;             (* component instances, by id *)
  waiting : list Waiting;          (* reactions not yet run *)
  calls : list EngineCall;         (* calls made to the engine *)
  uncaught : list JsError          (* errors that escaped a component *)
}.

Module PageOps.

Definition with_plotlyPromise (p : option nat) (pg : Page) : Page :=
  {| _plotlyPromise := p; window_Plotly := window_Plotly pg;
     promises := promises pg; document_head := document_head pg; console := console pg;
     charts := charts pg; waiting := waiting pg; calls := calls pg;
     uncaught := uncaught pg |}.

Definition with_window_Plotly (w : option Engine) (pg : Page) : Page :=
  {| _plotlyPromise := _plotlyPromise pg; window_Plotly := w;
     promises := promises pg; document_head := document_head pg; console := console pg;
     charts := charts pg; waiting := waiting pg; calls := calls pg;
     uncaught := uncaught pg |}.

Definition with_promises (ps : list Settled) (pg : Page) : Page :=
  {| _plotlyPromise := _plotlyPromise pg; window_Plotly := window_Plotly pg;
     promises := ps; document_head := document_head pg; console := console pg;
     charts := charts pg; waiting := waiting pg; calls := calls pg;
     uncaught := uncaught pg |}.

Definition with_document_head (h : list Script) (pg : Page) : Page :=
  {| _plotlyPromise := _plotlyPromise pg; window_Plotly := window_Plotly pg;
     promises := promises pg; document_head := h; console := console pg;
     charts := charts pg; waiting := waiting pg; calls := calls pg;
     uncaught := uncaught pg |}.

Definition with_console (c : list JsError) (pg : Page) : Page :=
  {| _plotlyPromise := _plotlyPromise pg; window_Plotly := window_Plotly pg;
     promises := promises pg; document_head := document_head pg; console := c;
     charts := charts pg; waiting := waiting pg; calls := calls pg;
     uncaught := uncaught pg |}.

Definition with_charts (cs : list Chart) (pg : Page) : Page :=
  {| _plotlyPromise := _plotlyPromise pg; window_Plotly := window_Plotly pg;
     promises := promises pg; document_head := document_head pg; console := console pg;
     charts := cs; waiting := waiting pg; calls := calls pg;
     uncaught := uncaught pg |}.

Definition with_waiting (ws : list Waiting) (pg : Page) : Page :=
  {| _plotlyPromise := _plotlyPromise pg; window_Plotly := window_Plotly pg;
     promises := promises pg; document_head := document_head pg; console := console pg;
     charts := charts pg; waiting := ws; calls := calls pg;
     uncaught := uncaught pg |}.

Definition with_calls (cs : list EngineCall) (pg : Page) : Page :=
  {| _plotlyPromise := _plotlyPromise pg; window_Plotly := window_Plotly pg;
     promises := promises pg; document_head := document_head pg; console := console pg;
     charts := charts pg; waiting := waiting pg; calls := cs;
     uncaught := uncaught pg |}.

Definition with_uncaught (es : list JsError) (pg : Page) : Page :=
  {| _plotlyPromise := _plotlyPromise pg; window_Plotly := window_Plotly pg;
     promises := promises pg; document_head := document_head pg; console := console pg;
     charts := charts pg; waiting := waiting pg; calls := calls pg;
     uncaught := es |}.

(** Replace element [i] of a list; out of range the list is unchanged. *)
Fixpoint update {A : Type} (i : nat) (f : A -> A) (l : list A) : list A :=
  match l, i with
  | [], _ => []
  | x :: rest, O => f x :: rest
  | x :: rest, S i' => x :: update i' f rest
  end.

Definition settle (p : nat) (s : Settled) (pg : Page) : Page :=
  with_promises (update p (fun old => match old with Pending => s | _ => old end)
                        (promises pg)) pg.

Definition promise_state (pg : Page) (p : nat) : Settled :=
  nth p (promises pg) Pending.

Definition set_ready (c : nat) (b : bool) (pg : Page) : Page :=
  with_charts (update c (fun ch => {| chartName := chartName ch;
                                      divRef := divRef ch; ready := b |})
                      (charts pg)) pg.

Definition set_divRef (c : nat) (d : option Container) (pg : Page) : Page :=
  with_charts (update c (fun ch => {| chartName := chartName ch;
                                      divRef := d; ready := ready ch |})
                      (charts pg)) pg.

Definition divRef_current (pg : Page) (c : nat) : option Container :=
  match nth_error (charts pg) c with
  | Some ch => divRef ch
  | None => None
  end.

End PageOps.

(** A page that has just been opened; [w] says whether the document already
    carries an engine on [window.Plotly]. *)
Definition fresh_page (w : option Engine) : Page :=
  {| _plotlyPromise := None; window_Plotly := w; promises := [];
     document_head := []; console := []; charts := []; waiting := [];
     calls := []; uncaught := [] |}.

Section Adapter.

Context {M : HostMath}.

Open Scope string_scope.

Import PageOps.

(** [loadPlotly()]: returns the promise handle and the page it leaves. *)
Definition loadPlotly (pg : Page) : nat * Page :=
  match _plotlyPromise pg with
  | Some p => (p, pg)                                   (* memoized *)
  | None =>
      let p := List.length (promises pg) in
      match window_Plotly pg with
      | Some eng =>                                     (* Promise.resolve(window.Plotly) *)
          (p, with_promises (promises pg ++ [Fulfilled (Some eng)]) pg)
      | None =>                                         (* new Promise(executor) *)
          let s := {| src := "https://cdn.plot.ly/plotly-2.26.0.min.js";
                      charset := "utf-8"; settles := p |} in
          (p, with_plotlyPromise (Some p)
                (with_document_head (document_head pg ++ [s])
                   (with_promises (promises pg ++ [Pending]) pg)))
      end
  end.

(** The names every object literal inherits from [Object.prototype]
    (ECMAScript, with the Annex B accessors every browser ships). *)
Definition Object_prototype_keys : list string :=
  ["constructor"; "__defineGetter__"; "__defineSetter__"; "hasOwnProperty";
   "__lookupGetter__"; "__lookupSetter__"; "isPrototypeOf";
   "propertyIsEnumerable"; "toString"; "valueOf"; "__proto__";
   "toLocaleString"].

(** What [CHARTS[chartName]] evaluates to: an own property (a factory), a
    member inherited through the prototype chain, or [undefined]. *)
Inductive Lookup : Type :=
| Own (def : unit -> jsval)
| Inherited (member : string)
| Missing.

Definition CHARTS_get (chartName : string) : Lookup :=
  match JS.assoc chartName CHARTS with
  | Some def => Own def
  | None =>
      if existsb (String.eqb chartName) Object_prototype_keys
      then Inherited chartName
      else Missing
  end.

(** [def()] on an inherited member, called with [this] undefined (module
    code is strict): [Object()] makes an empty object, [toString] and
    [isPrototypeOf] return a primitive, the remaining methods throw at
    [ToObject(undefined)], and [__proto__] reads as the prototype object,
    which is not callable. *)
Definition call_inherited (member : string) : Completion jsval :=
  if String.eqb member "constructor" then Normal (JObj [])
  else if String.eqb member "toString" then Normal (JStr "[object Undefined]")
  else if String.eqb member "isPrototypeOf" then Normal (JBool false)
  else if String.eqb member "__proto__" then Throw (TypeError "def is not a function")
  else Throw (TypeError "Cannot convert undefined or null to object").

(** What the component's render returns: the red inline
    "Chart ... not found." element, or the chart view, that is the
    "Loading 3D visualization" placeholder while not ready and the div
    with its height. *)
Inductive Rendered : Type :=
| NotFound (chartName : string)
| ChartView (placeholder : bool) (div_height : jsval).

(** [def()] for whatever the lookup found. *)
Definition call_def (found : Lookup) : Completion jsval :=
  match found with
  | Own def => Normal (def tt)
  | Inherited m => call_inherited m
  | Missing => Throw (TypeError "def is not a function")
  end.

(** [CHARTS[chartName]?.()?.layout] in the render: a member call, with
    [this] the object [CHARTS].  A factory returns its descriptor.  Of the
    inherited members, [__proto__] is the prototype object, which is not
    callable, and [__defineGetter__] and [__defineSetter__] throw at their
    missing accessor function; the others return a value without a
    [layout] ([Object()] an empty object, [valueOf] the registry itself,
    [toString] and [toLocaleString] a string, [hasOwnProperty],
    [isPrototypeOf] and [propertyIsEnumerable] [false], [__lookupGetter__]
    and [__lookupSetter__] [undefined], where [?.] stops). *)
Definition render_layout (found : Lookup) : Completion jsval :=
  match found with
  | Own def => Normal (JS.get "layout" (def tt))
  | Inherited m =>
      if String.eqb m "__proto__"
      then Throw (TypeError "CHARTS[chartName] is not a function")
      else if String.eqb m "__defineGetter__" || String.eqb m "__defineSetter__"
      then Throw (TypeError "Object.prototype.__defineGetter__: Expecting function")
      else Normal JUndefined
  | Missing => Normal JUndefined
  end.

(** The render of [PlotlyChart]: [if (!def) return ...], else the view,
    whose div is [CHARTS[chartName]?.()?.layout?.height || 500] high once
    ready and [0] before. *)
Definition PlotlyChart_render (chartName : string) (ready : bool)
  : Completion Rendered :=
  match CHARTS_get chartName with
  | Missing => Normal (NotFound chartName)
  | found =>
      if ready then
        match render_layout found with
        | Throw e => Throw e
        | Normal layout =>
            Normal (ChartView false
                      (JS.or_else (JS.get "height" layout) (JNum 500%float)))
        end
      else Normal (ChartView true (JNum 0%float))
  end.

(** The property name of array index [i]. *)
Definition index_key (i : nat) : string :=
  DecimalString.NilEmpty.string_of_uint (Nat.to_uint i).

Fixpoint chars (s : string) : list jsval :=
  match s with
  | EmptyString => []
  | String a rest => JStr (String a EmptyString) :: chars rest
  end.

(** The own enumerable properties [{...layout}] copies: those of an
    object, the indexed elements of an array or of a string (its
    characters, for an ASCII string), none for the other values. *)
Definition spread (layout : jsval) : list (string * jsval) :=
  match layout with
  | JObj ps => ps
  | JArr l => combine (map index_key (seq 0 (List.length l))) l
  | JStr s => combine (map index_key (seq 0 (String.length s))) (chars s)
  | _ => []
  end.

(** The object literal [fullLayout]: the spread of [layout], then the five
    host properties, each overwriting a property of that name in place or
    else appended. *)
Definition fullLayout (layout : jsval) : jsval :=
  JObj (JS.set "height" (JS.or_else (JS.get "height" layout) (JNum 500%float))
       (JS.set "margin" (JObj ["t" ::= JNum 80%float; "r" ::= JNum 20%float;
                               "b" ::= JNum 50%float; "l" ::= JNum 20%float])
       (JS.set "font" (JObj ["family" ::= JStr "inherit"])
       (JS.set "plot_bgcolor" (JStr "transparent")
       (JS.set "paper_bgcolor" (JStr "transparent")
       (spread layout)))))).


Definition plot_config : jsval :=
  JObj ["responsive" ::= JBool true; "displayModeBar" ::= JBool true].

(** A method call [recv.method(...)]: reading a property of [undefined]
    throws. *)
Definition method_call (recv : option Engine) (call : Engine -> EngineCall)
           (pg : Page) : Completion Page :=
  match recv with
  | None => Throw (TypeError "Cannot read properties of undefined")
  | Some eng => Normal (with_calls (calls pg ++ [call eng]) pg)
  end.

(** The body of the [.then] callback of chart [c], run with the value the
    promise was fulfilled with. *)
Definition then_body (c : nat) (data layout : jsval) (Plotly : option Engine)
           (pg : Page) : Completion Page :=
  match divRef_current pg c with
  | None => Normal pg                                    (* if (!divRef.current) return; *)
  | Some div =>
      match layout with
      | JUndefined | JNull =>                            (* layout.height *)
          Throw (TypeError "Cannot read properties of undefined (reading 'height')")
      | _ =>
          match method_call Plotly
                  (fun eng => NewPlot eng div data (fullLayout layout) plot_config) pg with
          | Throw e => Throw e
          | Normal pg' => Normal (set_ready c true pg')  (* setReady(true) *)
          end
      end
  end.

(** [.catch(err => console.error('Plotly load failed:', err))]. *)
Definition catch_log (r : Completion Page) (pg : Page) : Page :=
  match r with
  | Normal pg' => pg'
  | Throw e => with_console (console pg ++ [e]) pg
  end.

(** The reaction of one waiter to the settlement of its promise. *)
Definition react (s : Settled) (w : Waiting) (pg : Page) : Page :=
  match s with
  | Pending => pg
  | Fulfilled v => catch_log (then_body (w_chart w) (w_data w) (w_layout w) v pg) pg
  | Rejected e => with_console (console pg ++ [e]) pg
  end.

(** Settling promise [p]: nothing happens unless it is pending; otherwise
    its waiters react in the order they registered. *)
Definition settle_and_react (p : nat) (s : Settled) (pg : Page) : Page :=
  match promise_state pg p with
  | Pending =>
      let mine := filter (fun w => Nat.eqb (w_promise w) p) (waiting pg) in
      let rest := filter (fun w => negb (Nat.eqb (w_promise w) p)) (waiting pg) in
      fold_left (fun pg' w => react s w pg') mine
                (with_waiting rest (settle p s pg))
  | _ => pg
  end.

(** The effect of chart [c] once [def()] has returned [d]:
    [const { data, layout } = d; loadPlotly().then(...).catch(...)]. *)
Definition effect_body (c : nat) (d : jsval) (pg : Page) : Page :=
  let data := JS.get "data" d in
  let layout := JS.get "layout" d in
  let '(p, pg1) := loadPlotly pg in
  let w := {| w_promise := p; w_chart := c; w_data := data; w_layout := layout |} in
  match promise_state pg1 p with
  | Pending => with_waiting (waiting pg1 ++ [w]) pg1
  | s => react s w pg1
  end.

(** The effect's cleanup:
    [if (divRef.current && window.Plotly) window.Plotly.purge(divRef.current)]. *)
Definition cleanup (c : nat) (pg : Page) : Completion Page :=
  match divRef_current pg c, window_Plotly pg with
  | Some div, Some _ => method_call (window_Plotly pg) (fun eng => Purge eng div) pg
  | _, _ => Normal pg
  end.

(** An error that escapes the component is recorded on the page. *)
Definition escape (r : Completion Page) (pg : Page) : Page :=
  match r with
  | Normal pg' => pg'
  | Throw e => with_uncaught (uncaught pg ++ [e]) pg
  end.

(** The effect of chart [c]: [const { data, layout } = def(); ...].  An
    exception of [def()] is thrown out of the effect. *)
Definition effect (c : nat) (chartName : string) (pg : Page) : Completion Page :=
  match call_def (CHARTS_get chartName) with
  | Throw e => Throw e
  | Normal d => Normal (effect_body c d pg)
  end.

Definition new_chart (chartName : string) (ref : option Container) (pg : Page) : Page :=
  with_charts (charts pg ++ [{| chartName := chartName; divRef := ref;
                                ready := false |}]) pg.

(** Mounting [<PlotlyChart chartName=... />] over DOM node [div]: the
    first render; if it returned the chart view, React attaches the ref of
    the div and runs the effect. *)
Definition mount (chartName : string) (div : Container) (pg : Page) : Page :=
  let c := List.length (charts pg) in
  match PlotlyChart_render chartName false with
  | Throw e => escape (Throw e) (new_chart chartName None pg)
  | Normal (NotFound _) => new_chart chartName None pg
  | Normal (ChartView _ _) =>
      let pg1 := new_chart chartName (Some div) pg in
      escape (effect c chartName pg1) pg1
  end.

(** What can happen on the page. *)
Inductive Event : Type :=
| CallLoad                                 (* any caller runs [loadPlotly()] *)
| Mount (chartName : string) (div : Container)
| DetachRef (c : nat)                      (* React clears [divRef.current] *)
| Cleanup (c : nat)                        (* React runs the effect's cleanup *)
| ScriptLoad (s : nat) (defines : option Engine)
    (* script [s] ran, defining [window.Plotly] if [defines] says so,
       and its [onload] fired *)
| ScriptError (s : nat)                    (* its [onerror] fired *)
| WindowPlotly (v : option Engine).        (* other code assigns [window.Plotly] *)

Definition step (pg : Page) (ev : Event) : Page :=
  match ev with
  | CallLoad => snd (loadPlotly pg)
  | Mount name div => mount name div pg
  | DetachRef c => set_divRef c None pg
  | Cleanup c => escape (cleanup c pg) pg
  | ScriptLoad s defines =>
      match nth_error (document_head pg) s with
      | None => pg
      | Some sc =>
          match promise_state pg (settles sc) with
          | Pending =>
              let pg1 := match defines with
                         | Some eng => with_window_Plotly (Some eng) pg
                         | None => pg
                         end in
              settle_and_react (settles sc) (Fulfilled (window_Plotly pg1)) pg1
          | _ => pg
          end
      end
  | ScriptError s =>
      match nth_error (document_head pg) s with
      | None => pg
      | Some sc => settle_and_react (settles sc) (Rejected LoadError) pg
      end
  | WindowPlotly v => with_window_Plotly v pg
  end.

Definition run (pg : Page) (evs : list Event) : Page := fold_left step evs pg.

(** The engine-load state, read off [_plotlyPromise]. *)
Inductive Phase : Type := Unloaded | Loading | Ready | Failed.

Definition phase (pg : Page) : Phase :=
  match _plotlyPromise pg with
  | None => Unloaded
  | Some p =>
      match promise_state pg p with
      | Pending => Loading
      | Fulfilled _ => Ready
      | Rejected _ => Failed
      end
  end.

Definition rank (ph : Phase) : nat :=
  match ph with
  | Unloaded => 0
  | Loading => 1
  | Ready => 2
  | Failed => 2
  end.

End Adapter.

(* ================================================================== *)
(** ** Predicates on descriptors *)

Module Descriptor.

Open Scope string_scope.

Definition traces (d : jsval) : list jsval :=
  match JS.get "data" d with
  | JArr l => l
  | _ => []
  end.

Definition layout (d : jsval) : jsval := JS.get "layout" d.

Definition is_surface_or_contour (t : jsval) : bool :=
  match JS.get "type" t with
  | JStr s => String.eqb s "surface" || String.eqb s "contour"
  | _ => false
  end.

(** The number of elements of an array. *)
Definition array_length (v : jsval) : option nat :=
  match v with
  | JArr l => Some (List.length l)
  | _ => None
  end.

Definition has_length (n : nat) (v : jsval) : bool :=
  match array_length v with
  | Some k => Nat.eqb k n
  | None => false
  end.

(** The rectangular-grid invariant as the specification words it: [z] has
    as many rows as [y] has elements, and every row has as many elements
    as [x]. *)
Definition rect_grid (t : jsval) : bool :=
  match array_length (JS.get "x" t), array_length (JS.get "y" t), JS.get "z" t with
  | Some nx, Some ny, JArr rows =>
      Nat.eqb (List.length rows) ny && forallb (has_length nx) rows
  | _, _, _ => false
  end.

Definition grid_invariant (d : jsval) : bool :=
  forallb (fun t => implb (is_surface_or_contour t) (rect_grid t)) (traces d).

Definition is_num (v : jsval) : bool :=
  match v with JNum _ => true | _ => false end.

(** An array of numbers. *)
Definition is_vector (v : jsval) : bool :=
  match v with
  | JArr l => forallb is_num l
  | _ => false
  end.

(** The widths of the rows of an array of arrays of numbers. *)
Definition shape (v : jsval) : option (list nat) :=
  match v with
  | JArr rows =>
      if forallb is_vector rows
      then Some (map (fun r => match r with JArr l => List.length l | _ => 0 end) rows)
      else None
  | _ => None
  end.

Definition eq_shape (a b : option (list nat)) : bool :=
  match a, b with
  | Some u, Some v => if list_eq_dec Nat.eq_dec u v then true else false
  | _, _ => false
  end.

(** A surface over coordinate vectors: [x] and [y] are arrays of numbers
    and [z] is a grid of [length y] rows of [length x] numbers. *)
Definition vector_grid (t : jsval) : bool :=
  is_vector (JS.get "x" t) && is_vector (JS.get "y" t)
  && match shape (JS.get "z" t) with Some _ => rect_grid t | None => false end.

(** A parametric surface: [x], [y] and [z] are grids of numbers of one and
    the same shape, all rows equally wide. *)
Definition parametric_grid (t : jsval) : bool :=
  let sz := shape (JS.get "z" t) in
  eq_shape (shape (JS.get "x" t)) sz && eq_shape (shape (JS.get "y" t)) sz
  && match sz with
     | Some (w :: ws) => forallb (Nat.eqb w) ws
     | _ => false
     end.

Definition grid_invariant_by_kind (d : jsval) : bool :=
  forallb (fun t => implb (is_surface_or_contour t)
                          (xorb (vector_grid t) (parametric_grid t)))
          (traces d).

Definition has_parametric (d : jsval) : bool :=
  existsb (fun t => is_surface_or_contour t && parametric_grid t) (traces d).


End Descriptor.

(* ================================================================== *)
(** ** Invariants of the page *)

Module PageInv.

Import PageOps.

(** What a reaction to a settled promise leaves alone: everything but
    the console, the engine calls and the charts. *)
Definition same_core (pg pg' : Page) : Prop :=
  _plotlyPromise pg' = _plotlyPromise pg
  /\ window_Plotly pg' = window_Plotly pg
  /\ promises pg' = promises pg
  /\ document_head pg' = document_head pg
  /\ waiting pg' = waiting pg
  /\ uncaught pg' = uncaught pg.

(** The script element [loadPlotly] creates for promise [p]. *)
Definition the_script (p : nat) : Script :=
  {| src := "https://cdn.plot.ly/plotly-2.26.0.min.js";
     charset := "utf-8"; settles := p |}.

(** The invariant of the loader: while [_plotlyPromise] is [null] no
    script has been appended and nobody waits; once it is set it names an
    existing promise, the head holds exactly the one script that settles
    it, every waiter waits for it, and nobody waits once it is settled. *)
Definition loader_inv (pg : Page) : Prop :=
  match _plotlyPromise pg with
  | None => document_head pg = [] /\ waiting pg = []
  | Some p =>
      p < List.length (promises pg)
      /\ document_head pg = [the_script p]
      /\ Forall (fun w => w_promise w = p) (waiting pg)
      /\ (promise_state pg p <> Pending -> waiting pg = [])
  end.

Definition ready_flags (pg : Page) : list bool := map ready (charts pg).

Definition is_NewPlot (c : EngineCall) : bool :=
  match c with
  | NewPlot _ _ _ _ _ => true
  | Purge _ _ => false
  end.

Definition plots (pg : Page) : list EngineCall := filter is_NewPlot (calls pg).

(** Promises are settled once: a settled promise keeps its state. *)
Definition keeps_settled (pg pg' : Page) : Prop :=
  forall q s, promise_state pg q = s -> s <> Pending -> promise_state pg' q = s.

(** Once [_plotlyPromise] is set, nothing resets it and nothing appends a
    second script. *)
Definition same_loader (pg pg' : Page) : Prop :=
  _plotlyPromise pg' = _plotlyPromise pg /\ document_head pg' = document_head pg.

(** The reaction the effect of chart [c] registers on the pending promise
    [p] when [def()] returned [d]. *)
Definition waiter_of (p c : nat) (d : jsval) : Waiting :=
  {| w_promise := p; w_chart := c;
     w_data := JS.get "data" d; w_layout := JS.get "layout" d |}.

(** The two events of the script element. *)
Definition is_script_event (ev : Event) : bool :=
  match ev with
  | ScriptLoad _ _ | ScriptError _ => true
  | _ => false
  end.

(** The engine is not there yet: the load is pending, or it has not
    started and [window.Plotly] is undefined, so that the next
    [loadPlotly()] starts it. *)
Definition engine_awaited (pg : Page) : Prop :=
  phase pg = Loading \/ (phase pg = Unloaded /\ window_Plotly pg = None).

End PageInv.

(* ================================================================== *)
(** ** A host to run the model on *)

(** The floats at most [k] units in the last place away from [c]. *)
Fixpoint ulps_above (k : nat) (c : float) : list float :=
  match k with
  | O => []
  | S k' => let u := PrimFloat.next_up c in u :: ulps_above k' u
  end.

Fixpoint ulps_below (k : nat) (c : float) : list float :=
  match k with
  | O => []
  | S k' => let u := PrimFloat.next_down c in u :: ulps_below k' u
  end.

Definition ulp_ball (k : nat) (c : float) : list float :=
  rev (ulps_below k c) ++ c :: ulps_above k c.

Module AtTheMoney.

Open Scope float_scope.

(** The clamped time to maturity, and what the at-the-money evaluation
    ([s = K = 100], [t <= 1e-6]) computes from it with IEEE arithmetic
    alone. *)
Definition tt : float := 1e-6.
Definition sqrt_tt : float := PrimFloat.sqrt tt.
Definition d1 : float :=
  (0 + (0.05 + 0.5 * 0.20 * 0.20) * tt) / (0.20 * sqrt_tt).
Definition d2 : float := d1 - 0.20 * sqrt_tt.

(** The three arguments [Math.exp] is called with, and [e^x] at each of
    them rounded to the nearest binary64 value. *)
Definition arg1 : float := - d1 * d1 / 2.
Definition arg2 : float := - d2 * d2 / 2.
Definition arg3 : float := - 0.05 * tt.
Definition exp1 : float := 0x1.fffffdf1ddd47p-1.
Definition exp2 : float := 0x1.ffffff9f5cfd1p-1.
Definition exp3 : float := 0x1.fffffe5280d71p-1.

(** What the at-the-money statements ask of the host: [Math.log(1)] is
    [+0] (ECMAScript requires it), [Math.sqrt] is the IEEE square root at
    [1e-6] (as in every engine), and [Math.exp] is within 2 units in the
    last place of the exact exponential at the three arguments. *)
Record conforms (M : HostMath) : Prop := {
  log_one : Math_log 1 = 0;
  sqrt_ieee : Math_sqrt tt = sqrt_tt;
  exp_arg1 : In (Math_exp arg1) (ulp_ball 2 exp1);
  exp_arg2 : In (Math_exp arg2) (ulp_ball 2 exp2);
  exp_arg3 : In (Math_exp arg3) (ulp_ball 2 exp3)
}.

End AtTheMoney.

(** A host for running the model on concrete inputs: the IEEE square root,
    [Math.log] and [Math.exp] tabulated at the arguments of the
    at-the-money evaluation, and placeholders elsewhere.  It only serves to
    instantiate statements that are proved for every host. *)
Module SampleHost.

Open Scope float_scope.

Definition exp (x : float) : float :=
  if x =? AtTheMoney.arg1 then AtTheMoney.exp1
  else if x =? AtTheMoney.arg2 then AtTheMoney.exp2
  else if x =? AtTheMoney.arg3 then AtTheMoney.exp3
  else 1.

Definition log (x : float) : float := if x =? 1 then 0 else nan.

Definition host : HostMath :=
  {| Math_sin := fun _ => 0; Math_cos := fun _ => 1;
     Math_exp := exp; Math_log := log; Math_sqrt := PrimFloat.sqrt;
     Math_atan2 := fun _ _ => 0 |}.

End SampleHost.

(** The call sites of [linspace] in the registry, as [(start, end, n)]. *)
Definition linspace_calls : list (float * float * nat) :=
  [ (0, Num.Math_PI, 300%nat); (0, Num.Math_PI, 80%nat);
    (0, 2 * Num.Math_PI, 80%nat); (0, 4 * Num.Math_PI, 500%nat);
    (-3, 3, 80%nat); (-2, 2, 60%nat); (-2, 2, 50%nat); (-3, 3, 120%nat);
    (-2.5, 2.5, 10%nat); (0, 2, 50%nat); (0, 3, 30%nat);
    (60, 150, 60%nat); (0.02, 2.0, 60%nat) ]%float.

(** [linspace(start, end, n)] starts at [start] and ends at [end], both
    compared as [===] compares numbers. *)
Definition hits_endpoints (c : float * float * nat) : bool :=
  let '(start, end_, n) := c in
  let l := linspace start end_ n in
  (JS.at_num l 0 =? start)%float && (JS.at_num l (n - 1) =? end_)%float.

(* ================================================================== *)
(** ** Exact values of binary64 numbers *)

Module Dyadic.

Local Open Scope Z_scope.

(** The weight of the exponent [e], in units of [2^-2148]: every exact
    product, sum and quotient of two numbers is an integer number of such
    units. *)
Definition w (e : Z) : Z := 2 ^ (e + 2148).

(** The value of a number in units of [2^-1074], the smallest positive
    number of the format: an integer. *)
Definition ulps (x : spec_float) : Z :=
  match x with
  | S754_finite s m e => cond_Zopp s (Z.pos m * 2 ^ (e + 1074))
  | _ => 0
  end.

Definition fin (x : spec_float) : bool :=
  match x with
  | S754_zero _ | S754_finite _ _ _ => true
  | _ => false
  end.

(** The same on the numbers themselves, and being between two numbers. *)
Definition value (x : float) : Z := ulps (Prim2SF x).
Definition finite (x : float) : bool := fin (Prim2SF x).

Definition inb (lo hi x : float) : Prop :=
  (lo <=? x)%float = true /\ (x <=? hi)%float = true.

(** The side conditions of an interval product, as a computation. *)
Definition mul_ok (tl th ul uh L H : float) : bool :=
  finite tl && finite th && finite ul && finite uh && finite L && finite H
  && (0 <=? value tl)
  && (value L * 2 ^ 1074 <=? value tl * value ul)
  && (value L * 2 ^ 1074 <=? value th * value ul)
  && (value tl * value uh <=? value H * 2 ^ 1074)
  && (value th * value uh <=? value H * 2 ^ 1074).

(** The side conditions of an interval sum. *)
Definition add_ok (cl ch ul uh L H : float) : bool :=
  finite cl && finite ch && finite ul && finite uh && finite L && finite H
  && (value L <=? value cl + value ul)
  && (value ch + value uh <=? value H).

End Dyadic.

(* ================================================================== *)
(** ** What a page shows of a load *)

(** The calls, the log and the flags that a reaction of the waiters
    leaves on the page, and the link between a chart that is ready and
    the call that drew it. *)
Module Observed.

Import PageOps.

(** What the [.then] callback of waiter [w] asks of the engine [eng] on
    page [pg]: one [newPlot] when the container is attached and the layout
    can be read, nothing otherwise. *)
Definition drawing (eng : Engine) (pg : Page) (w : Waiting) : list EngineCall :=
  match divRef_current pg (w_chart w) with
  | None => []
  | Some div =>
      match w_layout w with
      | JUndefined | JNull => []
      | layout => [NewPlot eng div (w_data w) (fullLayout layout) plot_config]
      end
  end.

(** What that callback throws, and [.catch] logs, when the promise was
    fulfilled with [v]. *)
Definition complaint (v : option Engine) (pg : Page) (w : Waiting) : list JsError :=
  match divRef_current pg (w_chart w) with
  | None => []
  | Some _ =>
      match w_layout w with
      | JUndefined | JNull =>
          [TypeError "Cannot read properties of undefined (reading 'height')"]
      | _ =>
          match v with
          | None => [TypeError "Cannot read properties of undefined"]
          | Some _ => []
          end
      end
  end.

(** The charts whose [.then] callback gets to [setReady(true)]. *)
Definition readied (pg : Page) (w : Waiting) : bool :=
  match divRef_current pg (w_chart w) with
  | None => false
  | Some _ =>
      match w_layout w with
      | JUndefined | JNull => false
      | _ => true
      end
  end.

(** No [Mount] of the events names a member of [Object.prototype]. *)
Definition own_names (evs : list Event) : Prop :=
  forall name div, In (Mount name div) evs -> ~ In name Object_prototype_keys.

(** What a page fulfilled with [v] asks of the engine for waiter [w]. *)
Definition asks (v : option Engine) (pg : Page) (w : Waiting) : list EngineCall :=
  match v with
  | Some eng => drawing eng pg w
  | None => []
  end.

(** The charts after the waiters [ws] reacted to a promise fulfilled with
    an engine: those that drew are ready. *)
Definition mark_ready (pg : Page) (ws : list Waiting) (cs : list Chart) : list Chart :=
  fold_left (fun cs w =>
               if readied pg w
               then update (w_chart w)
                      (fun ch => {| chartName := chartName ch; divRef := divRef ch;
                                    ready := true |}) cs
               else cs) ws cs.

(** The [newPlot] calls that draw the chart named [name]: the data and
    the layout are those its factory returns. *)
Definition drawn {M : HostMath} (name : string) (pg : Page) : Prop :=
  exists eng div d,
    call_def (CHARTS_get name) = Normal d
    /\ In (NewPlot eng div (JS.get "data" d) (fullLayout (JS.get "layout" d))
                   plot_config) (calls pg).

(** A waiter waits for the chart it was registered by, with the data and
    the layout of that chart's factory. *)
Definition waits_for_its_chart {M : HostMath} (pg : Page) (w : Waiting) : Prop :=
  exists ch d,
    nth_error (charts pg) (w_chart w) = Some ch
    /\ call_def (CHARTS_get (chartName ch)) = Normal d
    /\ w_data w = JS.get "data" d /\ w_layout w = JS.get "layout" d.

Definition drawn_inv {M : HostMath} (pg : Page) : Prop :=
  (forall c ch, nth_error (charts pg) c = Some ch -> ready ch = true ->
     drawn (chartName ch) pg)
  /\ Forall (waits_for_its_chart pg) (waiting pg).

(** Pages that agree on the names of the charts, where [pg'] has the
    calls of [pg] and more, and every chart ready on [pg'] was ready on
    [pg] or is drawn on [pg']. *)
Definition grows {M : HostMath} (pg pg' : Page) : Prop :=
  map chartName (charts pg') = map chartName (charts pg)
  /\ (forall c, In c (calls pg) -> In c (calls pg'))
  /\ (forall c ch', nth_error (charts pg') c = Some ch' -> ready ch' = true ->
        (exists ch, nth_error (charts pg) c = Some ch /\ ready ch = true)
        \/ drawn (chartName ch') pg').

End Observed.

(* ================================================================== *)
(** ** The shape of a descriptor *)

Module Shape.

Local Open Scope string_scope.

(** The trace types the registry uses. *)
Definition trace_types : list string :=
  ["mesh3d"; "scatter3d"; "surface"; "cone"; "contour"; "scatter"].

(** An object with one of those types. *)
Definition is_trace (t : jsval) : bool :=
  match t with
  | JObj ps =>
      match JS.assoc "type" ps with
      | Some (JStr ty) => existsb (String.eqb ty) trace_types
      | _ => false
      end
  | _ => false
  end.

(** What the component takes apart: an object with a non-empty array of
    traces under [data] and an object with a string [title] under
    [layout]. *)
Definition well_formed (d : jsval) : bool :=
  match JS.get "data" d, JS.get "layout" d with
  | JArr (t :: ts), JObj ps =>
      forallb is_trace (t :: ts)
      && match JS.assoc "title" ps with
         | Some (JStr _) => true
         | _ => false
         end
  | _, _ => false
  end.

(** The arrays a trace of points must carry, by its type: the
    coordinates of its points and, for a cone, the components of its
    arrows. *)
Definition point_types : list string := ["mesh3d"; "scatter3d"; "cone"; "scatter"].

Definition coordinate_keys (ty : string) : list string :=
  if String.eqb ty "cone" then ["x"; "y"; "z"; "u"; "v"; "w"]
  else if String.eqb ty "scatter" then ["x"; "y"]
  else ["x"; "y"; "z"].

Definition trace_type (t : jsval) : string :=
  match JS.get "type" t with
  | JStr ty => ty
  | _ => ""
  end.

(** The lengths of the arrays under the keys [ks], if every one of them
    is there and is an array. *)
Fixpoint lengths_of (ks : list string) (t : jsval) : option (list nat) :=
  match ks with
  | [] => Some []
  | k :: rest =>
      match Descriptor.array_length (JS.get k t), lengths_of rest t with
      | Some n, Some l => Some (n :: l)
      | _, _ => None
      end
  end.

Definition all_equal (l : list nat) : bool :=
  match l with
  | [] => true
  | n :: rest => forallb (Nat.eqb n) rest
  end.

(** A trace of points: it has one of the four point types, every
    coordinate array of its type is there, and they are equally long; a
    mesh has its three vertex index arrays [i], [j], [k], equally long;
    and [marker.angle], where there is one, is an array with an angle per
    point. *)
Definition aligned (t : jsval) : bool :=
  let ty := trace_type t in
  existsb (String.eqb ty) point_types
  && match lengths_of (coordinate_keys ty) t with
     | Some (n :: rest) =>
         forallb (Nat.eqb n) rest
         && (if String.eqb ty "mesh3d"
             then match lengths_of ["i"; "j"; "k"] t with
                  | Some l => all_equal l
                  | None => false
                  end
             else true)
         && match JS.get "angle" (JS.get "marker" t) with
            | JUndefined => true
            | a => match Descriptor.array_length a with
                   | Some k => Nat.eqb k n
                   | None => false
                   end
            end
     | _ => false
     end.

(** Every trace that is not a surface or a contour is aligned. *)
Definition points_aligned (d : jsval) : bool :=
  forallb (fun t => Descriptor.is_surface_or_contour t || aligned t)
          (Descriptor.traces d).

End Shape.

(* ================================================================== *)
(** ** The triangles of a mesh *)

Module Mesh.

Local Open Scope string_scope.

(** The numbers of an array of numbers. *)
Definition nums_of (v : jsval) : list float :=
  match v with
  | JArr l => flat_map (fun e => match e with JNum x => [x] | _ => [] end) l
  | _ => []
  end.

(** The vertex a number of an index array points to, among [bound]
    vertices. *)
Definition index_of (bound : nat) (x : float) : option nat :=
  find (fun k => PrimFloat.eqb (Num.of_nat k) x) (seq 0 bound).

(** The triangles of a [mesh3d] trace: the triples of its [i], [j] and [k]
    arrays that point to three of its vertices. *)
Definition triangles (t : jsval) : list (nat * nat * nat) :=
  let n := List.length (nums_of (JS.get "x" t)) in
  flat_map (fun '(a, b, c) =>
              match index_of n a, index_of n b, index_of n c with
              | Some a', Some b', Some c' => [(a', b', c')]
              | _, _, _ => []
              end)
           (combine (combine (nums_of (JS.get "i" t)) (nums_of (JS.get "j" t)))
                    (nums_of (JS.get "k" t))).

(** Three vertices with the same coordinate along the axis [k]. *)
Definition same_along (k : string) (t : jsval) (tri : nat * nat * nat) : Prop :=
  let '(a, b, c) := tri in
  let l := nums_of (JS.get k t) in
  JS.at_num l a = JS.at_num l b /\ JS.at_num l b = JS.at_num l c.

(** A triangle in a plane [x = c], [y = c] or [z = c]. *)
Definition on_face (t : jsval) (tri : nat * nat * nat) : Prop :=
  same_along "x" t tri \/ same_along "y" t tri \/ same_along "z" t tri.

Definition proper (n : nat) (tri : nat * nat * nat) : bool :=
  let '(a, b, c) := tri in
  (a <? n)%nat && (b <? n)%nat && (c <? n)%nat
  && negb (a =? b)%nat && negb (b =? c)%nat && negb (a =? c)%nat.

(** The three sides of a triangle, each with its smaller end first. *)
Definition edges (tri : nat * nat * nat) : list (nat * nat) :=
  let '(a, b, c) := tri in
  [(Nat.min a b, Nat.max a b); (Nat.min b c, Nat.max b c); (Nat.min a c, Nat.max a c)].

Definition same_edge (e f : nat * nat) : bool :=
  (fst e =? fst f)%nat && (snd e =? snd f)%nat.

(** Every side belongs to exactly two triangles: the surface is closed. *)
Definition watertight (t : jsval) : bool :=
  let es := flat_map edges (triangles t) in
  forallb (fun e => (List.length (filter (same_edge e) es) =? 2)%nat) es.

End Mesh.

(* ================================================================== *)
(** * Properties *)

(** ** Lists, arrays and the numeric helpers *)

Lemma Array_from_length {A : Type} (n : nat) (f : nat -> A) :
  List.length (JS.Array_from n f) = n.
Proof.
  unfold JS.Array_from. now rewrite length_map, length_seq.
Qed.

Lemma Array_from_nth {A : Type} (n i : nat) (f : nat -> A) (d : A) :
  i < n -> nth i (JS.Array_from n f) d = f i.
Proof.
  intros Hi. unfold JS.Array_from.
  rewrite (nth_indep _ d (f 0)) by (now rewrite length_map, length_seq).
  rewrite (map_nth f (seq 0 n) 0 i), seq_nth by assumption.
  reflexivity.
Qed.

Lemma Array_fill_length {A : Type} (n : nat) (v : A) :
  List.length (JS.Array_fill n v) = n.
Proof. apply repeat_length. Qed.

Lemma linspace_length (start end_ : float) (n : nat) :
  List.length (linspace start end_ n) = n.
Proof. apply Array_from_length. Qed.

Lemma linspace_nth (start end_ : float) (n i : nat) :
  i < n ->
  JS.at_num (linspace start end_ n) i
  = (start + (end_ - start) * Num.of_nat i / (Num.of_nat n - 1))%float.
Proof.
  intros Hi. unfold JS.at_num, linspace.
  rewrite Array_from_nth by assumption. reflexivity.
Qed.

(** [meshgrid] returns two grids of [length yArr] rows of [length xArr]
    numbers each. *)
Lemma meshgrid_shape (xArr yArr : list float) :
  let '(X, Y) := meshgrid xArr yArr in
  List.length X = List.length yArr /\ List.length Y = List.length yArr
  /\ Forall (fun row => List.length row = List.length xArr) X
  /\ Forall (fun row => List.length row = List.length xArr) Y.
Proof.
  unfold meshgrid. rewrite !length_map. repeat split.
  - apply Forall_forall. intros row Hrow. apply in_map_iff in Hrow.
    now destruct Hrow as (y & <- & _).
  - apply Forall_forall. intros row Hrow. apply in_map_iff in Hrow.
    destruct Hrow as (y & <- & _). apply Array_fill_length.
Qed.

(** ** The registry *)

Lemma chart_ids_are_the_keys {M : HostMath} : map fst CHARTS = chart_ids.
Proof. reflexivity. Qed.

(** A case analysis over the 13 identifiers. *)
Ltac each_chart H :=
  unfold chart_ids in H; simpl In in H;
  repeat (destruct H as [H | H]; [subst | ]); [ .. | contradiction H ].

(** Every identifier is an own property of [CHARTS]. *)
Lemma CHARTS_own {M : HostMath} (id : string) :
  In id chart_ids -> exists def, JS.assoc id CHARTS = Some def.
Proof.
  intros H. each_chart H; eexists; reflexivity.
Qed.

(** C1, as stated, fails: the cylinder of [coordinate-systems] is a
    [surface] whose [z] rows hold 80 numbers while its [x] holds 30
    elements (the 30 rows of a grid). *)
Lemma grid_invariant_fails_on_cylinder :
  ~ (forall (M : HostMath) (id : string),
       In id chart_ids ->
       exists def, JS.assoc id CHARTS = Some def
                   /\ Descriptor.grid_invariant (def tt) = true).
Proof.
  intros H.
  destruct (H SampleHost.host "coordinate-systems"%string) as (def & Hdef & Hinv).
  - unfold chart_ids. simpl. tauto.
  - cbn in Hdef. injection Hdef as <-.
    vm_compute in Hinv. discriminate Hinv.
Qed.

(** C1, amended: for every one of the 13 identifiers, every trace of type
    surface or contour of the descriptor is of exactly one of two kinds.
    Either [x] and [y] are vectors of numbers and [z] is a grid with as
    many rows as [y] has elements, each as wide as [x]; or the surface is
    parametric and [x], [y] and [z] are three grids of one and the same
    rectangular shape.  The parametric ones are the surfaces of
    [surface-revolution] and of [coordinate-systems]; only on the latter's
    cylinder (30 rows of 80) does the invariant as worded fail. *)
Theorem grid_invariant_by_kind_holds (M : HostMath) (id : string) :
  In id chart_ids ->
  exists def,
    JS.assoc id CHARTS = Some def
    /\ Descriptor.grid_invariant_by_kind (def tt) = true
    /\ Descriptor.has_parametric (def tt)
       = (String.eqb id "surface-revolution" || String.eqb id "coordinate-systems")
    /\ Descriptor.grid_invariant (def tt) = negb (String.eqb id "coordinate-systems").
Proof.
  intros H.
  each_chart H; eexists; (split; [reflexivity|]); vm_compute; auto.
Qed.

Lemma grid_invariant_by_kind_witness :
  In "black-scholes"%string chart_ids
  /\ exists def,
       JS.assoc "black-scholes" (@CHARTS SampleHost.host) = Some def
       /\ Descriptor.grid_invariant_by_kind (def tt) = true.
Proof.
  assert (Hin : In "black-scholes"%string chart_ids)
    by (unfold chart_ids; simpl; tauto).
  split; [exact Hin|].
  destruct (grid_invariant_by_kind_holds SampleHost.host _ Hin)
    as (def & Hdef & Hkind & _).
  exists def. split; assumption.
Defined.

(** ** Deep equality *)










(** ** Looking a chart up *)

Lemma assoc_not_key {A : Type} (k : string) (ps : list (string * A)) :
  ~ In k (map fst ps) -> JS.assoc k ps = None.
Proof.
  induction ps as [|[k' v] ps IH]; simpl; [reflexivity|].
  intros Hk. destruct (String.eqb_spec k k') as [->|Hne].
  - exfalso. apply Hk. now left.
  - apply IH. intros Hin. apply Hk. now right.
Qed.

Lemma existsb_eqb_not_in (k : string) (l : list string) :
  ~ In k l -> existsb (String.eqb k) l = false.
Proof.
  induction l as [|a l IH]; simpl; [reflexivity|].
  intros Hk. destruct (String.eqb_spec k a) as [->|Hne].
  - exfalso. apply Hk. now left.
  - apply IH. intros Hin. apply Hk. now right.
Qed.

(** For each of the 13 keys the lookup returns its producer, the render is
    the chart view and nothing is thrown. *)
Lemma lookup_registered {M : HostMath} (id : string) :
  In id chart_ids ->
  exists def,
    CHARTS_get id = Own def
    /\ PlotlyChart_render id false = Normal (ChartView true (JNum 0%float))
    /\ exists d, call_def (CHARTS_get id) = Normal d.
Proof.
  intros H. each_chart H; eexists; repeat split; eexists; reflexivity.
Qed.

(** A name that is neither a key of the registry nor a member of
    [Object.prototype] is reported as not found: the render returns the
    inline error, mounting runs no producer, loads nothing, calls nothing
    and lets no error escape. *)
Lemma lookup_unknown {M : HostMath} (name : string) (div : Container) (pg : Page) :
  ~ In name chart_ids ->
  ~ In name Object_prototype_keys ->
  CHARTS_get name = Missing
  /\ (forall ready, PlotlyChart_render name ready = Normal (NotFound name))
  /\ mount name div pg
     = PageOps.with_charts (charts pg ++ [{| chartName := name; divRef := None;
                                            ready := false |}]) pg.
Proof.
  intros Hid Hproto.
  assert (Hget : CHARTS_get name = Missing).
  { unfold CHARTS_get. rewrite assoc_not_key by (now rewrite chart_ids_are_the_keys).
    now rewrite existsb_eqb_not_in. }
  split; [exact Hget|]. split.
  - intros ready. unfold PlotlyChart_render. now rewrite Hget.
  - unfold mount, PlotlyChart_render. now rewrite Hget.
Qed.

(** C3 fails on the code for the names an object literal inherits.
    ["toString"] is not one of the 13 keys, yet [CHARTS["toString"]] is the
    inherited function: the render shows the loading placeholder instead of
    the not-found error, the effect calls the function, starts the engine
    load and registers a callback that can only fail.  ["__proto__"] reads
    as the prototype object, and calling it throws out of the effect. *)
Theorem inherited_name_is_not_reported (M : HostMath) :
  (~ In "toString"%string chart_ids
   /\ PlotlyChart_render "toString" false = Normal (ChartView true (JNum 0%float))
   /\ call_def (CHARTS_get "toString") = Normal (JStr "[object Undefined]")
   /\ let pg := mount "toString" 0 (fresh_page None) in
      List.length (document_head pg) = 1
      /\ waiting pg = [{| w_promise := 0; w_chart := 0;
                          w_data := JUndefined; w_layout := JUndefined |}]
      /\ console (step pg (ScriptLoad 0 (Some 1)))
         = [TypeError "Cannot read properties of undefined (reading 'height')"])
  /\ (~ In "__proto__"%string chart_ids
      /\ PlotlyChart_render "__proto__" false = Normal (ChartView true (JNum 0%float))
      /\ uncaught (mount "__proto__" 0 (fresh_page None))
         = [TypeError "def is not a function"]).
Proof.
  split; (split; [unfold chart_ids; simpl; intuition discriminate|]);
    repeat split; reflexivity.
Qed.

Import PageOps PageInv.

(** ** The loader and the component: frame properties *)

Lemma same_core_refl pg : same_core pg pg.
Proof. repeat split. Qed.

Lemma same_core_trans a b c : same_core a b -> same_core b c -> same_core a c.
Proof.
  unfold same_core. intros (?&?&?&?&?&?) (?&?&?&?&?&?).
  repeat split; congruence.
Qed.

Lemma then_body_core c data layout v pg pg' :
  then_body c data layout v pg = Normal pg' -> same_core pg pg'.
Proof.
  unfold then_body, method_call.
  destruct (divRef_current pg c) as [div|].
  - destruct layout; try discriminate;
      (destruct v as [eng|]; [|discriminate]);
      intros H; injection H as <-; repeat split.
  - intros H; injection H as <-. apply same_core_refl.
Qed.

Lemma react_core s w pg : same_core pg (react s w pg).
Proof.
  destruct s as [|v|e]; simpl.
  - apply same_core_refl.
  - unfold catch_log.
    destruct (then_body (w_chart w) (w_data w) (w_layout w) v pg) as [pg'|err] eqn:E.
    + eapply then_body_core; eassumption.
    + repeat split.
  - repeat split.
Qed.

Lemma fold_react_core s ws : forall pg,
  same_core pg (fold_left (fun pg' w => react s w pg') ws pg).
Proof.
  induction ws as [|w ws IH]; intros pg; simpl; [apply same_core_refl|].
  eapply same_core_trans; [apply react_core | apply IH].
Qed.

(** The state of promise [p] once it is settled. *)
Lemma update_length {A} i (f : A -> A) l : List.length (update i f l) = List.length l.
Proof.
  revert i; induction l as [|x l IH]; intros [|i]; simpl; auto.
Qed.

Lemma update_nth_same {A} i (f : A -> A) l d :
  i < List.length l -> nth i (update i f l) d = f (nth i l d).
Proof.
  revert i; induction l as [|x l IH]; intros [|i]; simpl; intros H; try lia; auto.
  apply IH. lia.
Qed.

Lemma update_nth_other {A} i j (f : A -> A) l d :
  i <> j -> nth j (update i f l) d = nth j l d.
Proof.
  revert i j; induction l as [|x l IH]; intros [|i] [|j]; simpl; intros H; auto; try lia.
Qed.

Lemma update_nth_error_map {A B} i (f : A -> A) (g : A -> B) l :
  (forall a, g (f a) = g a) -> map g (update i f l) = map g l.
Proof.
  intros Hg. revert i; induction l as [|x l IH]; intros [|i]; simpl; auto.
  - now rewrite Hg.
  - now rewrite IH.
Qed.

Lemma settle_state p s pg q :
  promise_state (settle p s pg) q
  = if Nat.eqb p q && Nat.ltb p (List.length (promises pg))
    then match promise_state pg q with Pending => s | old => old end
    else promise_state pg q.
Proof.
  unfold promise_state, settle. simpl.
  destruct (Nat.eqb_spec p q) as [->|Hne]; simpl.
  - destruct (Nat.ltb_spec q (List.length (promises pg))).
    + rewrite update_nth_same by assumption.
      now destruct (nth q (promises pg) Pending).
    + rewrite !nth_overflow; auto. now rewrite update_length.
  - now apply update_nth_other.
Qed.

Lemma loader_inv_core pg pg' : same_core pg pg' -> loader_inv pg -> loader_inv pg'.
Proof.
  unfold same_core, loader_inv, promise_state.
  intros (-> & _ & -> & -> & -> & _). auto.
Qed.

Lemma loadPlotly_memo p pg : _plotlyPromise pg = Some p -> loadPlotly pg = (p, pg).
Proof. unfold loadPlotly. now intros ->. Qed.

Lemma loadPlotly_inv pg : loader_inv pg -> loader_inv (snd (loadPlotly pg)).
Proof.
  unfold loadPlotly, loader_inv.
  destruct (_plotlyPromise pg) as [p|] eqn:Hp; simpl; [now rewrite Hp|].
  intros (Hh & Hw).
  destruct (window_Plotly pg) as [eng|]; simpl; rewrite ?Hp; simpl.
  - auto.
  - rewrite Hh, Hw, length_app. simpl. repeat split; auto. lia.
Qed.

(** When the promise [loadPlotly] returns is pending, it is the memoized
    one. *)
Lemma loadPlotly_pending pg :
  loader_inv pg ->
  let '(p, pg1) := loadPlotly pg in
  promise_state pg1 p = Pending -> _plotlyPromise pg1 = Some p.
Proof.
  unfold loadPlotly, loader_inv.
  destruct (_plotlyPromise pg) as [p|] eqn:Hp; simpl; [now rewrite Hp|].
  intros (Hh & Hw).
  destruct (window_Plotly pg) as [eng|]; simpl; [|reflexivity].
  unfold promise_state; simpl. rewrite nth_middle. discriminate.
Qed.

Lemma effect_body_inv c d pg : loader_inv pg -> loader_inv (effect_body c d pg).
Proof.
  intros Hinv. unfold effect_body.
  pose proof (loadPlotly_inv pg Hinv) as H1.
  pose proof (loadPlotly_pending pg Hinv) as H2.
  destruct (loadPlotly pg) as [p pg1]. cbv beta iota zeta in H1, H2 |- *.
  simpl snd in H1.
  destruct (promise_state pg1 p) eqn:Hs.
  - specialize (H2 eq_refl). unfold loader_inv in *. simpl. rewrite H2 in *.
    destruct H1 as (Hlt & Hh & Hall & Hset). repeat split; auto.
    + apply Forall_app. split; auto.
    + intros Hne. exfalso. apply Hne. exact Hs.
  - eapply loader_inv_core; [apply react_core | exact H1].
  - eapply loader_inv_core; [apply react_core | exact H1].
Qed.

Lemma filter_all_false {A} (f : A -> bool) l :
  Forall (fun x => f x = false) l -> filter f l = [].
Proof.
  induction 1 as [|x l Hx _ IH]; simpl; [reflexivity|]. now rewrite Hx.
Qed.

Lemma settle_and_react_inv p s pg :
  s <> Pending -> _plotlyPromise pg = Some p ->
  loader_inv pg -> loader_inv (settle_and_react p s pg).
Proof.
  intros Hs Hp Hinv. unfold settle_and_react.
  destruct (promise_state pg p) eqn:Hst; auto.
  eapply loader_inv_core; [apply fold_react_core|].
  unfold loader_inv in *. simpl. rewrite Hp in *.
  destruct Hinv as (Hlt & Hh & Hall & Hset).
  assert (Hrest : filter (fun w => negb (Nat.eqb (w_promise w) p)) (waiting pg) = []).
  { apply filter_all_false. eapply Forall_impl; [|exact Hall].
    simpl. intros w ->. now rewrite Nat.eqb_refl. }
  rewrite Hrest, update_length. repeat split; auto.
Qed.


Lemma keeps_settled_refl pg : keeps_settled pg pg.
Proof. intros q s H _. exact H. Qed.

Lemma keeps_settled_trans a b c :
  keeps_settled a b -> keeps_settled b c -> keeps_settled a c.
Proof. intros H1 H2 q s H Hs. apply H2; auto. Qed.

Lemma keeps_settled_core pg pg' : same_core pg pg' -> keeps_settled pg pg'.
Proof.
  intros (_ & _ & Hp & _) q s H _. unfold promise_state in *. now rewrite Hp.
Qed.

Lemma settled_in_store pg q :
  promise_state pg q <> Pending -> q < List.length (promises pg).
Proof.
  intros H. destruct (Nat.ltb_spec q (List.length (promises pg))); auto.
  exfalso. apply H. unfold promise_state. now apply nth_overflow.
Qed.

Lemma keeps_settled_alloc pg pg' x :
  promises pg' = promises pg ++ [x] -> keeps_settled pg pg'.
Proof.
  intros Hp q s H Hs. subst s.
  pose proof (settled_in_store pg q Hs) as Hlt.
  unfold promise_state in *. rewrite Hp. now rewrite app_nth1.
Qed.

Lemma loadPlotly_keeps pg : keeps_settled pg (snd (loadPlotly pg)).
Proof.
  unfold loadPlotly.
  destruct (_plotlyPromise pg); simpl; [apply keeps_settled_refl|].
  destruct (window_Plotly pg); simpl;
    eapply keeps_settled_alloc; simpl; reflexivity.
Qed.

Lemma settle_keeps p s pg : keeps_settled pg (settle p s pg).
Proof.
  intros q s' H Hs. rewrite settle_state, H.
  destruct (Nat.eqb p q && Nat.ltb p (List.length (promises pg))); auto.
  destruct s'; auto. now elim Hs.
Qed.

Lemma settle_and_react_keeps p s pg : keeps_settled pg (settle_and_react p s pg).
Proof.
  unfold settle_and_react.
  destruct (promise_state pg p); try apply keeps_settled_refl.
  eapply keeps_settled_trans; [|apply keeps_settled_core, fold_react_core].
  intros q s' H Hs. now apply (settle_keeps p s pg).
Qed.

Lemma effect_body_keeps c d pg : keeps_settled pg (effect_body c d pg).
Proof.
  unfold effect_body.
  pose proof (loadPlotly_keeps pg) as H1.
  destruct (loadPlotly pg) as [p pg1]. cbv beta iota zeta. simpl snd in H1.
  destruct (promise_state pg1 p).
  - exact H1.
  - eapply keeps_settled_trans; [exact H1|apply keeps_settled_core, react_core].
  - eapply keeps_settled_trans; [exact H1|apply keeps_settled_core, react_core].
Qed.

Lemma same_loader_core pg pg' : same_core pg pg' -> same_loader pg pg'.
Proof. intros (H1 & _ & _ & H2 & _). now split. Qed.

Lemma settle_and_react_loader p s pg : same_loader pg (settle_and_react p s pg).
Proof.
  unfold settle_and_react.
  destruct (promise_state pg p); try (now split).
  destruct (fold_react_core s
              (filter (fun w => Nat.eqb (w_promise w) p) (waiting pg))
              (with_waiting (filter (fun w => negb (Nat.eqb (w_promise w) p)) (waiting pg))
                            (settle p s pg))) as (H1 & _ & _ & H2 & _).
  split; [rewrite H1|rewrite H2]; reflexivity.
Qed.

Lemma effect_body_loader c d p pg :
  _plotlyPromise pg = Some p -> same_loader pg (effect_body c d pg).
Proof.
  intros Hp. unfold effect_body. rewrite (loadPlotly_memo p pg Hp).
  cbv beta iota zeta.
  destruct (promise_state pg p).
  - now split.
  - apply same_loader_core, react_core.
  - apply same_loader_core, react_core.
Qed.

Section Reach.
  Context {M : HostMath}.

Lemma fresh_page_inv w : loader_inv (fresh_page w).
Proof. unfold loader_inv; simpl; auto. Qed.

Lemma mount_inv name div pg : loader_inv pg -> loader_inv (mount name div pg).
Proof.
  intros Hinv. unfold mount.
  assert (Hnew : forall r, loader_inv (new_chart name r pg)) by (intros r; exact Hinv).
  destruct (PlotlyChart_render name false) as [[n|ph h]|e]; simpl; auto.
  unfold effect. destruct (call_def (CHARTS_get name)) as [d|e]; simpl; auto.
  now apply effect_body_inv.
Qed.

Lemma script_of_inv pg s sc :
  loader_inv pg -> nth_error (document_head pg) s = Some sc ->
  _plotlyPromise pg = Some (settles sc).
Proof.
  unfold loader_inv. destruct (_plotlyPromise pg) as [p|].
  - intros (_ & -> & _) H. destruct s as [|[|s]]; simpl in H; try discriminate.
    now injection H as <-.
  - intros (-> & _) H. now destruct s.
Qed.

Lemma step_inv pg ev : loader_inv pg -> loader_inv (step pg ev).
Proof.
  intros Hinv. destruct ev as [ |name div|c|c|s defines|s|v]; simpl.
  - now apply loadPlotly_inv.
  - now apply mount_inv.
  - exact Hinv.
  - unfold cleanup, method_call.
    destruct (divRef_current pg c), (window_Plotly pg); simpl; exact Hinv.
  - destruct (nth_error (document_head pg) s) as [sc|] eqn:Hs; auto.
    pose proof (script_of_inv pg s sc Hinv Hs) as Hp.
    destruct (promise_state pg (settles sc)) eqn:Hst; auto.
    apply settle_and_react_inv; [discriminate| |].
    + now destruct defines.
    + now destruct defines.
  - destruct (nth_error (document_head pg) s) as [sc|] eqn:Hs; auto.
    pose proof (script_of_inv pg s sc Hinv Hs) as Hp.
    apply settle_and_react_inv; [discriminate|assumption|assumption].
  - exact Hinv.
Qed.

Lemma run_app pg evs evs' : run (run pg evs) evs' = run pg (evs ++ evs').
Proof. unfold run. now rewrite fold_left_app. Qed.

Lemma run_inv pg evs : loader_inv pg -> loader_inv (run pg evs).
Proof.
  revert pg. induction evs as [|ev evs IH]; intros pg Hinv; simpl; auto.
  apply IH. now apply step_inv.
Qed.


Ltac keeps_by_frame := let H := fresh in intros ? ? H _; exact H.

Lemma step_keeps pg ev : keeps_settled pg (step pg ev).
Proof.
  destruct ev as [ |name div|c|c|s defines|s|v]; simpl.
  - apply loadPlotly_keeps.
  - unfold mount.
    destruct (PlotlyChart_render name false) as [[n|ph h]|e]; simpl;
      try keeps_by_frame.
    unfold effect. destruct (call_def (CHARTS_get name)) as [d|e]; simpl;
      try keeps_by_frame.
    eapply keeps_settled_trans; [|apply effect_body_keeps].
    keeps_by_frame.
  - keeps_by_frame.
  - unfold cleanup, method_call.
    destruct (divRef_current pg c), (window_Plotly pg); simpl; keeps_by_frame.
  - destruct (nth_error (document_head pg) s) as [sc|]; try keeps_by_frame.
    destruct (promise_state pg (settles sc)); try keeps_by_frame.
    eapply keeps_settled_trans; [|apply settle_and_react_keeps].
    destruct defines; keeps_by_frame.
  - destruct (nth_error (document_head pg) s) as [sc|]; try keeps_by_frame.
    apply settle_and_react_keeps.
  - keeps_by_frame.
Qed.

Lemma run_keeps evs : forall pg, keeps_settled pg (run pg evs).
Proof.
  induction evs as [|ev evs IH]; intros pg; simpl; [apply keeps_settled_refl|].
  eapply keeps_settled_trans; [apply step_keeps|apply IH].
Qed.

Lemma step_loader pg ev p :
  _plotlyPromise pg = Some p -> same_loader pg (step pg ev).
Proof.
  intros Hp. destruct ev as [ |name div|c|c|s defines|s|v]; simpl;
    try (now split).
  - now rewrite (loadPlotly_memo p pg Hp).
  - unfold mount.
    destruct (PlotlyChart_render name false) as [[n|ph h]|e]; simpl;
      try (now split).
    unfold effect. destruct (call_def (CHARTS_get name)) as [d|e]; simpl;
      try (now split).
    exact (effect_body_loader _ d p (new_chart name (Some div) pg) Hp).
  - unfold cleanup, method_call.
    destruct (divRef_current pg c), (window_Plotly pg); simpl; now split.
  - destruct (nth_error (document_head pg) s) as [sc|]; try (now split).
    destruct (promise_state pg (settles sc)); try (now split).
    destruct defines as [eng|].
    + exact (settle_and_react_loader (settles sc) (Fulfilled (Some eng))
               (with_window_Plotly (Some eng) pg)).
    + apply settle_and_react_loader.
  - destruct (nth_error (document_head pg) s) as [sc|]; try (now split).
    apply settle_and_react_loader.
Qed.

Lemma run_loader evs : forall pg p,
  _plotlyPromise pg = Some p -> same_loader pg (run pg evs).
Proof.
  induction evs as [|ev evs IH]; intros pg p Hp; simpl; [now split|].
  destruct (step_loader pg ev p Hp) as (H1 & H2).
  destruct (IH (step pg ev) p) as (H3 & H4); [now rewrite H1|].
  split; congruence.
Qed.


(** *** The engine-load state *)

Lemma phase_eq pg pg' :
  _plotlyPromise pg' = _plotlyPromise pg -> promises pg' = promises pg ->
  phase pg' = phase pg.
Proof. unfold phase, promise_state. now intros -> ->. Qed.

Lemma phase_settled pg pg' p :
  _plotlyPromise pg = Some p -> promise_state pg p <> Pending ->
  same_loader pg pg' -> keeps_settled pg pg' -> phase pg' = phase pg.
Proof.
  intros Hp Hs (Hl & _) Hk. unfold phase. rewrite Hl, Hp.
  now rewrite (Hk p _ eq_refl Hs).
Qed.

Lemma phase_loaded pg pg' p :
  _plotlyPromise pg = Some p -> same_loader pg pg' -> keeps_settled pg pg' ->
  rank (phase pg) <= rank (phase pg')
  /\ (phase pg = Ready -> phase pg' = Ready)
  /\ (phase pg = Failed -> phase pg' = Failed).
Proof.
  intros Hp Hl Hk.
  destruct (promise_state pg p) eqn:Hs.
  - assert (Hph : phase pg = Loading) by (unfold phase; now rewrite Hp, Hs).
    rewrite Hph. repeat split; try discriminate.
    destruct Hl as (Hl & _). unfold phase. rewrite Hl, Hp.
    destruct (promise_state pg' p); simpl; lia.
  - assert (Heq : phase pg' = phase pg)
      by (apply (phase_settled pg pg' p); auto; rewrite Hs; discriminate).
    rewrite Heq. repeat split; auto.
  - assert (Heq : phase pg' = phase pg)
      by (apply (phase_settled pg pg' p); auto; rewrite Hs; discriminate).
    rewrite Heq. repeat split; auto.
Qed.

Lemma loadPlotly_unloaded pg :
  _plotlyPromise pg = None ->
  let pg1 := snd (loadPlotly pg) in
  match window_Plotly pg with
  | Some _ => phase pg1 = Unloaded
  | None => phase pg1 = Loading
  end.
Proof.
  intros Hp. unfold loadPlotly. rewrite Hp.
  destruct (window_Plotly pg); simpl; unfold phase, promise_state; simpl.
  - now rewrite Hp.
  - now rewrite nth_middle.
Qed.

Lemma effect_body_phase c d pg : phase (effect_body c d pg) = phase (snd (loadPlotly pg)).
Proof.
  unfold effect_body.
  destruct (loadPlotly pg) as [p pg1]. cbv beta iota zeta. simpl snd.
  destruct (promise_state pg1 p).
  - reflexivity.
  - destruct (react_core (Fulfilled v) {| w_promise := p; w_chart := c;
        w_data := JS.get "data" d; w_layout := JS.get "layout" d |} pg1)
      as (H1 & _ & H2 & _).
    now apply phase_eq.
  - destruct (react_core (Rejected e) {| w_promise := p; w_chart := c;
        w_data := JS.get "data" d; w_layout := JS.get "layout" d |} pg1)
      as (H1 & _ & H2 & _).
    now apply phase_eq.
Qed.

Lemma step_from_unloaded pg ev :
  phase pg = Unloaded ->
  phase (step pg ev) = Unloaded \/ phase (step pg ev) = Loading.
Proof.
  intros Hph.
  assert (Hp : _plotlyPromise pg = None).
  { unfold phase in Hph. destruct (_plotlyPromise pg) as [p|]; auto.
    destruct (promise_state pg p); discriminate. }
  assert (Hload : forall pg0, _plotlyPromise pg0 = None ->
            phase (snd (loadPlotly pg0)) = Unloaded
            \/ phase (snd (loadPlotly pg0)) = Loading).
  { intros pg0 H0. pose proof (loadPlotly_unloaded pg0 H0) as H.
    destruct (window_Plotly pg0); auto. }
  destruct ev as [ |name div|c|c|s defines|s|v]; simpl; auto.
  - unfold mount.
    destruct (PlotlyChart_render name false) as [[n|ph h]|e]; simpl; auto.
    unfold effect. destruct (call_def (CHARTS_get name)) as [d|e]; simpl; auto.
    rewrite effect_body_phase. apply Hload. exact Hp.
  - unfold cleanup, method_call.
    destruct (divRef_current pg c), (window_Plotly pg); simpl; auto.
  - destruct (nth_error (document_head pg) s) as [sc|]; auto.
    destruct (promise_state pg (settles sc)); auto.
    left. destruct (settle_and_react_loader (settles sc)
                      (Fulfilled (window_Plotly
                         match defines with
                         | Some eng => with_window_Plotly (Some eng) pg
                         | None => pg end))
                      match defines with
                      | Some eng => with_window_Plotly (Some eng) pg
                      | None => pg end) as (H1 & _).
    unfold phase. rewrite H1. now destruct defines; simpl; rewrite Hp.
  - destruct (nth_error (document_head pg) s) as [sc|]; auto.
    left. destruct (settle_and_react_loader (settles sc) (Rejected LoadError) pg)
      as (H1 & _).
    unfold phase. now rewrite H1, Hp.
Qed.

Lemma step_phase pg ev :
  rank (phase pg) <= rank (phase (step pg ev))
  /\ (phase pg = Unloaded ->
        phase (step pg ev) = Unloaded \/ phase (step pg ev) = Loading)
  /\ (phase (step pg ev) = Unloaded -> phase pg = Unloaded)
  /\ (phase pg = Ready -> phase (step pg ev) = Ready)
  /\ (phase pg = Failed -> phase (step pg ev) = Failed).
Proof.
  destruct (_plotlyPromise pg) as [p|] eqn:Hp.
  - destruct (phase_loaded pg (step pg ev) p Hp (step_loader pg ev p Hp)
                (step_keeps pg ev)) as (H1 & H2 & H3).
    repeat split; auto.
    + intros Hph. unfold phase in Hph. rewrite Hp in Hph.
      destruct (promise_state pg p); discriminate.
    + intros Hph. rewrite Hph in H1.
      unfold phase in H1 |- *. rewrite Hp in *.
      destruct (promise_state pg p); simpl in H1; lia.
  - assert (Hph : phase pg = Unloaded) by (unfold phase; now rewrite Hp).
    rewrite Hph. repeat split; auto; try discriminate.
    + simpl. lia.
    + intros _. now apply step_from_unloaded.
Qed.


(** *** A failed load *)

Lemma fold_react_rejected e ws : forall pg,
  fold_left (fun pg' w => react (Rejected e) w pg') ws pg
  = with_console (console pg ++ map (fun _ => e) ws) pg.
Proof.
  induction ws as [|w ws IH]; intros pg; simpl.
  - rewrite app_nil_r. now destruct pg.
  - rewrite IH. unfold with_console. simpl. now rewrite <- app_assoc.
Qed.

Lemma filter_all_true {A} (f : A -> bool) l :
  Forall (fun x => f x = true) l -> filter f l = l.
Proof.
  induction 1 as [|x l Hx _ IH]; simpl; [reflexivity|]. now rewrite Hx, IH.
Qed.

Lemma phase_loading pg :
  phase pg = Loading ->
  exists p, _plotlyPromise pg = Some p /\ promise_state pg p = Pending.
Proof.
  unfold phase. destruct (_plotlyPromise pg) as [p|]; [|discriminate].
  destruct (promise_state pg p) eqn:Hs; try discriminate. eauto.
Qed.

Lemma phase_failed pg :
  phase pg = Failed ->
  exists p e, _plotlyPromise pg = Some p /\ promise_state pg p = Rejected e.
Proof.
  unfold phase. destruct (_plotlyPromise pg) as [p|]; [|discriminate].
  destruct (promise_state pg p) eqn:Hs; try discriminate. eauto.
Qed.

(** The script's [onerror] while the load is pending: the promise is
    rejected and every waiting chart logs the failure; no chart becomes
    ready and the engine is not called. *)
Lemma script_error_logged pg s :
  loader_inv pg -> phase pg = Loading -> s < List.length (document_head pg) ->
  let pg' := step pg (ScriptError s) in
  phase pg' = Failed
  /\ console pg' = console pg ++ map (fun _ => LoadError) (waiting pg)
  /\ ready_flags pg' = ready_flags pg
  /\ calls pg' = calls pg
  /\ waiting pg' = [].
Proof.
  intros Hinv Hph Hs.
  destruct (phase_loading pg Hph) as (p & Hp & Hst).
  unfold loader_inv in Hinv. rewrite Hp in Hinv.
  destruct Hinv as (Hlt & Hh & Hall & _).
  simpl. rewrite Hh in Hs |- *. simpl in Hs.
  assert (s = 0) by lia. subst s. simpl.
  unfold settle_and_react. rewrite Hst.
  rewrite (filter_all_true (fun w => Nat.eqb (w_promise w) p)), filter_all_false.
  - rewrite fold_react_rejected. simpl. repeat split.
    unfold phase. simpl. rewrite Hp.
    pose proof (settle_state p (Rejected LoadError) pg p) as Hset.
    unfold promise_state, settle in Hset. simpl in Hset.
    unfold promise_state. simpl. rewrite Hset.
    rewrite Nat.eqb_refl. simpl.
    destruct (Nat.ltb_spec p (List.length (promises pg))); [|lia].
    unfold promise_state in Hst. now rewrite Hst.
  - eapply Forall_impl; [|exact Hall]. simpl. intros w ->.
    now rewrite Nat.eqb_refl.
  - eapply Forall_impl; [|exact Hall]. simpl. intros w ->.
    now rewrite Nat.eqb_refl.
Qed.

Lemma plots_app pg c :
  is_NewPlot c = false -> filter is_NewPlot (calls pg ++ [c]) = plots pg.
Proof.
  intros Hc. unfold plots. rewrite filter_app. simpl. rewrite Hc.
  apply app_nil_r.
Qed.

(** After a failed load no event draws a chart or makes one ready: charts
    mounted later start, and stay, not ready. *)
Lemma step_failed pg ev :
  loader_inv pg -> phase pg = Failed ->
  plots (step pg ev) = plots pg
  /\ exists k, ready_flags (step pg ev) = ready_flags pg ++ repeat false k.
Proof.
  intros Hinv Hph.
  destruct (phase_failed pg Hph) as (p & e & Hp & Hst).
  assert (Hsame : plots pg = plots pg
                  /\ exists k, ready_flags pg = ready_flags pg ++ repeat false k).
  { split; [reflexivity|]. exists 0. simpl. now rewrite app_nil_r. }
  assert (Hnew : forall r name,
            exists k, ready_flags (new_chart name r pg) = ready_flags pg ++ repeat false k).
  { intros r name. exists 1. unfold ready_flags, new_chart. simpl.
    now rewrite map_app. }
  destruct ev as [ |name div|c|c|s defines|s|v]; simpl.
  - now rewrite (loadPlotly_memo p pg Hp).
  - unfold mount.
    destruct (PlotlyChart_render name false) as [[n|ph h]|err]; simpl;
      try (split; [reflexivity|apply Hnew]).
    unfold effect. destruct (call_def (CHARTS_get name)) as [d|err]; simpl;
      try (split; [reflexivity|apply Hnew]).
    unfold effect_body.
    rewrite (loadPlotly_memo p (new_chart name (Some div) pg) Hp).
    cbv beta iota zeta.
    change (promise_state (new_chart name (Some div) pg) p) with (promise_state pg p).
    rewrite Hst. simpl. split; [reflexivity|apply Hnew].
  - split; [reflexivity|]. exists 0. simpl. rewrite app_nil_r.
    unfold ready_flags, set_divRef. simpl. now apply update_nth_error_map.
  - unfold cleanup, method_call.
    destruct (divRef_current pg c), (window_Plotly pg); simpl; try exact Hsame.
    split; [now apply plots_app|apply Hsame].
  - destruct (nth_error (document_head pg) s) as [sc|] eqn:Hs; try exact Hsame.
    pose proof (script_of_inv pg s sc Hinv Hs) as Hp'.
    rewrite Hp in Hp'. injection Hp' as <-. rewrite Hst. exact Hsame.
  - destruct (nth_error (document_head pg) s) as [sc|] eqn:Hs; try exact Hsame.
    pose proof (script_of_inv pg s sc Hinv Hs) as Hp'.
    rewrite Hp in Hp'. injection Hp' as <-.
    unfold settle_and_react. rewrite Hst. exact Hsame.
  - exact Hsame.
Qed.

Lemma run_failed evs : forall pg,
  loader_inv pg -> phase pg = Failed ->
  let pg' := run pg evs in
  phase pg' = Failed
  /\ document_head pg' = document_head pg
  /\ plots pg' = plots pg
  /\ exists k, ready_flags pg' = ready_flags pg ++ repeat false k.
Proof.
  induction evs as [|ev evs IH]; intros pg Hinv Hph; simpl.
  - repeat split; auto. exists 0. simpl. now rewrite app_nil_r.
  - destruct (phase_failed pg Hph) as (p & e & Hp & Hst).
    destruct (step_phase pg ev) as (_ & _ & _ & _ & Hf).
    destruct (step_failed pg ev Hinv Hph) as (Hpl & k & Hk).
    destruct (step_loader pg ev p Hp) as (_ & Hh).
    destruct (IH (step pg ev) (step_inv pg ev Hinv) (Hf Hph))
      as (H1 & H2 & H3 & k' & H4).
    repeat split; try congruence.
    exists (k + k'). rewrite H4, Hk, <- app_assoc. now rewrite repeat_app.
Qed.

End Reach.

(** ** The loader *)
(** ** The charts that wait for the engine *)

Section Waiters.
  Context {M : HostMath}.

(** A chart mounted while the engine is awaited registers its reaction on
    the loader's pending promise. *)
Lemma mount_waits pg name div d :
  engine_awaited pg ->
  call_def (CHARTS_get name) = Normal d ->
  let pg' := step pg (Mount name div) in
  exists p,
    _plotlyPromise pg' = Some p
    /\ phase pg' = Loading
    /\ waiting pg' = waiting pg ++ [waiter_of p (List.length (charts pg)) d]
    /\ charts pg' = charts pg ++ [{| chartName := name; divRef := Some div;
                                     ready := false |}]
    /\ console pg' = console pg
    /\ calls pg' = calls pg.
Proof.
  intros Haw Hd pg'. subst pg'. simpl. unfold mount, PlotlyChart_render, effect.
  rewrite Hd.
  assert (Hfound : CHARTS_get name <> Missing).
  { intros E. rewrite E in Hd. discriminate Hd. }
  set (pg1 := new_chart name (Some div) pg).
  assert (Hgoal :
    exists p,
      _plotlyPromise (effect_body (List.length (charts pg)) d pg1) = Some p
      /\ phase (effect_body (List.length (charts pg)) d pg1) = Loading
      /\ waiting (effect_body (List.length (charts pg)) d pg1)
         = waiting pg ++ [waiter_of p (List.length (charts pg)) d]
      /\ charts (effect_body (List.length (charts pg)) d pg1)
         = charts pg ++ [{| chartName := name; divRef := Some div; ready := false |}]
      /\ console (effect_body (List.length (charts pg)) d pg1) = console pg
      /\ calls (effect_body (List.length (charts pg)) d pg1) = calls pg).
  { unfold effect_body. destruct Haw as [Hph|(Hph & Hwin)].
    - destruct (phase_loading pg Hph) as (p & Hp & Hst).
      rewrite (loadPlotly_memo p pg1 Hp).
      change (promise_state pg1 p) with (promise_state pg p). rewrite Hst.
      exists p. repeat split; try reflexivity; try exact Hp.
      unfold phase. simpl. rewrite Hp.
      change (promise_state _ p) with (promise_state pg p). now rewrite Hst.
    - assert (Hp : _plotlyPromise pg = None).
      { unfold phase in Hph. destruct (_plotlyPromise pg) as [p|]; [|reflexivity].
        destruct (promise_state pg p); discriminate Hph. }
      unfold loadPlotly. change (_plotlyPromise pg1) with (_plotlyPromise pg).
      change (window_Plotly pg1) with (window_Plotly pg). rewrite Hp, Hwin.
      cbv beta iota zeta.
      assert (Hst : forall q, promises q = promises pg ++ [Pending] ->
                promise_state q (List.length (promises pg)) = Pending).
      { intros q Hq. unfold promise_state. rewrite Hq. now rewrite nth_middle. }
      change (promises pg1) with (promises pg).
      match goal with
      | |- context [promise_state ?q (List.length (promises pg))] =>
          rewrite (Hst q eq_refl)
      end.
      exists (List.length (promises pg)). repeat split; try reflexivity.
      unfold phase. simpl. unfold promise_state. simpl. now rewrite nth_middle. }
  destruct (CHARTS_get name); [exact Hgoal|exact Hgoal|contradiction].
Qed.

(** While the load is pending, an event other than the script's own
    leaves it pending, settles nothing and logs nothing: the waiters stay,
    new ones queue up behind them, and no chart becomes ready. *)
Lemma quiet_step pg ev :
  loader_inv pg -> phase pg = Loading -> is_script_event ev = false ->
  let pg' := step pg ev in
  phase pg' = Loading
  /\ (exists ws, waiting pg' = waiting pg ++ ws)
  /\ (exists k, ready_flags pg' = ready_flags pg ++ repeat false k)
  /\ console pg' = console pg.
Proof.
  intros Hinv Hph Hev pg'. subst pg'.
  destruct (phase_loading pg Hph) as (p & Hp & Hst).
  assert (Hsame : phase pg = Loading
                  /\ (exists ws, waiting pg = waiting pg ++ ws)
                  /\ (exists k, ready_flags pg = ready_flags pg ++ repeat false k)
                  /\ console pg = console pg).
  { split; [exact Hph|]. split; [exists []; now rewrite app_nil_r|].
    split; [exists 0; simpl; now rewrite app_nil_r|reflexivity]. }
  assert (Hnew : forall r name q,
            _plotlyPromise q = _plotlyPromise pg -> promises q = promises pg ->
            waiting q = waiting pg -> console q = console pg ->
            charts q = charts (new_chart name r pg) ->
            phase q = Loading
            /\ (exists ws, waiting q = waiting pg ++ ws)
            /\ (exists k, ready_flags q = ready_flags pg ++ repeat false k)
            /\ console q = console pg).
  { intros r name q H1 H2 H3 H4 H5.
    split; [rewrite (phase_eq pg q H1 H2); exact Hph|].
    split; [exists []; now rewrite app_nil_r|].
    split; [|exact H4]. exists 1. unfold ready_flags. rewrite H5.
    unfold new_chart. simpl. now rewrite map_app. }
  destruct ev as [ |name div|c|c|s defines|s|v]; simpl; try discriminate Hev.
  - now rewrite (loadPlotly_memo p pg Hp).
  - destruct (call_def (CHARTS_get name)) as [d|e] eqn:Hd.
    + destruct (mount_waits pg name div d (or_introl Hph) Hd)
        as (p' & _ & H2 & H3 & H4 & H5 & _).
      simpl in H2, H3, H4, H5.
      split; [exact H2|]. split; [eauto|]. split; [|exact H5].
      exists 1. unfold ready_flags. rewrite H4, map_app. reflexivity.
    + unfold mount, PlotlyChart_render, effect. rewrite Hd.
      destruct (CHARTS_get name); simpl;
        match goal with
        | |- phase ?q = _ /\ _ => eapply (Hnew _ name q); reflexivity
        end.
  - split; [exact Hph|]. split; [exists []; now rewrite app_nil_r|].
    split; [|reflexivity]. exists 0. simpl. rewrite app_nil_r.
    unfold ready_flags, set_divRef. simpl. now apply update_nth_error_map.
  - unfold cleanup, method_call.
    destruct (divRef_current pg c), (window_Plotly pg); simpl; exact Hsame.
  - exact Hsame.
Qed.

Lemma quiet_run evs : forall pg,
  loader_inv pg -> phase pg = Loading ->
  forallb (fun ev => negb (is_script_event ev)) evs = true ->
  let pg' := run pg evs in
  phase pg' = Loading
  /\ (exists ws, waiting pg' = waiting pg ++ ws)
  /\ (exists k, ready_flags pg' = ready_flags pg ++ repeat false k)
  /\ console pg' = console pg.
Proof.
  induction evs as [|ev evs IH]; intros pg Hinv Hph Hq; simpl.
  - split; [exact Hph|]. split; [exists []; now rewrite app_nil_r|].
    split; [exists 0; simpl; now rewrite app_nil_r|reflexivity].
  - simpl in Hq. apply andb_prop in Hq. destruct Hq as (Hev & Hq).
    apply negb_true_iff in Hev.
    destruct (quiet_step pg ev Hinv Hph Hev) as (H1 & (ws & H2) & (k & H3) & H4).
    destruct (IH (step pg ev) (step_inv pg ev Hinv) H1 Hq)
      as (I1 & (ws' & I2) & (k' & I3) & I4).
    split; [exact I1|]. split; [exists (ws ++ ws'); now rewrite I2, H2, app_assoc|].
    split; [|congruence].
    exists (k + k'). now rewrite I3, H3, <- app_assoc, repeat_app.
Qed.

(** A chart mounted while the engine is awaited logs the failure of the
    load, however long the script takes to fail, and stays not ready. *)
Lemma mounted_chart_logs_failure pg name div d evs :
  loader_inv pg -> engine_awaited pg ->
  call_def (CHARTS_get name) = Normal d ->
  forallb (fun ev => negb (is_script_event ev)) evs = true ->
  let c := List.length (charts pg) in
  let pg1 := run (step pg (Mount name div)) evs in
  let pg2 := step pg1 (ScriptError 0) in
  phase pg1 = Loading
  /\ (exists p after,
        waiting pg1 = waiting pg ++ waiter_of p c d :: after
        /\ console pg2
           = console pg
               ++ map (fun _ => LoadError) (waiting pg ++ waiter_of p c d :: after))
  /\ In LoadError (console pg2)
  /\ phase pg2 = Failed
  /\ nth_error (ready_flags pg2) c = Some false
  /\ waiting pg2 = []
  /\ loader_inv pg2.
Proof.
  intros Hinv Haw Hd Hq c pg1 pg2.
  destruct (mount_waits pg name div d Haw Hd) as (p & M1 & M2 & M3 & M4 & M5 & M6).
  cbv zeta in M1, M2, M3, M4, M5, M6.
  pose proof (step_inv pg (Mount name div) Hinv) as Hinv0.
  destruct (quiet_run evs _ Hinv0 M2 Hq) as (Q1 & (ws & Q2) & (k & Q3) & Q4).
  cbv zeta in Q1, Q2, Q3, Q4. fold pg1 in Q1, Q2, Q3, Q4.
  pose proof (run_inv _ evs Hinv0) as Hinv1. fold pg1 in Hinv1.
  assert (Hs : 0 < List.length (document_head pg1)).
  { destruct (phase_loading pg1 Q1) as (p1 & Hp1 & _).
    pose proof Hinv1 as Hi. unfold loader_inv in Hi. rewrite Hp1 in Hi.
    destruct Hi as (_ & -> & _). simpl. lia. }
  destruct (script_error_logged pg1 0 Hinv1 Q1 Hs) as (S1 & S2 & S3 & S4 & S5).
  cbv zeta in S1, S2, S3, S4, S5. fold pg2 in S1, S2, S3, S4, S5.
  assert (Hw : waiting pg1 = waiting pg ++ waiter_of p c d :: ws).
  { rewrite Q2, M3, <- app_assoc. reflexivity. }
  assert (Hc : console pg2
               = console pg
                   ++ map (fun _ => LoadError) (waiting pg ++ waiter_of p c d :: ws)).
  { rewrite S2, Q4, M5, Hw. reflexivity. }
  split; [exact Q1|]. split; [exists p, ws; auto|].
  split.
  { rewrite Hc, map_app. apply in_or_app. right. apply in_or_app. right.
    simpl. now left. }
  split; [exact S1|]. split; [|split; [exact S5|]].
  - rewrite S3, Q3. unfold ready_flags. rewrite M4, map_app. simpl.
    rewrite nth_error_app1.
    + subst c. rewrite nth_error_app2 by (rewrite length_map; lia).
      rewrite length_map, Nat.sub_diag. reflexivity.
    + rewrite length_app, length_map. simpl. subst c. lia.
  - apply step_inv. exact Hinv1.
Qed.

End Waiters.

Section Claims.
  Context {M : HostMath}.

(** C6, as stated, fails: when the document already carries the engine on
    [window.Plotly], [loadPlotly] memoizes nothing; two calls return two
    different promises (and fetch nothing). *)
Lemma loadPlotly_not_memoized_when_engine_present :
  let pg := fresh_page (Some 7) in
  let '(p1, pg1) := loadPlotly pg in
  let '(p2, pg2) := loadPlotly pg1 in
  p1 <> p2
  /\ promise_state pg2 p1 = Fulfilled (Some 7)
  /\ promise_state pg2 p2 = Fulfilled (Some 7)
  /\ _plotlyPromise pg2 = None
  /\ document_head pg2 = [].
Proof. simpl. repeat split. discriminate. Qed.

(** C6, amended: over every sequence of events from a fresh page, at most
    one script is ever appended; once [_plotlyPromise] is set (a fetch has
    been started) every later call of [loadPlotly] returns that same
    memoized promise and leaves the page as it is; while it is [null] no
    script has been appended, and if the engine is already on
    [window.Plotly] a call returns a fresh promise that is already
    fulfilled with that engine, appends no script and memoizes nothing;
    and a settled promise keeps its value for good, so all who wait on the
    memoized promise see the same engine handle. *)
Theorem loader_fetches_once (w : option Engine) (evs : list Event) :
  let pg := run (fresh_page w) evs in
  List.length (document_head pg) <= 1
  /\ (forall p, _plotlyPromise pg = Some p ->
        document_head pg = [the_script p]
        /\ forall evs', let pg' := run pg evs' in
             loadPlotly pg' = (p, pg') /\ document_head pg' = document_head pg)
  /\ (_plotlyPromise pg = None ->
        document_head pg = []
        /\ forall eng, window_Plotly pg = Some eng ->
             let '(p, pg') := loadPlotly pg in
             p = List.length (promises pg)
             /\ promise_state pg' p = Fulfilled (Some eng)
             /\ document_head pg' = [] /\ _plotlyPromise pg' = None)
  /\ (forall q s, promise_state pg q = s -> s <> Pending ->
        forall evs', promise_state (run pg evs') q = s).
Proof.
  intros pg.
  pose proof (run_inv (fresh_page w) evs (fresh_page_inv w)) as Hinv.
  fold pg in Hinv. unfold loader_inv in Hinv.
  split; [|split; [|split]].
  - destruct (_plotlyPromise pg) as [p|].
    + destruct Hinv as (_ & -> & _). simpl. lia.
    + destruct Hinv as (-> & _). simpl. lia.
  - intros p Hp. rewrite Hp in Hinv. destruct Hinv as (_ & Hh & _).
    split; [exact Hh|]. intros evs' pg'.
    destruct (run_loader evs' pg p Hp) as (H1 & H2). fold pg' in H1, H2.
    split; [|exact H2]. apply loadPlotly_memo. now rewrite H1.
  - intros Hp. rewrite Hp in Hinv. destruct Hinv as (Hh & _).
    split; [exact Hh|]. intros eng Hw. unfold loadPlotly. rewrite Hp, Hw.
    unfold promise_state. simpl. rewrite nth_middle. auto.
  - intros q s Hq Hs evs'. now apply (run_keeps evs' pg q s).
Qed.

(** C7: the engine-load state only moves forward.  In every reachable
    page each event leaves the state where it is or moves it on, from
    Unloaded only to Loading, never back to Unloaded, and never out of
    Ready.  If the script fails while the load is pending, the state
    becomes Failed, each waiting chart logs the failure, and no chart
    becomes ready; from then on, whatever happens, the state stays Failed,
    no second script is appended (no retry), nothing is drawn, and every
    chart, old or new, stays not ready (the loading placeholder).  And the
    charts that wait are the mounted ones: a chart mounted while the
    engine is awaited, under any name whose [def()] returns, joins the
    waiters and stays among them until the script fails, however many
    other events come first; the failure is then logged once for each
    waiter, that chart included, and that chart is never ready nor is a
    second script ever fetched, whatever happens afterwards. *)
Theorem load_state_only_moves_forward (w : option Engine) (evs : list Event) :
  let pg := run (fresh_page w) evs in
  (forall ev, let pg' := step pg ev in
     rank (phase pg) <= rank (phase pg')
     /\ (phase pg = Unloaded -> phase pg' = Unloaded \/ phase pg' = Loading)
     /\ (phase pg' = Unloaded -> phase pg = Unloaded)
     /\ (phase pg = Ready -> phase pg' = Ready))
  /\ (phase pg = Loading ->
      forall s, s < List.length (document_head pg) ->
        let pg' := step pg (ScriptError s) in
        phase pg' = Failed
        /\ console pg' = console pg ++ map (fun _ => LoadError) (waiting pg)
        /\ ready_flags pg' = ready_flags pg
        /\ calls pg' = calls pg)
  /\ (phase pg = Failed ->
      forall evs', let pg' := run pg evs' in
        phase pg' = Failed
        /\ document_head pg' = document_head pg
        /\ plots pg' = plots pg
        /\ exists k, ready_flags pg' = ready_flags pg ++ repeat false k)
  /\ (engine_awaited pg ->
      forall (name : string) (div : Container) (d : jsval) (quiet : list Event),
        call_def (CHARTS_get name) = Normal d ->
        forallb (fun ev => negb (is_script_event ev)) quiet = true ->
        let c := List.length (charts pg) in
        let pg1 := run (step pg (Mount name div)) quiet in
        let pg2 := step pg1 (ScriptError 0) in
        phase pg1 = Loading
        /\ (exists p after,
              waiting pg1 = waiting pg ++ waiter_of p c d :: after
              /\ console pg2
                 = console pg
                     ++ map (fun _ => LoadError)
                            (waiting pg ++ waiter_of p c d :: after))
        /\ In LoadError (console pg2)
        /\ phase pg2 = Failed
        /\ nth_error (ready_flags pg2) c = Some false
        /\ forall evs', let pg3 := run pg2 evs' in
             phase pg3 = Failed
             /\ List.length (document_head pg3) = 1
             /\ plots pg3 = plots pg1
             /\ nth_error (ready_flags pg3) c = Some false).
Proof.
  intros pg.
  pose proof (run_inv (fresh_page w) evs (fresh_page_inv w)) as Hinv.
  fold pg in Hinv.
  split; [|split; [|split]].
  - intros ev pg'. destruct (step_phase pg ev) as (H1 & H2 & H3 & H4 & _).
    auto.
  - intros Hph s Hs pg'.
    destruct (script_error_logged pg s Hinv Hph Hs) as (H1 & H2 & H3 & H4 & _).
    auto.
  - intros Hph evs'. now apply run_failed.
  - intros Haw name div d quiet Hd Hq c pg1 pg2.
    destruct (mounted_chart_logs_failure pg name div d quiet Hinv Haw Hd Hq)
      as (L1 & L2 & L3 & L4 & L5 & L6 & Hinv2).
    fold c pg1 pg2 in L1, L2, L3, L4, L5, L6, Hinv2.
    split; [exact L1|]. split; [exact L2|]. split; [exact L3|].
    split; [exact L4|]. split; [exact L5|].
    intros evs' pg3.
    destruct (run_failed evs' pg2 Hinv2 L4) as (F1 & F2 & F3 & k & F4).
    fold pg3 in F1, F2, F3, F4.
    assert (Hinv1 : loader_inv pg1).
    { apply run_inv, step_inv. exact Hinv. }
    destruct (script_error_logged pg1 0 Hinv1 L1) as (_ & _ & _ & S4 & _).
    { destruct (phase_loading pg1 L1) as (p1 & Hp1 & _).
      unfold loader_inv in Hinv1. rewrite Hp1 in Hinv1.
      destruct Hinv1 as (_ & -> & _). simpl. lia. }
    fold pg2 in S4.
    split; [exact F1|]. split.
    { rewrite F2. destruct (phase_failed pg2 L4) as (p2 & e2 & Hp2 & _).
      unfold loader_inv in Hinv2. rewrite Hp2 in Hinv2.
      destruct Hinv2 as (_ & -> & _). reflexivity. }
    split; [rewrite F3; unfold plots; now rewrite S4|].
    rewrite F4. rewrite nth_error_app1; [exact L5|].
    apply nth_error_Some. rewrite L5. discriminate.
Qed.

End Claims.

Lemma load_state_only_moves_forward_witness :
  let pg := run (M := SampleHost.host) (fresh_page None) [] in
  let pg1 := run (M := SampleHost.host)
               (step (M := SampleHost.host) pg (Mount "helix-tangent" 4))
               [Mount "black-scholes" 5; Cleanup 0; CallLoad] in
  let pg2 := step (M := SampleHost.host) pg1 (ScriptError 0) in
  engine_awaited pg
  /\ phase pg1 = Loading
  /\ console pg2 = [LoadError; LoadError]
  /\ In LoadError (console pg2)
  /\ phase pg2 = Failed
  /\ nth_error (ready_flags pg2) 0 = Some false
  /\ List.length
       (document_head
          (run (M := SampleHost.host) pg2
             [Mount "riemann-sum" 6; WindowPlotly (Some 1); CallLoad])) = 1.
Proof.
  cbv zeta.
  assert (Haw : engine_awaited (run (M := SampleHost.host) (fresh_page None) []))
    by (right; split; reflexivity).
  pose proof (load_state_only_moves_forward (M := SampleHost.host) None []) as H.
  cbv zeta in H. destruct H as (_ & _ & _ & H).
  destruct (H Haw "helix-tangent"%string 4 _
              [Mount "black-scholes" 5; Cleanup 0; CallLoad] eq_refl eq_refl)
    as (L1 & _ & L3 & L4 & L5 & L6).
  split; [exact Haw|]. split; [exact L1|]. split; [vm_compute; reflexivity|].
  split; [exact L3|]. split; [exact L4|]. split; [exact L5|].
  destruct (L6 [Mount "riemann-sum" 6; WindowPlotly (Some 1); CallLoad])
    as (_ & F2 & _).
  exact F2.
Defined.

(** ** Unmounting *)

Section Unmount.
  Context {M : HostMath}.

(** The effect's cleanup never throws. *)
Lemma cleanup_total (c : nat) (pg : Page) : exists pg', cleanup c pg = Normal pg'.
Proof.
  unfold cleanup, method_call.
  destruct (divRef_current pg c), (window_Plotly pg); eexists; reflexivity.
Qed.

(** C8: the cleanup never throws and lets no error escape; when the
    container handle is absent or the engine is not on [window] it is a
    no-op; a pending mount whose container is gone by the time the load
    completes returns at once, drawing nothing and changing nothing; and
    for each of the 13 charts, unmounting before the script has loaded
    leaves a page on which the later load draws nothing, logs nothing and
    throws nothing. *)
Theorem cleanup_is_safe (pg : Page) (c : nat) :
  (exists pg', cleanup c pg = Normal pg'
               /\ step pg (Cleanup c) = pg'
               /\ uncaught pg' = uncaught pg)
  /\ (divRef_current pg c = None \/ window_Plotly pg = None ->
      cleanup c pg = Normal pg /\ step pg (Cleanup c) = pg)
  /\ (forall (data layout : jsval) (v : option Engine),
        divRef_current pg c = None ->
        then_body c data layout v pg = Normal pg
        /\ react (Fulfilled v) {| w_promise := 0; w_chart := c;
                                  w_data := data; w_layout := layout |} pg = pg)
  /\ (forall (id : string) (div : Container) (defines : option Engine),
        In id chart_ids ->
        let pg1 := run (fresh_page None) [Mount id div; DetachRef 0; Cleanup 0] in
        let pg2 := step pg1 (ScriptLoad 0 defines) in
        phase pg1 = Loading /\ List.length (waiting pg1) = 1
        /\ phase pg2 = Ready /\ waiting pg2 = []
        /\ calls pg2 = [] /\ uncaught pg2 = [] /\ console pg2 = []
        /\ ready_flags pg2 = [false]).
Proof.
  split; [|split; [|split]].
  - unfold step, cleanup, method_call.
    destruct (divRef_current pg c), (window_Plotly pg); eexists; repeat split.
  - unfold step, cleanup.
    intros [H|H]; rewrite H; [|destruct (divRef_current pg c)]; auto.
  - intros data layout v H. unfold react, then_body. simpl. rewrite H. auto.
  - intros id div defines H.
    each_chart H; destruct defines; vm_compute; repeat split.
Qed.

End Unmount.

(** ** Drawing *)



(** [layout.height || 500] would replace a height of [0] by [500]; no
    factory of the registry sets such a height, and a layout only ever
    comes from a factory. *)
Lemma zero_height_is_replaced :
  JS.get "height" (JObj ["height"%string ::= JNum 0%float]) = JNum 0%float
  /\ JS.get "height" (fullLayout (JObj ["height"%string ::= JNum 0%float]))
     = JNum 500%float.
Proof. split; reflexivity. Qed.

Section Draw.
  Context {M : HostMath}.


End Draw.


(** ** What the page shows of a load *)

Import Observed.

Section Escape.
  Context {M : HostMath}.

Lemma uncaught_loadPlotly pg : uncaught (snd (loadPlotly pg)) = uncaught pg.
Proof.
  unfold loadPlotly. destruct (_plotlyPromise pg); [reflexivity|].
  now destruct (window_Plotly pg).
Qed.

Lemma uncaught_react s w pg : uncaught (react s w pg) = uncaught pg.
Proof. now destruct (react_core s w pg) as (_ & _ & _ & _ & _ & H). Qed.

Lemma uncaught_fold_react s ws pg :
  uncaught (fold_left (fun pg' w => react s w pg') ws pg) = uncaught pg.
Proof. now destruct (fold_react_core s ws pg) as (_ & _ & _ & _ & _ & H). Qed.

Lemma uncaught_effect_body c d pg : uncaught (effect_body c d pg) = uncaught pg.
Proof.
  unfold effect_body. pose proof (uncaught_loadPlotly pg) as H.
  destruct (loadPlotly pg) as [p pg1]. simpl in H.
  destruct (promise_state pg1 p); rewrite ?uncaught_react; exact H.
Qed.

Lemma uncaught_settle_and_react p s pg :
  uncaught (settle_and_react p s pg) = uncaught pg.
Proof.
  unfold settle_and_react. destruct (promise_state pg p); try reflexivity.
  now rewrite uncaught_fold_react.
Qed.

(** A name that is not inherited is a factory or is missing. *)
Lemma own_or_missing name :
  ~ In name Object_prototype_keys ->
  (exists def, CHARTS_get name = Own def) \/ CHARTS_get name = Missing.
Proof.
  intros Hn. unfold CHARTS_get. destruct (JS.assoc name CHARTS); eauto.
  rewrite existsb_eqb_not_in by assumption. now right.
Qed.

Lemma uncaught_mount name div pg :
  ~ In name Object_prototype_keys -> uncaught (mount name div pg) = uncaught pg.
Proof.
  intros Hn. unfold mount, PlotlyChart_render, effect.
  destruct (own_or_missing name Hn) as [(def & ->)| ->]; simpl; [|reflexivity].
  now rewrite uncaught_effect_body.
Qed.

Lemma uncaught_step pg ev :
  own_names [ev] -> uncaught (step pg ev) = uncaught pg.
Proof.
  intros Hev. destruct ev as [ |name div|c|c|s defines|s|v]; simpl.
  - apply uncaught_loadPlotly.
  - apply uncaught_mount. apply (Hev name div). now left.
  - reflexivity.
  - unfold cleanup, method_call.
    now destruct (divRef_current pg c), (window_Plotly pg).
  - destruct (nth_error (document_head pg) s) as [sc|]; [|reflexivity].
    destruct (promise_state pg (settles sc)); try reflexivity.
    rewrite uncaught_settle_and_react. now destruct defines.
  - destruct (nth_error (document_head pg) s) as [sc|]; [|reflexivity].
    apply uncaught_settle_and_react.
  - reflexivity.
Qed.

(** X1: no error escapes a component, whatever happens on the page, as long as
    no chart is mounted under a name that [CHARTS] inherits from
    [Object.prototype]: a factory never throws, an exception of the
    [.then] callback is caught and logged, and the cleanup guards its
    call. *)
Theorem no_error_escapes (pg : Page) (evs : list Event) :
  own_names evs -> uncaught (run pg evs) = uncaught pg.
Proof.
  revert pg. induction evs as [|ev evs IH]; intros pg Hev; [reflexivity|].
  simpl. rewrite IH.
  - apply uncaught_step. intros name div [Heq|[]]. apply (Hev name div). now left.
  - intros name div Hin. apply (Hev name div). now right.
Qed.

End Escape.

Lemma no_error_escapes_witness :
  own_names [Mount "helix-tangent" 4; Mount "no-such-chart" 5; ScriptLoad 0 None;
             Cleanup 0; Mount "black-scholes" 6]
  /\ uncaught (run (M := SampleHost.host) (fresh_page None)
                 [Mount "helix-tangent" 4; Mount "no-such-chart" 5; ScriptLoad 0 None;
                  Cleanup 0; Mount "black-scholes" 6]) = [].
Proof.
  assert (H : own_names [Mount "helix-tangent" 4; Mount "no-such-chart" 5;
                         ScriptLoad 0 None; Cleanup 0; Mount "black-scholes" 6]).
  { intros name div Hin. simpl in Hin.
    repeat (destruct Hin as [Hin|Hin]; [try discriminate; injection Hin as <- <-|]);
      try contradiction;
      intros Hk; simpl in Hk;
      repeat (destruct Hk as [Hk|Hk]; [discriminate|]); contradiction. }
  split; [exact H|].
  exact (no_error_escapes (M := SampleHost.host) (fresh_page None) _ H).
Defined.

Lemma nth_error_update {A} (i j : nat) (f : A -> A) (l : list A) :
  nth_error (update i f l) j
  = if Nat.eqb i j then option_map f (nth_error l j) else nth_error l j.
Proof.
  revert i j. induction l as [|x l IH]; intros [|i] [|j]; simpl; try reflexivity.
  - now destruct (Nat.eqb i j).
  - apply IH.
Qed.

Section Drawn.
  Context {M : HostMath}.

Lemma drawn_calls name pg pg' :
  (forall c, In c (calls pg) -> In c (calls pg')) -> drawn name pg -> drawn name pg'.
Proof. intros Hc (eng & div & d & Hd & Hin). exists eng, div, d. auto. Qed.

Lemma grows_refl pg : grows pg pg.
Proof. repeat split; auto. intros c ch' H1 H2. left. eauto. Qed.

Lemma grows_same pg pg' :
  charts pg' = charts pg -> calls pg' = calls pg -> grows pg pg'.
Proof.
  intros Hc Hk. split; [now rewrite Hc|]. split; [now rewrite Hk|].
  intros c ch' H1 H2. left. rewrite Hc in H1. eauto.
Qed.

Lemma names_nth pg pg' c ch :
  map chartName (charts pg') = map chartName (charts pg) ->
  nth_error (charts pg) c = Some ch ->
  exists ch', nth_error (charts pg') c = Some ch' /\ chartName ch' = chartName ch.
Proof.
  intros Hn Hc.
  assert (H : nth_error (map chartName (charts pg')) c = Some (chartName ch)).
  { rewrite Hn, nth_error_map, Hc. reflexivity. }
  rewrite nth_error_map in H. destruct (nth_error (charts pg') c) as [ch'|]; [|discriminate].
  injection H as H. eauto.
Qed.

Lemma grows_trans a b c : grows a b -> grows b c -> grows a c.
Proof.
  intros (N1 & C1 & R1) (N2 & C2 & R2). split; [congruence|]. split; [auto|].
  intros k ch' Hk Hr. destruct (R2 k ch' Hk Hr) as [(ch & Hch & Hrch)|Hd]; [|now right].
  destruct (R1 k ch Hch Hrch) as [?|Hd]; [now left|right].
  destruct (names_nth b c k ch N2 Hch) as (ch'' & Hk' & Hname).
  rewrite Hk in Hk'. injection Hk' as <-. rewrite Hname.
  eapply drawn_calls; eauto.
Qed.

Lemma grows_inv_ready pg pg' :
  grows pg pg' ->
  (forall c ch, nth_error (charts pg) c = Some ch -> ready ch = true ->
     drawn (chartName ch) pg) ->
  (forall c ch, nth_error (charts pg') c = Some ch -> ready ch = true ->
     drawn (chartName ch) pg').
Proof.
  intros (N & C & R) Hinv c ch' Hc Hr.
  destruct (R c ch' Hc Hr) as [(ch & Hch & Hrch)|Hd]; [|exact Hd].
  destruct (names_nth pg pg' c ch N Hch) as (ch'' & Hk' & Hname).
  rewrite Hc in Hk'. injection Hk' as <-. rewrite Hname.
  eapply drawn_calls; [exact C|]. eauto.
Qed.

Lemma grows_waits pg pg' w :
  grows pg pg' -> waits_for_its_chart pg w -> waits_for_its_chart pg' w.
Proof.
  intros (N & _) (ch & d & Hch & Hd & Hdata & Hlay).
  destruct (names_nth pg pg' _ ch N Hch) as (ch' & Hch' & Hname).
  exists ch', d. rewrite Hname. auto.
Qed.

(** A reaction of a waiter that waits for its chart only adds to the
    page. *)
Lemma react_grows s w pg :
  waits_for_its_chart pg w -> grows pg (react s w pg).
Proof.
  intros (ch & d & Hch & Hd & Hdata & Hlay).
  destruct s as [|v|e]; simpl; [apply grows_refl| |now apply grows_same].
  unfold catch_log, then_body, method_call.
  destruct (divRef_current pg (w_chart w)) as [div|]; [|apply grows_refl].
  assert (Hdraw : forall eng,
            grows pg (set_ready (w_chart w) true
                        (with_calls (calls pg ++ [NewPlot eng div (w_data w)
                                        (fullLayout (w_layout w)) plot_config]) pg))).
  { intros eng. split; [|split].
    - unfold set_ready. simpl. now apply update_nth_error_map.
    - simpl. intros c Hc. apply in_or_app. now left.
    - intros c ch' Hc' Hr. unfold set_ready in Hc'. simpl in Hc'.
      rewrite nth_error_update in Hc'.
      destruct (Nat.eqb_spec (w_chart w) c) as [<-|Hne].
      + right. rewrite Hch in Hc'. simpl in Hc'. injection Hc' as <-. simpl.
        exists eng, div, d. split; [exact Hd|]. simpl.
        apply in_or_app. right. left. now rewrite Hdata, Hlay.
      + left. eauto. }
  destruct (w_layout w); try (now apply grows_same);
    (destruct v as [eng|]; [apply Hdraw|now apply grows_same]).
Qed.

Lemma fold_react_grows s ws : forall pg,
  Forall (waits_for_its_chart pg) ws ->
  grows pg (fold_left (fun pg' w => react s w pg') ws pg).
Proof.
  induction ws as [|w ws IH]; intros pg Hws; [apply grows_refl|].
  simpl. inversion Hws as [|? ? Hw Hrest]; subst.
  pose proof (react_grows s w pg Hw) as Hg.
  eapply grows_trans; [exact Hg|]. apply IH.
  eapply Forall_impl; [|exact Hrest]. intros w'. now apply grows_waits.
Qed.

Lemma drawn_inv_grows pg pg' :
  grows pg pg' -> waiting pg' = waiting pg -> drawn_inv pg -> drawn_inv pg'.
Proof.
  intros Hg Hw (Hr & Hws). split.
  - now apply (grows_inv_ready pg pg').
  - rewrite Hw. eapply Forall_impl; [|exact Hws]. intros w. now apply grows_waits.
Qed.


Lemma waits_frame pg pg' w :
  charts pg' = charts pg -> waits_for_its_chart pg w -> waits_for_its_chart pg' w.
Proof. intros Hc. unfold waits_for_its_chart. now rewrite Hc. Qed.

Lemma drawn_inv_frame pg pg' :
  charts pg' = charts pg -> calls pg' = calls pg ->
  (forall w, In w (waiting pg') -> In w (waiting pg)) ->
  drawn_inv pg -> drawn_inv pg'.
Proof.
  intros Hc Hk Hw (Hr & Hws). split.
  - apply (grows_inv_ready pg pg'); [now apply grows_same|exact Hr].
  - apply Forall_forall. intros w Hin. apply (waits_frame pg pg' w Hc).
    rewrite Forall_forall in Hws. auto.
Qed.

Lemma loadPlotly_frame pg :
  charts (snd (loadPlotly pg)) = charts pg
  /\ calls (snd (loadPlotly pg)) = calls pg
  /\ waiting (snd (loadPlotly pg)) = waiting pg.
Proof.
  unfold loadPlotly. destruct (_plotlyPromise pg); [auto|].
  now destruct (window_Plotly pg).
Qed.

Lemma drawn_inv_new_chart name r pg :
  drawn_inv pg -> drawn_inv (new_chart name r pg).
Proof.
  intros (Hr & Hws). split.
  - intros c ch Hc Hrd. unfold new_chart in Hc. simpl in Hc.
    destruct (Nat.lt_ge_cases c (List.length (charts pg))) as [Hlt|Hge].
    + rewrite nth_error_app1 in Hc by assumption.
      eapply drawn_calls; [|eapply Hr; eauto]. auto.
    + rewrite nth_error_app2 in Hc by assumption.
      destruct (c - List.length (charts pg)) as [|k]; simpl in Hc.
      * injection Hc as <-. discriminate.
      * now destruct k.
  - eapply Forall_impl; [|exact Hws].
    intros w (ch & d & Hch & Hd). exists ch, d. split; [|exact Hd].
    unfold new_chart. simpl. rewrite nth_error_app1; [exact Hch|].
    apply nth_error_Some. congruence.
Qed.

Lemma react_waiting s w pg : waiting (react s w pg) = waiting pg.
Proof. now destruct (react_core s w pg) as (_ & _ & _ & _ & H & _). Qed.

Lemma fold_react_waiting s ws pg :
  waiting (fold_left (fun pg' w => react s w pg') ws pg) = waiting pg.
Proof. now destruct (fold_react_core s ws pg) as (_ & _ & _ & _ & H & _). Qed.

Lemma drawn_inv_settle_and_react p s pg :
  drawn_inv pg -> drawn_inv (settle_and_react p s pg).
Proof.
  intros Hinv. unfold settle_and_react.
  destruct (promise_state pg p); try exact Hinv.
  set (mine := filter (fun w => Nat.eqb (w_promise w) p) (waiting pg)).
  set (rest := filter (fun w => negb (Nat.eqb (w_promise w) p)) (waiting pg)).
  set (pg0 := with_waiting rest (settle p s pg)).
  assert (H0 : drawn_inv pg0).
  { apply (drawn_inv_frame pg pg0); auto.
    intros w Hin. subst pg0 rest. simpl in Hin. now apply filter_In in Hin. }
  apply (drawn_inv_grows pg0).
  - apply fold_react_grows. apply Forall_forall. intros w Hin.
    apply (waits_frame pg pg0 w eq_refl).
    destruct Hinv as (_ & Hws). rewrite Forall_forall in Hws. apply Hws.
    subst mine. now apply filter_In in Hin.
  - apply fold_react_waiting.
  - exact H0.
Qed.

Lemma drawn_inv_effect_body c d name pg :
  nth_error (charts pg) c = Some {| chartName := name; divRef := divRef_current pg c;
                                    ready := false |} ->
  call_def (CHARTS_get name) = Normal d ->
  drawn_inv pg -> drawn_inv (effect_body c d pg).
Proof.
  intros Hc Hd Hinv. unfold effect_body.
  destruct (loadPlotly_frame pg) as (F1 & F2 & F3).
  destruct (loadPlotly pg) as [p pg1]. simpl in F1, F2, F3.
  assert (H1 : drawn_inv pg1).
  { apply (drawn_inv_frame pg pg1); auto. now rewrite F3. }
  set (w := {| w_promise := p; w_chart := c; w_data := JS.get "data" d;
               w_layout := JS.get "layout" d |}).
  assert (Hw : waits_for_its_chart pg1 w).
  { eexists _, d. rewrite F1. simpl. repeat split; eauto. }
  destruct (promise_state pg1 p).
  - destruct H1 as (Hr & Hws). split.
    + apply (grows_inv_ready pg1); [now apply grows_same|exact Hr].
    + simpl. apply Forall_app. split; [|now constructor].
      eapply Forall_impl; [|exact Hws]. intros w'. now apply waits_frame.
  - apply (drawn_inv_grows pg1); auto using react_grows, react_waiting.
  - apply (drawn_inv_grows pg1); auto using react_grows, react_waiting.
Qed.

Lemma drawn_inv_step pg ev : drawn_inv pg -> drawn_inv (step pg ev).
Proof.
  intros Hinv. destruct ev as [ |name div|c|c|s defines|s|v]; simpl.
  - destruct (loadPlotly_frame pg) as (F1 & F2 & F3).
    apply (drawn_inv_frame pg); auto. now rewrite F3.
  - unfold mount, PlotlyChart_render.
    assert (Hfound : forall pg1,
              pg1 = new_chart name (Some div) pg ->
              drawn_inv (escape (effect (List.length (charts pg)) name pg1) pg1)).
    { intros pg1 ->. unfold effect.
      destruct (call_def (CHARTS_get name)) as [d|err] eqn:Hd; simpl.
      - apply (drawn_inv_effect_body _ d name); auto using drawn_inv_new_chart.
        unfold new_chart, divRef_current. simpl.
        rewrite nth_error_app2 by lia. now rewrite Nat.sub_diag.
      - apply (drawn_inv_frame (new_chart name (Some div) pg));
          auto using drawn_inv_new_chart. }
    destruct (CHARTS_get name); simpl; auto using drawn_inv_new_chart.
  - apply (drawn_inv_grows pg); auto. split; [|split].
    + unfold set_divRef. simpl. now apply update_nth_error_map.
    + auto.
    + intros k ch' Hk Hr. left. unfold set_divRef in Hk. simpl in Hk.
      rewrite nth_error_update in Hk. destruct (Nat.eqb c k); eauto.
      destruct (nth_error (charts pg) k) as [ch|]; [|discriminate].
      injection Hk as <-. eauto.
  - unfold cleanup, method_call.
    destruct (divRef_current pg c), (window_Plotly pg); simpl; auto.
    apply (drawn_inv_grows pg); auto. split; [reflexivity|]. split.
    + simpl. intros k Hk. apply in_or_app. now left.
    + intros k ch' Hk Hr. left. eauto.
  - destruct (nth_error (document_head pg) s) as [sc|]; auto.
    destruct (promise_state pg (settles sc)); auto.
    apply drawn_inv_settle_and_react.
    destruct defines; exact Hinv.
  - destruct (nth_error (document_head pg) s) as [sc|]; auto.
    now apply drawn_inv_settle_and_react.
  - now apply (drawn_inv_frame pg).
Qed.

(** X2: a chart is only ever shown as ready after the engine was asked to
    draw it: on every page reached from a fresh one, each ready chart has
    a [newPlot] call with the data of its own factory and that factory's
    layout merged with the host's. *)
Theorem ready_only_after_drawing
        (w : option Engine) (evs : list Event) (c : nat) (ch : Chart) :
  nth_error (charts (run (fresh_page w) evs)) c = Some ch ->
  ready ch = true ->
  exists eng div d,
    call_def (CHARTS_get (chartName ch)) = Normal d
    /\ In (NewPlot eng div (JS.get "data" d) (fullLayout (JS.get "layout" d))
                   plot_config)
          (calls (run (fresh_page w) evs)).
Proof.
  assert (Hrun : forall evs pg, drawn_inv pg -> drawn_inv (run pg evs)).
  { clear. induction evs as [|ev evs IH]; intros pg H; [exact H|].
    simpl. apply IH. now apply drawn_inv_step. }
  assert (H0 : drawn_inv (fresh_page w)).
  { split; [|constructor]. intros k x Hk. now destruct k. }
  destruct (Hrun evs _ H0) as (Hr & _). exact (Hr c ch).
Qed.

End Drawn.

Lemma ready_only_after_drawing_witness :
  let pg := run (M := SampleHost.host) (fresh_page None)
              [Mount "3d-coordinates" 9; ScriptLoad 0 (Some 1)] in
  nth_error (charts pg) 0
  = Some {| chartName := "3d-coordinates"; divRef := Some 9; ready := true |}
  /\ exists eng div d,
       call_def (CHARTS_get (M := SampleHost.host) "3d-coordinates") = Normal d
       /\ In (NewPlot eng div (JS.get "data" d) (fullLayout (JS.get "layout" d))
                      plot_config) (calls pg).
Proof.
  assert (H : nth_error (charts (run (M := SampleHost.host) (fresh_page None)
                                   [Mount "3d-coordinates" 9; ScriptLoad 0 (Some 1)])) 0
              = Some {| chartName := "3d-coordinates"; divRef := Some 9;
                        ready := true |}) by reflexivity.
  split; [exact H|].
  exact (ready_only_after_drawing (M := SampleHost.host) None _ 0 _ H eq_refl).
Defined.

Lemma divRef_current_map pg pg' :
  map divRef (charts pg') = map divRef (charts pg) ->
  forall c, divRef_current pg' c = divRef_current pg c.
Proof.
  intros H c. unfold divRef_current.
  assert (E : nth_error (map divRef (charts pg')) c = nth_error (map divRef (charts pg)) c)
    by now rewrite H.
  rewrite !nth_error_map in E.
  destruct (nth_error (charts pg') c), (nth_error (charts pg) c); simpl in E;
    congruence.
Qed.

Lemma observed_frame pg pg' :
  map divRef (charts pg') = map divRef (charts pg) ->
  forall v w, asks v pg' w = asks v pg w
              /\ complaint v pg' w = complaint v pg w
              /\ readied pg' w = readied pg w.
Proof.
  intros H v w. unfold asks, drawing, complaint, readied.
  rewrite (divRef_current_map pg pg' H). now destruct v.
Qed.

(** One reaction to a fulfilled promise, observed. *)
Lemma react_fulfilled v w pg :
  let pg' := react (Fulfilled v) w pg in
  calls pg' = calls pg ++ asks v pg w
  /\ console pg' = console pg ++ complaint v pg w
  /\ charts pg' = match v with
                  | Some _ => mark_ready pg [w] (charts pg)
                  | None => charts pg
                  end
  /\ map divRef (charts pg') = map divRef (charts pg).
Proof.
  simpl. unfold catch_log, then_body, method_call, asks, drawing, complaint,
    mark_ready, readied. simpl.
  destruct (divRef_current pg (w_chart w)) as [div|].
  - destruct (w_layout w), v as [eng|]; simpl; rewrite ?app_nil_r;
      repeat split; try reflexivity;
      now apply update_nth_error_map.
  - destruct v; simpl; rewrite ?app_nil_r; repeat split; try reflexivity.
Qed.

Lemma mark_ready_frame pg pg' ws cs :
  map divRef (charts pg') = map divRef (charts pg) ->
  mark_ready pg' ws cs = mark_ready pg ws cs.
Proof.
  intros H. revert cs. unfold mark_ready.
  induction ws as [|w ws IH]; intros cs; [reflexivity|]. simpl.
  destruct (observed_frame pg pg' H None w) as (_ & _ & ->). apply IH.
Qed.

(** All the reactions to a fulfilled promise, observed: the waiters draw
    (or complain) one after the other, in the order they registered. *)
Lemma fold_react_fulfilled v ws : forall pg,
  let pg' := fold_left (fun pg' w => react (Fulfilled v) w pg') ws pg in
  calls pg' = calls pg ++ flat_map (asks v pg) ws
  /\ console pg' = console pg ++ flat_map (complaint v pg) ws
  /\ charts pg' = match v with
                  | Some _ => mark_ready pg ws (charts pg)
                  | None => charts pg
                  end
  /\ map divRef (charts pg') = map divRef (charts pg).
Proof.
  induction ws as [|w ws IH]; intros pg; cbv zeta; cbn [fold_left flat_map].
  - rewrite !app_nil_r. destruct v; repeat split; reflexivity.
  - destruct (react_fulfilled v w pg) as (Hc & Hl & Hch & Hd).
    destruct (IH (react (Fulfilled v) w pg)) as (Hc' & Hl' & Hch' & Hd').
    assert (Ea : flat_map (asks v (react (Fulfilled v) w pg)) ws
                 = flat_map (asks v pg) ws).
    { apply flat_map_ext. intros x.
      now destruct (observed_frame pg _ Hd v x) as (E & _ & _). }
    assert (Ec : flat_map (complaint v (react (Fulfilled v) w pg)) ws
                 = flat_map (complaint v pg) ws).
    { apply flat_map_ext. intros x.
      now destruct (observed_frame pg _ Hd v x) as (_ & E & _). }
    split; [|split; [|split]].
    + now rewrite Hc', Hc, Ea, <- app_assoc.
    + now rewrite Hl', Hl, Ec, <- app_assoc.
    + rewrite Hch'. destruct v as [eng|]; [|exact Hch].
      rewrite (mark_ready_frame pg _ ws _ Hd), Hch. reflexivity.
    + now rewrite Hd', Hd.
Qed.

Section Loaded.
  Context {M : HostMath}.

(** The script's [onload], on a page that is loading: the promise is
    fulfilled with [window.Plotly] and every waiter reacts. *)
Lemma script_load_observed pg s defines :
  loader_inv pg -> phase pg = Loading -> s < List.length (document_head pg) ->
  let v := match defines with Some eng => Some eng | None => window_Plotly pg end in
  let pg' := step pg (ScriptLoad s defines) in
  (exists p, _plotlyPromise pg' = Some p /\ promise_state pg' p = Fulfilled v)
  /\ phase pg' = Ready
  /\ window_Plotly pg' = v
  /\ waiting pg' = []
  /\ document_head pg' = document_head pg
  /\ uncaught pg' = uncaught pg
  /\ calls pg' = calls pg ++ flat_map (asks v pg) (waiting pg)
  /\ console pg' = console pg ++ flat_map (complaint v pg) (waiting pg)
  /\ charts pg' = match v with
                  | Some _ => mark_ready pg (waiting pg) (charts pg)
                  | None => charts pg
                  end.
Proof.
  intros Hinv Hph Hs v pg'.
  destruct (phase_loading pg Hph) as (p & Hp & Hst).
  pose proof Hinv as Hinv'. unfold loader_inv in Hinv'. rewrite Hp in Hinv'.
  destruct Hinv' as (Hlt & Hhead & Hws & _).
  assert (Hs0 : nth_error (document_head pg) s = Some (the_script p)).
  { rewrite Hhead in Hs |- *. simpl in Hs. now replace s with 0 by lia. }
  set (pg1 := match defines with
              | Some eng => with_window_Plotly (Some eng) pg
              | None => pg
              end).
  assert (Hv : window_Plotly pg1 = v) by (subst pg1 v; now destruct defines).
  assert (Hpg' : pg' = settle_and_react p (Fulfilled v) pg1).
  { subst pg'. simpl. rewrite Hs0. simpl settles. rewrite Hst, <- Hv. reflexivity. }
  assert (Hst1 : promise_state pg1 p = Pending) by (subst pg1; now destruct defines).
  assert (Hw1 : waiting pg1 = waiting pg) by (subst pg1; now destruct defines).
  set (pg0 := with_waiting [] (settle p (Fulfilled v) pg1)).
  assert (Hfold : pg' = fold_left (fun q w => react (Fulfilled v) w q) (waiting pg) pg0).
  { rewrite Hpg'. unfold settle_and_react. rewrite Hst1, Hw1.
    rewrite (filter_all_true (fun w => Nat.eqb (w_promise w) p)).
    - rewrite (filter_all_false (fun w => negb (Nat.eqb (w_promise w) p))); [reflexivity|].
      eapply Forall_impl; [|exact Hws]. intros w ->. now rewrite Nat.eqb_refl.
    - eapply Forall_impl; [|exact Hws]. intros w ->. apply Nat.eqb_refl. }
  destruct (fold_react_core (Fulfilled v) (waiting pg) pg0)
    as (C1 & C2 & C3 & C4 & C5 & C6).
  destruct (fold_react_fulfilled v (waiting pg) pg0) as (F1 & F2 & F3 & F4).
  cbv zeta in F1, F2, F3, F4. rewrite <- Hfold in *.
  assert (Hch0 : charts pg0 = charts pg) by (subst pg0 pg1; now destruct defines).
  assert (Hobs : forall w, asks v pg0 w = asks v pg w
                           /\ complaint v pg0 w = complaint v pg w
                           /\ readied pg0 w = readied pg w).
  { intros w. apply observed_frame. now rewrite Hch0. }
  assert (Hstate : promise_state pg' p = Fulfilled v).
  { assert (E : promise_state pg' p = promise_state (settle p (Fulfilled v) pg1) p)
      by (unfold promise_state; rewrite C3; reflexivity).
    rewrite E, settle_state, Nat.eqb_refl, Hst1.
    assert (Hlen : promises pg1 = promises pg) by (subst pg1; now destruct defines).
    rewrite Hlen. destruct (Nat.ltb_spec p (List.length (promises pg))); [reflexivity|lia]. }
  assert (Hpp : _plotlyPromise pg' = Some p).
  { rewrite C1. subst pg0 pg1. simpl. now destruct defines. }
  split; [eauto|]. split; [unfold phase; now rewrite Hpp, Hstate|].
  split; [rewrite C2; subst pg0; simpl; exact Hv|].
  split; [rewrite C5; reflexivity|].
  split; [rewrite C4; subst pg0 pg1; now destruct defines|].
  split; [rewrite C6; subst pg0 pg1; now destruct defines|].
  split; [|split].
  - rewrite F1. f_equal; [subst pg0 pg1; now destruct defines|].
    apply flat_map_ext. intros w. now destruct (Hobs w).
  - rewrite F2. f_equal; [subst pg0 pg1; now destruct defines|].
    apply flat_map_ext. intros w. now destruct (Hobs w) as (_ & ? & _).
  - rewrite F3. destruct v as [eng|]; [|exact Hch0].
    rewrite Hch0. apply mark_ready_frame. now rewrite Hch0.
Qed.

(** A loader whose promise was fulfilled with [undefined] never draws
    again. *)
Lemma step_poisoned pg ev p :
  loader_inv pg -> _plotlyPromise pg = Some p ->
  promise_state pg p = Fulfilled None ->
  plots (step pg ev) = plots pg
  /\ exists k, ready_flags (step pg ev) = ready_flags pg ++ repeat false k.
Proof.
  intros Hinv Hp Hst.
  assert (Hsame : plots pg = plots pg
                  /\ exists k, ready_flags pg = ready_flags pg ++ repeat false k).
  { split; [reflexivity|]. exists 0. simpl. now rewrite app_nil_r. }
  assert (Hnew : forall r name,
            exists k, ready_flags (new_chart name r pg) = ready_flags pg ++ repeat false k).
  { intros r name. exists 1. unfold ready_flags, new_chart. simpl.
    now rewrite map_app. }
  destruct ev as [ |name div|c|c|s defines|s|v]; simpl.
  - now rewrite (loadPlotly_memo p pg Hp).
  - unfold mount.
    destruct (PlotlyChart_render name false) as [[n|ph h]|err]; simpl;
      try (split; [reflexivity|apply Hnew]).
    unfold effect. destruct (call_def (CHARTS_get name)) as [d|err]; simpl;
      try (split; [reflexivity|apply Hnew]).
    unfold effect_body.
    rewrite (loadPlotly_memo p (new_chart name (Some div) pg) Hp).
    cbv beta iota zeta.
    change (promise_state (new_chart name (Some div) pg) p) with (promise_state pg p).
    rewrite Hst.
    destruct (react_fulfilled None
                {| w_promise := p; w_chart := List.length (charts pg);
                   w_data := JS.get "data" d; w_layout := JS.get "layout" d |}
                (new_chart name (Some div) pg)) as (F1 & _ & F3 & _).
    cbv zeta in F1, F3. unfold plots, ready_flags. rewrite F1, F3. simpl asks.
    rewrite app_nil_r. split; [reflexivity|apply Hnew].
  - split; [reflexivity|]. exists 0. simpl. rewrite app_nil_r.
    unfold ready_flags, set_divRef. simpl. now apply update_nth_error_map.
  - unfold cleanup, method_call.
    destruct (divRef_current pg c), (window_Plotly pg); simpl; try exact Hsame.
    split; [now apply plots_app|apply Hsame].
  - destruct (nth_error (document_head pg) s) as [sc|] eqn:Hs; try exact Hsame.
    pose proof (script_of_inv pg s sc Hinv Hs) as Hp'.
    rewrite Hp in Hp'. injection Hp' as <-. rewrite Hst. exact Hsame.
  - destruct (nth_error (document_head pg) s) as [sc|] eqn:Hs; try exact Hsame.
    pose proof (script_of_inv pg s sc Hinv Hs) as Hp'.
    rewrite Hp in Hp'. injection Hp' as <-.
    unfold settle_and_react. rewrite Hst. exact Hsame.
  - exact Hsame.
Qed.

Lemma run_poisoned evs : forall pg p,
  loader_inv pg -> _plotlyPromise pg = Some p ->
  promise_state pg p = Fulfilled None ->
  let pg' := run pg evs in
  phase pg' = Ready
  /\ document_head pg' = document_head pg
  /\ plots pg' = plots pg
  /\ exists k, ready_flags pg' = ready_flags pg ++ repeat false k.
Proof.
  induction evs as [|ev evs IH]; intros pg p Hinv Hp Hst; simpl.
  - repeat split; auto.
    + unfold phase. now rewrite Hp, Hst.
    + exists 0. simpl. now rewrite app_nil_r.
  - destruct (step_poisoned pg ev p Hinv Hp Hst) as (Hpl & k & Hk).
    destruct (step_loader pg ev p Hp) as (Hp' & Hh).
    assert (Hst' : promise_state (step pg ev) p = Fulfilled None).
    { apply (step_keeps pg ev p _ Hst). discriminate. }
    rewrite Hp in Hp'.
    destruct (IH (step pg ev) p (step_inv pg ev Hinv) Hp' Hst')
      as (H1 & H2 & H3 & k' & H4).
    repeat split; try congruence.
    exists (k + k'). rewrite H4, Hk, <- app_assoc. now rewrite repeat_app.
Qed.

End Loaded.

Section Loaded2.
  Context {M : HostMath}.

(** X3: when the script has loaded and defined the engine, every waiting
    chart whose container is still attached is drawn, with that one
    engine and in the order the charts were mounted, and becomes ready;
    a chart whose container is gone is skipped; nothing escapes. *)
Theorem load_draws_every_waiter
        (w : option Engine) (evs : list Event) (s : nat) (eng : Engine) :
  let pg := run (fresh_page w) evs in
  let pg' := step pg (ScriptLoad s (Some eng)) in
  phase pg = Loading -> s < List.length (document_head pg) ->
  phase pg' = Ready
  /\ window_Plotly pg' = Some eng
  /\ waiting pg' = []
  /\ document_head pg' = document_head pg
  /\ calls pg' = calls pg ++ flat_map (drawing eng pg) (waiting pg)
  /\ console pg' = console pg ++ flat_map (complaint (Some eng) pg) (waiting pg)
  /\ charts pg' = mark_ready pg (waiting pg) (charts pg)
  /\ uncaught pg' = uncaught pg.
Proof.
  intros pg pg' Hph Hs.
  assert (Hinv : loader_inv pg) by (apply run_inv, fresh_page_inv).
  destruct (script_load_observed pg s (Some eng) Hinv Hph Hs)
    as (_ & H1 & H2 & H3 & H4 & H5 & H6 & H7 & H8).
  cbv zeta in *. fold pg' in H1, H2, H3, H4, H5, H6, H7, H8.
  repeat split; assumption.
Qed.

(** X4: when the script loads without defining [window.Plotly], the promise
    is fulfilled with [undefined]: every waiting chart with a container
    logs a [TypeError], nothing is drawn and no chart becomes ready.  The
    loader keeps that promise for good: whatever happens later, also if
    [window.Plotly] is defined afterwards, no chart is ever drawn and no
    second script is fetched. *)
Theorem load_without_engine_draws_nothing
        (w : option Engine) (evs : list Event) (s : nat) :
  let pg := run (fresh_page w) evs in
  let pg' := step pg (ScriptLoad s None) in
  phase pg = Loading -> window_Plotly pg = None ->
  s < List.length (document_head pg) ->
  phase pg' = Ready
  /\ waiting pg' = []
  /\ calls pg' = calls pg
  /\ charts pg' = charts pg
  /\ console pg' = console pg ++ flat_map (complaint None pg) (waiting pg)
  /\ uncaught pg' = uncaught pg
  /\ forall evs',
       let pg'' := run pg' evs' in
       phase pg'' = Ready
       /\ document_head pg'' = document_head pg'
       /\ plots pg'' = plots pg'
       /\ exists k, ready_flags pg'' = ready_flags pg' ++ repeat false k.
Proof.
  intros pg pg' Hph Hwin Hs.
  assert (Hinv : loader_inv pg) by (apply run_inv, fresh_page_inv).
  destruct (script_load_observed pg s None Hinv Hph Hs)
    as ((p & Hp & Hst) & H1 & H2 & H3 & H4 & H5 & H6 & H7 & H8).
  cbv zeta in *. fold pg' in Hp, Hst, H1, H2, H3, H4, H5, H6, H7, H8.
  rewrite Hwin in *.
  assert (Hnil : forall l, flat_map (asks None pg) l = []).
  { clear. induction l as [|x l IH]; [reflexivity|exact IH]. }
  rewrite Hnil, app_nil_r in H6.
  repeat split; try assumption.
  all: destruct (run_poisoned evs' pg' p (step_inv pg _ Hinv) Hp Hst)
      as (R1 & R2 & R3 & R4); assumption.
Qed.

(** The layout of every registered descriptor is an object. *)
Lemma layout_is_object (id : string) :
  In id chart_ids ->
  exists def ps, JS.assoc id CHARTS = Some def /\ JS.get "layout" (def tt) = JObj ps.
Proof. intros H. each_chart H; eexists _, _; split; reflexivity. Qed.

Lemma update_last {A} (f : A -> A) (l : list A) (x : A) :
  update (List.length l) f (l ++ [x]) = l ++ [f x].
Proof. induction l as [|a l IH]; simpl; [reflexivity|now rewrite IH]. Qed.

(** X5: mounting a registered chart when the engine is there, either because
    the loader's promise was fulfilled with it or because the document
    carried it before any load: the chart is drawn by the reaction to
    the already fulfilled promise, which the mount itself sets off, with
    the data of its factory and the merged layout, and is ready; no
    script is appended and nobody is left waiting. *)
Theorem mount_when_loaded_draws_at_once
        (pg : Page) (id : string) (div : Container) (eng : Engine) :
  In id chart_ids ->
  (exists p, _plotlyPromise pg = Some p /\ promise_state pg p = Fulfilled (Some eng))
  \/ (_plotlyPromise pg = None /\ window_Plotly pg = Some eng) ->
  let pg' := step pg (Mount id div) in
  exists def,
    JS.assoc id CHARTS = Some def
    /\ calls pg' = calls pg ++ [NewPlot eng div (JS.get "data" (def tt))
                                        (fullLayout (JS.get "layout" (def tt)))
                                        plot_config]
    /\ charts pg' = charts pg ++ [{| chartName := id; divRef := Some div;
                                     ready := true |}]
    /\ document_head pg' = document_head pg
    /\ waiting pg' = waiting pg
    /\ console pg' = console pg
    /\ uncaught pg' = uncaught pg
    /\ _plotlyPromise pg' = _plotlyPromise pg.
Proof.
  intros Hid Hloaded pg'.
  destruct (layout_is_object id Hid) as (def & ps & Hdef & Hlay).
  exists def. split; [exact Hdef|].
  subst pg'. simpl. unfold mount, PlotlyChart_render, effect, CHARTS_get.
  rewrite Hdef. simpl call_def. cbv iota. simpl escape.
  unfold effect_body. rewrite Hlay.
  set (pg1 := new_chart id (Some div) pg).
  assert (Hdiv : forall q, charts q = charts pg1 ->
                 divRef_current q (List.length (charts pg)) = Some div).
  { intros q Hq. unfold divRef_current. rewrite Hq. unfold pg1, new_chart. simpl.
    rewrite nth_error_app2 by lia. now rewrite Nat.sub_diag. }
  destruct Hloaded as [(p & Hp & Hst)|(Hp & Hwin)].
  - rewrite (loadPlotly_memo p pg1 Hp). cbv beta iota zeta.
    change (promise_state pg1 p) with (promise_state pg p). rewrite Hst.
    simpl. unfold catch_log, then_body. rewrite (Hdiv pg1 eq_refl). simpl.
    unfold set_ready. simpl. rewrite update_last. repeat split.
  - unfold loadPlotly. change (_plotlyPromise pg1) with (_plotlyPromise pg).
    change (window_Plotly pg1) with (window_Plotly pg). rewrite Hp, Hwin.
    cbv beta iota zeta.
    assert (Hst : promise_state
                    (with_promises (promises pg1 ++ [Fulfilled (Some eng)]) pg1)
                    (List.length (promises pg1)) = Fulfilled (Some eng)).
    { unfold promise_state. simpl. rewrite app_nth2 by lia. now rewrite Nat.sub_diag. }
    rewrite Hst. simpl. unfold catch_log, then_body.
    match goal with
    | |- context [divRef_current ?q _] => rewrite (Hdiv q eq_refl)
    end.
    simpl.
    unfold set_ready. simpl. rewrite update_last. repeat split; auto.
Qed.

End Loaded2.

Lemma load_draws_every_waiter_witness :
  let pg := run (M := SampleHost.host) (fresh_page None)
              [Mount "3d-coordinates" 3; Mount "vector-field-3d" 4; DetachRef 0] in
  let pg' := step (M := SampleHost.host) pg (ScriptLoad 0 (Some 1)) in
  phase pg = Loading /\ 0 < List.length (document_head pg)
  /\ List.length (waiting pg) = 2
  /\ List.length (calls pg') = 1
  /\ ready_flags pg' = [false; true].
Proof.
  cbv zeta.
  assert (Hph : phase (run (M := SampleHost.host) (fresh_page None)
                         [Mount "3d-coordinates" 3; Mount "vector-field-3d" 4;
                          DetachRef 0]) = Loading) by reflexivity.
  assert (Hs : 0 < List.length
                     (document_head
                        (run (M := SampleHost.host) (fresh_page None)
                           [Mount "3d-coordinates" 3; Mount "vector-field-3d" 4;
                            DetachRef 0]))) by (simpl; lia).
  destruct (load_draws_every_waiter (M := SampleHost.host) None
              [Mount "3d-coordinates" 3; Mount "vector-field-3d" 4; DetachRef 0]
              0 1 Hph Hs) as (_ & _ & _ & _ & Hcalls & _ & Hcharts & _).
  split; [exact Hph|]. split; [exact Hs|]. split; [reflexivity|].
  split.
  - change (@Some nat 1) with (@Some Engine 1). rewrite Hcalls. reflexivity.
  - change (@Some nat 1) with (@Some Engine 1).
    unfold ready_flags. rewrite Hcharts. reflexivity.
Defined.

Lemma load_without_engine_draws_nothing_witness :
  let pg := run (M := SampleHost.host) (fresh_page None) [Mount "3d-coordinates" 3] in
  let pg' := step (M := SampleHost.host) pg (ScriptLoad 0 None) in
  phase pg = Loading /\ window_Plotly pg = None
  /\ 0 < List.length (document_head pg)
  /\ console pg' = [TypeError "Cannot read properties of undefined"]
  /\ plots (run (M := SampleHost.host) pg'
              [WindowPlotly (Some 1); Mount "helix-tangent" 5; ScriptLoad 0 (Some 1)])
     = [].
Proof.
  cbv zeta.
  assert (Hph : phase (run (M := SampleHost.host) (fresh_page None)
                         [Mount "3d-coordinates" 3]) = Loading) by reflexivity.
  assert (Hs : 0 < List.length
                     (document_head
                        (run (M := SampleHost.host) (fresh_page None)
                           [Mount "3d-coordinates" 3]))) by (simpl; lia).
  destruct (load_without_engine_draws_nothing (M := SampleHost.host) None
              [Mount "3d-coordinates" 3] 0 Hph eq_refl Hs)
    as (_ & _ & Hcalls & _ & Hcons & _ & Hlater).
  split; [exact Hph|]. split; [reflexivity|]. split; [exact Hs|]. split.
  - rewrite Hcons. reflexivity.
  - destruct (Hlater [WindowPlotly (Some 1); Mount "helix-tangent" 5;
                      ScriptLoad 0 (Some 1)]) as (_ & _ & Hplots & _).
    rewrite Hplots. unfold plots. rewrite Hcalls. reflexivity.
Defined.

Lemma mount_when_loaded_draws_at_once_witness :
  let pg := fresh_page (Some 1) in
  In "tangent-plane"%string chart_ids
  /\ (_plotlyPromise pg = None /\ window_Plotly pg = Some 1)
  /\ List.length (calls (step (M := SampleHost.host) pg (Mount "tangent-plane" 2))) = 1
  /\ document_head (step (M := SampleHost.host) pg (Mount "tangent-plane" 2)) = [].
Proof.
  cbv zeta.
  assert (Hid : In "tangent-plane"%string chart_ids) by (simpl; tauto).
  assert (Hl : _plotlyPromise (fresh_page (Some 1)) = None
               /\ window_Plotly (fresh_page (Some 1)) = Some 1) by (split; reflexivity).
  destruct (mount_when_loaded_draws_at_once (M := SampleHost.host)
              (fresh_page (Some 1)) "tangent-plane" 2 1 Hid (or_intror Hl))
    as (def & _ & Hcalls & _ & Hhead & _).
  split; [exact Hid|]. split; [exact Hl|]. split.
  - rewrite Hcalls. reflexivity.
  - rewrite Hhead. reflexivity.
Defined.

Section Lifecycle.
  Context {M : HostMath}.

(** X6: the cleanup purges a plot only while its container is attached.
    For every registered chart mounted on a fresh page and drawn when the
    script has loaded: on unmount, where React has cleared
    [divRef.current] by the time the cleanup runs, the guard skips the
    purge and the engine has received [newPlot] only; a cleanup that runs
    while the ref is still set asks the engine to purge that container,
    right after the [newPlot]. *)
Theorem unmount_does_not_purge (id : string) (div : Container) (eng : Engine) :
  In id chart_ids ->
  let drawn := run (fresh_page None) [Mount id div; ScriptLoad 0 (Some eng)] in
  exists def,
    JS.assoc id CHARTS = Some def
    /\ calls drawn = [NewPlot eng div (JS.get "data" (def tt))
                              (fullLayout (JS.get "layout" (def tt))) plot_config]
    /\ ready_flags drawn = [true]
    /\ calls (run drawn [DetachRef 0; Cleanup 0]) = calls drawn
    /\ calls (run drawn [Cleanup 0]) = calls drawn ++ [Purge eng div]
    /\ console (run drawn [DetachRef 0; Cleanup 0]) = []
    /\ uncaught (run drawn [DetachRef 0; Cleanup 0]) = []
    /\ List.length (document_head drawn) = 1.
Proof.
  intros Hid drawn.
  destruct (layout_is_object id Hid) as (def & ps & Hdef & Hlay).
  exists def. split; [exact Hdef|].
  subst drawn. unfold run. cbn [fold_left].
  assert (Hm : step (fresh_page None) (Mount id div)
               = {| _plotlyPromise := Some 0; window_Plotly := None;
                    promises := [Pending];
                    document_head := [the_script 0]; console := [];
                    charts := [{| chartName := id; divRef := Some div; ready := false |}];
                    waiting := [{| w_promise := 0; w_chart := 0;
                                   w_data := JS.get "data" (def tt);
                                   w_layout := JObj ps |}];
                    calls := []; uncaught := [] |}).
  { cbn [step]. unfold mount, PlotlyChart_render, effect, CHARTS_get.
    rewrite Hdef. cbn [call_def escape]. cbv iota. unfold effect_body.
    rewrite Hlay. reflexivity. }
  rewrite Hm, Hlay. repeat split.
Qed.

(** X7: once a chart is ready its container is as high as the layout the
    engine was given says: both come from [layout.height || 500], and for
    the registry that is 500, 520 or 550; until then the container has no
    height and the placeholder is shown. *)
Theorem ready_height_is_plotted_height (id : string) :
  In id chart_ids ->
  exists def h,
    JS.assoc id CHARTS = Some def
    /\ PlotlyChart_render id false = Normal (ChartView true (JNum 0%float))
    /\ PlotlyChart_render id true = Normal (ChartView false (JNum h))
    /\ JS.get "height" (fullLayout (JS.get "layout" (def tt))) = JNum h
    /\ (h = 500 \/ h = 520 \/ h = 550)%float.
Proof.
  intros Hid.
  each_chart Hid; eexists _, _;
    (split; [reflexivity|]); (split; [reflexivity|]);
    (split; [reflexivity|]); (split; [reflexivity|]); tauto.
Qed.

End Lifecycle.

Lemma unmount_does_not_purge_witness :
  In "double-integral"%string chart_ids
  /\ List.length
       (calls (run (M := SampleHost.host)
                 (run (M := SampleHost.host) (fresh_page None)
                    [Mount "double-integral" 8; ScriptLoad 0 (Some 2)])
                 [DetachRef 0; Cleanup 0])) = 1
  /\ List.length
       (calls (run (M := SampleHost.host)
                 (run (M := SampleHost.host) (fresh_page None)
                    [Mount "double-integral" 8; ScriptLoad 0 (Some 2)])
                 [Cleanup 0])) = 2.
Proof.
  assert (Hid : In "double-integral"%string chart_ids) by (simpl; tauto).
  split; [exact Hid|].
  destruct (unmount_does_not_purge (M := SampleHost.host) "double-integral" 8 2 Hid)
    as (def & _ & Hcalls & _ & Hun & Hre & _).
  cbv zeta in Hcalls, Hun, Hre.
  change (@Some nat 2) with (@Some Engine 2).
  split.
  - rewrite Hun, Hcalls. reflexivity.
  - rewrite Hre, Hcalls. reflexivity.
Defined.

Lemma ready_height_is_plotted_height_witness :
  In "gradient-vectors"%string chart_ids
  /\ exists h,
       PlotlyChart_render (M := SampleHost.host) "gradient-vectors" true
       = Normal (ChartView false (JNum h))
       /\ (h = 500 \/ h = 520 \/ h = 550)%float.
Proof.
  assert (Hid : In "gradient-vectors"%string chart_ids) by (simpl; tauto).
  split; [exact Hid|].
  destruct (ready_height_is_plotted_height (M := SampleHost.host) "gradient-vectors" Hid)
    as (def & h & _ & _ & Hr & _ & Hh).
  exists h. split; assumption.
Defined.

(** ** The shape of the descriptors *)

Section Shapes.
  Context {M : HostMath}.

Lemma well_formed_layout (d : jsval) :
  Shape.well_formed d = true -> exists ps, JS.get "layout" d = JObj ps.
Proof.
  unfold Shape.well_formed.
  destruct (JS.get "data" d) as [| | | | |[|t ts]|]; try discriminate.
  destruct (JS.get "layout" d); try discriminate. eauto.
Qed.

(** X8: every factory of the registry returns what the component takes apart:
    an object whose [data] is a non-empty array of traces, each an object
    with one of the six trace types the file uses, and whose [layout] is
    an object with a title.  So, once the engine is there, the [.then]
    callback of a registered chart never throws at [layout.height]. *)
Theorem descriptors_are_well_formed (id : string) :
  In id chart_ids ->
  exists def,
    JS.assoc id CHARTS = Some def
    /\ Shape.well_formed (def tt) = true
    /\ (forall c eng pg,
          exists pg',
            then_body c (JS.get "data" (def tt)) (JS.get "layout" (def tt))
                      (Some eng) pg = Normal pg').
Proof.
  intros Hid.
  assert (H : exists def, JS.assoc id CHARTS = Some def
                          /\ Shape.well_formed (def tt) = true).
  { each_chart Hid; eexists; (split; [reflexivity|]); vm_compute; reflexivity. }
  destruct H as (def & Hdef & Hwf). exists def. split; [exact Hdef|]. split; [exact Hwf|].
  intros c eng pg. destruct (well_formed_layout _ Hwf) as [ps ->].
  unfold then_body, method_call. destruct (divRef_current pg c); eauto.
Qed.

(** X9: every trace of every registered chart that is not a surface or a
    contour is a mesh, a cone or a scatter trace that carries every
    coordinate array of its type ([x], [y], [z]; [u], [v], [w] too for a
    cone; [x], [y] for a 2D scatter), all equally long; a mesh carries its
    index arrays [i], [j], [k], equally long; and [marker.angle], where
    there is one, has an angle per point. *)
Theorem point_traces_are_aligned (id : string) :
  In id chart_ids ->
  exists def,
    JS.assoc id CHARTS = Some def
    /\ Shape.points_aligned (def tt) = true.
Proof.
  intros Hid.
  each_chart Hid; eexists; (split; [reflexivity|]); vm_compute; reflexivity.
Qed.

End Shapes.

Lemma descriptors_are_well_formed_witness :
  In "riemann-sum"%string chart_ids
  /\ exists def,
       JS.assoc "riemann-sum" (CHARTS (M := SampleHost.host)) = Some def
       /\ Shape.well_formed (def tt) = true.
Proof.
  assert (Hid : In "riemann-sum"%string chart_ids) by (simpl; tauto).
  split; [exact Hid|].
  destruct (descriptors_are_well_formed (M := SampleHost.host) "riemann-sum" Hid)
    as (def & Hdef & Hwf & _).
  exists def. split; assumption.
Defined.

Lemma point_traces_are_aligned_witness :
  In "gradient-vectors"%string chart_ids
  /\ exists def,
       JS.assoc "gradient-vectors" (CHARTS (M := SampleHost.host)) = Some def
       /\ Shape.points_aligned (def tt) = true.
Proof.
  assert (Hid : In "gradient-vectors"%string chart_ids) by (simpl; tauto).
  split; [exact Hid|].
  exact (point_traces_are_aligned (M := SampleHost.host) "gradient-vectors" Hid).
Defined.

Local Open Scope float_scope.

(** ** Binary64 facts *)

Lemma SFcompare_refl (s : spec_float) :
  s <> S754_nan -> SFcompare s s = Some Eq.
Proof.
  destruct s as [sg| sg | |sg m e]; simpl; intros H; try congruence.
  - now destruct sg.
  - rewrite Z.compare_refl.
    assert (Pos.compare_cont Eq m m = Eq) by apply Pos.compare_cont_refl.
    destruct sg; now rewrite H0.
Qed.

(** Comparing equal to a finite non-zero number is being that number. *)
Lemma SFcompare_eq_finite (s : spec_float) (sg : bool) (m : positive) (e : Z) :
  SFcompare s (S754_finite sg m e) = Some Eq -> s = S754_finite sg m e.
Proof.
  destruct s as [sg'| sg' | |sg' m' e']; simpl; try discriminate.
  - destruct sg; discriminate.
  - destruct sg'; discriminate.
  - rewrite !Pos.compare_cont_spec. simpl Pos.switch_Eq.
    destruct sg', sg; try discriminate;
      destruct (Z.compare_spec e' e) as [->| |]; try discriminate;
      destruct (Pos.compare_spec m' m) as [->| |]; simpl; try discriminate;
      reflexivity.
Qed.

Lemma leb_cases (x c : float) :
  (x <=? c) = true -> (x <? c) = true \/ SFcompare (Prim2SF x) (Prim2SF c) = Some Eq.
Proof.
  rewrite FloatAxioms.leb_spec, FloatAxioms.ltb_spec. unfold SFleb, SFltb.
  destruct (SFcompare (Prim2SF x) (Prim2SF c)) as [[| |]|]; auto; discriminate.
Qed.

Lemma leb_not_nan (x c : float) : (x <=? c) = true -> PrimFloat.is_nan x = false.
Proof.
  rewrite FloatAxioms.leb_spec. unfold PrimFloat.is_nan. rewrite FloatAxioms.eqb_spec.
  unfold SFleb, SFeqb. intros H.
  rewrite SFcompare_refl; [reflexivity|].
  intros Hn. rewrite Hn in H. discriminate.
Qed.

(** The clamp of the option pricer: every [t <= 1e-6] becomes [1e-6]. *)
Lemma Math_max_clamp (t : float) :
  (t <=? 1e-6) = true -> Num.Math_max t 1e-6 = 1e-6.
Proof.
  intros Ht. unfold Num.Math_max.
  rewrite (leb_not_nan _ _ Ht). simpl orb.
  change (PrimFloat.is_nan 1e-6) with false. cbv iota.
  destruct (leb_cases _ _ Ht) as [Hlt|Heq].
  - now rewrite Hlt.
  - assert (Hs : Prim2SF t = Prim2SF 1e-6).
    { assert (Hc : exists m e, Prim2SF 1e-6 = S754_finite false m e)
        by (vm_compute; eauto).
      destruct Hc as (m & e & Hc). rewrite Hc in *.
      now apply SFcompare_eq_finite. }
    apply Prim2SF_inj in Hs. subst t. vm_compute. reflexivity.
Qed.

(** ** The option pricer at the money *)

Lemma SampleHost_conforms : AtTheMoney.conforms SampleHost.host.
Proof.
  constructor; try (vm_compute; reflexivity); vm_compute; tauto.
Qed.

Section AtTheMoneyLimit.
  Context {M : HostMath} (HM : AtTheMoney.conforms M).

Lemma bs_d1_atm : bs_d1 100 AtTheMoney.tt = AtTheMoney.d1.
Proof.
  unfold bs_d1. rewrite (AtTheMoney.sqrt_ieee M HM).
  change (100 / bs_K) with 1. rewrite (AtTheMoney.log_one M HM).
  reflexivity.
Qed.

(** Each of the five candidates for each of the three values of
    [Math.exp] is tried in turn. *)
Ltac each_exp H :=
  unfold ulp_ball in H; simpl in H;
  repeat (destruct H as [H | H]; [ | ]); [ .. | contradiction H ].

Lemma delta_atm : delta 100 0 = 1 - normCDF_p AtTheMoney.d1
                  /\ Num.within 1e-3 (delta 100 0) 0.5 = true.
Proof.
  assert (Hd : delta 100 0 = normCDF AtTheMoney.d1).
  { unfold delta. change (Num.Math_max 0 1e-6) with AtTheMoney.tt.
    now rewrite bs_d1_atm. }
  rewrite Hd. unfold normCDF.
  change (Num.gt AtTheMoney.d1 0) with true. cbv iota zeta.
  split; [reflexivity|].
  unfold normCDF_p.
  change (- AtTheMoney.d1 * AtTheMoney.d1 / 2) with AtTheMoney.arg1.
  pose proof (AtTheMoney.exp_arg1 M HM) as H1.
  unfold ulp_ball in H1; simpl in H1.
  repeat (destruct H1 as [H1 | H1]; [rewrite <- H1; vm_compute; reflexivity | ]).
  contradiction H1.
Qed.


Lemma bsCall_atm :
  Num.within 1e-2 (bsCall 100 0) (Num.Math_max (100 - 100) 0) = true
  /\ Num.gt (bsCall 100 0) 7e-3 = true.
Proof.
  assert (Hc : bsCall 100 0
               = 100 * normCDF AtTheMoney.d1
                 - 100 * Math_exp AtTheMoney.arg3 * normCDF AtTheMoney.d2).
  { unfold bsCall. change (Num.Math_max 0 1e-6) with AtTheMoney.tt.
    cbv zeta. rewrite bs_d1_atm. rewrite (AtTheMoney.sqrt_ieee M HM).
    reflexivity. }
  rewrite Hc. unfold normCDF.
  change (Num.gt AtTheMoney.d1 0) with true.
  change (Num.gt AtTheMoney.d2 0) with true. cbv iota zeta.
  unfold normCDF_p.
  change (- AtTheMoney.d1 * AtTheMoney.d1 / 2) with AtTheMoney.arg1.
  change (- AtTheMoney.d2 * AtTheMoney.d2 / 2) with AtTheMoney.arg2.
  pose proof (AtTheMoney.exp_arg1 M HM) as H1.
  pose proof (AtTheMoney.exp_arg2 M HM) as H2.
  pose proof (AtTheMoney.exp_arg3 M HM) as H3.
  unfold ulp_ball in H1, H2, H3; simpl in H1, H2, H3.
  repeat (destruct H1 as [H1 | H1]; [ | ]); try contradiction H1;
    rewrite <- H1; clear H1;
    repeat (destruct H2 as [H2 | H2]; [ | ]); try contradiction H2;
      rewrite <- H2; clear H2;
      repeat (destruct H3 as [H3 | H3]; [ | ]); try contradiction H3;
        rewrite <- H3; clear H3; vm_compute; split; reflexivity.
Qed.

End AtTheMoneyLimit.

(** C5, as stated, fails for the price: with the clamp, the call price at
    the money is the same for every [t <= 1e-6], about 0.008, so it does
    not approach [max(S - K, 0) = 0] as [t] goes to 0: no neighbourhood of
    0 brings it within 0.007. *)
Lemma price_limit_is_not_reached :
  ~ (forall M : HostMath, AtTheMoney.conforms M ->
       forall eps : float, (0 <? eps) = true ->
       exists t0 : float,
         (0 <? t0) = true
         /\ forall t : float, (0 <=? t) = true -> (t <? t0) = true ->
              Num.within eps (bsCall 100 t) (Num.Math_max (100 - 100) 0) = true).
Proof.
  intros H.
  destruct (H SampleHost.host SampleHost_conforms 7e-3 eq_refl) as (t0 & Ht0 & Hlim).
  specialize (Hlim 0 eq_refl Ht0).
  vm_compute in Hlim. discriminate Hlim.
Qed.

(** C5, amended: on a host whose [Math.log(1)] is 0, whose [Math.sqrt] is
    the IEEE square root at [1e-6] and whose [Math.exp] is within 2 units
    in the last place at the three arguments it is called with, every
    time to maturity [t <= 1e-6] (0 included) is clamped to [1e-6]; there,
    at stock price = strike = 100, the delta is within 1e-3 of 0.5, the
    call price is within 1e-2 of [max(S - K, 0)] (and above 0.007: the
    clamp keeps it from the limit), and the divisor [sigma * sqrt(tt)] is
    [0.0002], so nothing is divided by zero. *)
Theorem at_the_money_limit (M : HostMath) (t : float) :
  AtTheMoney.conforms M ->
  (t <=? 1e-6) = true ->
  Num.Math_max t 1e-6 = 1e-6
  /\ delta 100 t = delta 100 0
  /\ bsCall 100 t = bsCall 100 0
  /\ Num.within 1e-3 (delta 100 t) 0.5 = true
  /\ Num.within 1e-2 (bsCall 100 t) (Num.Math_max (100 - 100) 0) = true
  /\ Num.gt (bsCall 100 t) 7e-3 = true
  /\ bs_sigma * Math_sqrt (Num.Math_max t 1e-6) = 0.0002.
Proof.
  intros HM Ht.
  pose proof (Math_max_clamp t Ht) as Hclamp.
  assert (Hd : delta 100 t = delta 100 0).
  { unfold delta. rewrite Hclamp. reflexivity. }
  assert (Hc : bsCall 100 t = bsCall 100 0).
  { unfold bsCall. rewrite Hclamp. reflexivity. }
  destruct (delta_atm HM) as (_ & Hdelta).
  destruct (bsCall_atm HM) as (Hprice & Hfloor).
  rewrite Hd, Hc, Hclamp.
  repeat split; auto.
  change 1e-6 with AtTheMoney.tt.
  rewrite (AtTheMoney.sqrt_ieee M HM). vm_compute. reflexivity.
Qed.

Lemma at_the_money_limit_witness :
  AtTheMoney.conforms SampleHost.host
  /\ (0 <=? 1e-6) = true
  /\ Num.within 1e-3 (delta (M := SampleHost.host) 100 0) 0.5 = true.
Proof.
  split; [exact SampleHost_conforms|]. split; [reflexivity|].
  destruct (at_the_money_limit SampleHost.host 0 SampleHost_conforms eq_refl)
    as (_ & _ & _ & H & _).
  exact H.
Defined.


(** ** Rounding to binary64, from the specification of the operations *)

Module Round.

Local Open Scope Z_scope.

Lemma digits2_size (p : positive) : digits2_pos p = Pos.size p.
Proof. induction p; simpl; now rewrite ?IHp. Qed.

Lemma digits_bounds (p : positive) :
  2 ^ (Z.pos (digits2_pos p) - 1) <= Z.pos p < 2 ^ Z.pos (digits2_pos p).
Proof.
  rewrite digits2_size. split.
  - pose proof (Pos.size_le p) as H.
    apply Pos2Z.pos_le_pos in H. rewrite Pos2Z.inj_pow in H.
    replace (Z.pos (Pos.size p)) with (Z.succ (Z.pos (Pos.size p) - 1)) in H by lia.
    rewrite Z.pow_succ_r in H by lia. lia.
  - pose proof (Pos.size_gt p) as H.
    apply Pos2Z.pos_lt_pos in H. now rewrite Pos2Z.inj_pow in H.
Qed.

Lemma digits_unique (p : positive) (d : Z) :
  2 ^ (d - 1) <= Z.pos p < 2 ^ d -> Z.pos (digits2_pos p) = d.
Proof.
  intros [Hlo Hhi]. pose proof (digits_bounds p) as [Hlo' Hhi'].
  assert (0 < d).
  { destruct (Z.ltb_spec 0 d); auto.
    exfalso. destruct (Z.eq_dec d 0) as [->|]; [simpl in Hhi; lia|].
    rewrite Z.pow_neg_r in Hhi by lia. lia. }
  set (n := Z.pos (digits2_pos p)) in *.
  destruct (Z.lt_trichotomy n d) as [Hlt|[Heq|Hgt]]; auto; exfalso.
  - assert (2 ^ n <= 2 ^ (d - 1)) by (apply Z.pow_le_mono_r; lia). lia.
  - assert (2 ^ d <= 2 ^ (n - 1)) by (apply Z.pow_le_mono_r; lia). lia.
Qed.

Lemma shr_1_nonneg (m : Z) (r s : bool) :
  0 <= m ->
  shr_1 (Build_shr_record m r s) = Build_shr_record (m / 2) (Z.odd m) (r || s).
Proof.
  intros Hm. rewrite <- Z.div2_div.
  destruct m as [|p|p]; [reflexivity| |lia].
  destruct p; reflexivity.
Qed.

Lemma iter_pos_nat {A : Type} (f : A -> A) (p : positive) :
  forall x, iter_pos f p x = Nat.iter (Pos.to_nat p) f x.
Proof.
  assert (Hadd : forall n k x, Nat.iter n f (Nat.iter k f x) = Nat.iter (n + k) f x).
  { intros n k x. induction n; simpl; now rewrite ?IHn. }
  induction p as [p IH|p IH|]; intros x.
  - rewrite Pos2Nat.inj_xI. cbn [iter_pos]. rewrite !IH, Hadd.
    replace (S (2 * Pos.to_nat p))%nat with ((Pos.to_nat p + Pos.to_nat p) + 1)%nat by lia.
    now rewrite <- (Hadd _ 1%nat).
  - rewrite Pos2Nat.inj_xO. cbn [iter_pos]. rewrite !IH, Hadd. f_equal. lia.
  - reflexivity.
Qed.

(** Shifting [M] right by [k] bits: the quotient, and where the remainder
    lies with respect to half of [2^k]. *)
Lemma shr_iter (M : Z) (k : nat) :
  0 <= M ->
  let mrs := Nat.iter k shr_1 (Build_shr_record M false false) in
  let R := M mod 2 ^ Z.of_nat k in
  shr_m mrs = M / 2 ^ Z.of_nat k
  /\ loc_of_shr_record mrs
     = if R =? 0 then loc_Exact else loc_Inexact (R ?= 2 ^ (Z.of_nat k - 1)).
Proof.
  intros HM. induction k as [|k IH].
  - simpl. rewrite Z.div_1_r, Z.mod_1_r. auto.
  - cbv zeta in IH |- *. simpl Nat.iter.
    destruct (Nat.iter k shr_1 (Build_shr_record M false false)) as [m0 r s].
    simpl in IH. destruct IH as (Hm0 & Hloc).
    assert (Hpow : 0 < 2 ^ Z.of_nat k) by (apply Z.pow_pos_nonneg; lia).
    assert (Hm0' : 0 <= m0) by (subst m0; apply Z.div_pos; lia).
    rewrite shr_1_nonneg by assumption. simpl shr_m.
    rewrite Nat2Z.inj_succ, Z.pow_succ_r by lia.
    replace (Z.succ (Z.of_nat k) - 1) with (Z.of_nat k) by lia.
    split.
    + subst m0. rewrite Z.div_div by lia. f_equal. lia.
    + assert (HR : M mod (2 * 2 ^ Z.of_nat k)
                   = M mod 2 ^ Z.of_nat k + 2 ^ Z.of_nat k * (m0 mod 2)).
      { subst m0. rewrite (Z.mul_comm 2). rewrite Z.rem_mul_r by lia. reflexivity. }
      rewrite HR.
      pose proof (Z.mod_pos_bound M (2 ^ Z.of_nat k) Hpow) as HRb.
      set (R := M mod 2 ^ Z.of_nat k) in *.
      rewrite Zodd_mod. 
      pose proof (Z.mod_pos_bound m0 2 ltac:(lia)) as Hb.
      destruct (Z.eqb_spec R 0) as [HR0|HR0].
      * (* the remainder so far is zero *)
        assert (r = false /\ s = false) as [-> ->]
            by (destruct r, s; simpl in Hloc; try discriminate; auto).
        simpl orb.
        destruct (Z.eqb_spec (m0 mod 2) 1) as [H1|H1].
        -- rewrite H1. simpl.
           destruct (Z.eqb_spec (R + 2 ^ Z.of_nat k * 1) 0); [lia|].
           replace (R + 2 ^ Z.of_nat k * 1) with (2 ^ Z.of_nat k) by lia.
           now rewrite Z.compare_refl.
        -- assert (m0 mod 2 = 0) as -> by lia. simpl.
           destruct (Z.eqb_spec (R + 2 ^ Z.of_nat k * 0) 0); [reflexivity|lia].
      * assert (r || s = true) as ->
            by (destruct r, s; simpl in Hloc; try discriminate; auto).
        destruct (Z.eqb_spec (m0 mod 2) 1) as [H1|H1].
        -- rewrite H1. simpl.
           destruct (Z.eqb_spec (R + 2 ^ Z.of_nat k * 1) 0); [lia|].
           assert (R + 2 ^ Z.of_nat k * 1 > 2 ^ Z.of_nat k) by lia.
           now rewrite (proj2 (Z.compare_gt_iff _ _)) by lia.
        -- assert (m0 mod 2 = 0) as -> by lia. simpl.
           destruct (Z.eqb_spec (R + 2 ^ Z.of_nat k * 0) 0); [lia|].
           now rewrite (proj2 (Z.compare_lt_iff _ _)) by lia.
Qed.


Lemma fexp64 (z : Z) : fexp prec emax z = Z.max (z - 53) (-1074).
Proof. reflexivity. Qed.

Lemma shr_nonpos (mrs : shr_record) (e k : Z) : k <= 0 -> shr mrs e k = (mrs, e).
Proof. destruct k; [reflexivity|lia|reflexivity]. Qed.

(** A mantissa that already fits is kept as it is. *)
Lemma bra_exact (M : positive) (e : Z) :
  fexp prec emax (Z.pos (digits2_pos M) + e) <= e -> e <= 971 ->
  binary_round_aux prec emax false (Z.pos M) e loc_Exact = S754_finite false M e.
Proof.
  intros Hk He. unfold binary_round_aux, shr_fexp. simpl Zdigits2.
  rewrite shr_nonpos by lia. simpl shr_m. simpl loc_of_shr_record.
  simpl round_nearest_even. simpl Zdigits2. simpl shr_record_of_loc.
  rewrite shr_nonpos by lia. simpl shr_m.
  change (emax - prec) with 971.
  destruct (Z.leb_spec e 971); [reflexivity|lia].
Qed.

(** A mantissa of more than 53 bits, in the normal range, is rounded to
    nearest, ties to even. *)
Lemma bra_round (M : positive) (e : Z) :
  let k := Z.pos (digits2_pos M) - 53 in
  let m0 := Z.pos M / 2 ^ k in
  let R := Z.pos M mod 2 ^ k in
  let up := (2 ^ (k - 1) <? R) || ((R =? 2 ^ (k - 1)) && Z.odd m0) in
  let m1 := if up then m0 + 1 else m0 in
  0 < k -> -1074 <= e + k -> e + k + 1 <= 971 ->
  2 ^ 52 <= m0 < 2 ^ 53
  /\ binary_round_aux prec emax false (Z.pos M) e loc_Exact
     = if m1 =? 2 ^ 53 then S754_finite false (2 ^ 52)%positive (e + k + 1)
       else S754_finite false (Z.to_pos m1) (e + k).
Proof.
  intros k m0 R up m1 Hk Hlo Hhi.
  pose proof (digits_bounds M) as [Hd1 Hd2].
  assert (Hpk : 0 < 2 ^ k) by (apply Z.pow_pos_nonneg; lia).
  assert (Hm0 : 2 ^ 52 <= m0 < 2 ^ 53).
  { unfold m0. replace (Z.pos (digits2_pos M)) with (53 + k) in Hd2 by lia.
    replace (Z.pos (digits2_pos M) - 1) with (52 + k) in Hd1 by lia.
    rewrite Z.pow_add_r in Hd1, Hd2 by lia. split.
    - apply Z.div_le_lower_bound; lia.
    - apply Z.div_lt_upper_bound; lia. }
  split; [exact Hm0|].
  unfold binary_round_aux, shr_fexp. simpl Zdigits2.
  rewrite fexp64.
  replace (Z.max (Z.pos (digits2_pos M) + e - 53) (-1074) - e) with k by lia.
  destruct k as [|pk|pk] eqn:Ek; try lia.
  unfold shr at 1. simpl shr_record_of_loc. rewrite iter_pos_nat.
  destruct (shr_iter (Z.pos M) (Pos.to_nat pk) ltac:(lia)) as (Hm & Hloc).
  rewrite positive_nat_Z in Hm, Hloc.
  destruct (Nat.iter (Pos.to_nat pk) shr_1 (Build_shr_record (Z.pos M) false false))
    as [m0' r s] eqn:Eit.
  simpl shr_m in Hm. fold m0 in Hm. fold R in Hloc. subst m0'.
  simpl shr_m.
  assert (HR : 0 <= R < 2 ^ Z.pos pk) by (apply Z.mod_pos_bound; lia).
  assert (Hhalf : 2 * 2 ^ (Z.pos pk - 1) = 2 ^ Z.pos pk).
  { rewrite <- Z.pow_succ_r by lia. f_equal. lia. }
  assert (Hround : round_nearest_even m0 (loc_of_shr_record (Build_shr_record m0 r s)) = m1).
  { rewrite Hloc. unfold m1, up.
    set (h := 2 ^ (Z.pos pk - 1)) in *.
    destruct (Z.eqb_spec R 0) as [HR0|HR0].
    - cbn [round_nearest_even]. destruct (Z.ltb_spec h R); [lia|].
      destruct (Z.eqb_spec R h); [lia|]. reflexivity.
    - destruct (Z.compare_spec R h) as [Heq|Hlt|Hgt]; cbn [round_nearest_even].
      + destruct (Z.ltb_spec h R); [lia|].
        destruct (Z.eqb_spec R h); [|lia]. cbn [orb andb].
        rewrite <- Z.negb_odd. now destruct (Z.odd m0).
      + destruct (Z.ltb_spec h R); [lia|].
        destruct (Z.eqb_spec R h); [lia|]. reflexivity.
      + destruct (Z.ltb_spec h R); [|lia]. reflexivity. }
  rewrite Hround.
  assert (Hm1 : 2 ^ 52 <= m1 <= 2 ^ 53) by (unfold m1; destruct up; lia).
  clearbody m1. clear Hround.
  destruct m1 as [|p1|p1]; try lia.
  cbn [Zdigits2 shr_record_of_loc]. rewrite fexp64.
  destruct (Z.eqb_spec (Z.pos p1) (2 ^ 53)) as [H53|H53].
  - assert (Hd : Z.pos (digits2_pos p1) = 54) by (apply digits_unique; lia).
    rewrite Hd.
    replace (Z.max (54 + (e + Z.pos pk) - 53) (-1074) - (e + Z.pos pk)) with 1 by lia.
    injection H53 as ->. cbn [shr iter_pos shr_1 shr_m fst snd].
    change (emax - prec) with 971.
    destruct (Z.leb_spec (e + Z.pos pk + 1) 971); [reflexivity|lia].
  - assert (Hd : Z.pos (digits2_pos p1) = 53) by (apply digits_unique; lia).
    rewrite Hd, shr_nonpos by lia. cbn [shr_m].
    change (emax - prec) with 971.
    destruct (Z.leb_spec (e + Z.pos pk) 971); [reflexivity|lia].
Qed.


Lemma shl_align_spec (M : positive) (e e' : Z) :
  shl_align M e e'
  = if e' <? e then (Z.to_pos (Z.pos M * 2 ^ (e - e')), e') else (M, e).
Proof.
  unfold shl_align. destruct (Z.ltb_spec e' e) as [Hlt|Hge].
  - destruct (e' - e) as [|d|d] eqn:Ed; try lia.
    f_equal. change (Pos.iter xO M d) with (shift_pos d M).
    apply Pos2Z.inj. rewrite shift_pos_correct, Z2Pos.id.
    + rewrite Zpower_pos_nat, Zpower_nat_Z, positive_nat_Z.
      replace (e - e') with (Z.pos d) by lia. lia.
    + assert (0 < 2 ^ (e - e')) by (apply Z.pow_pos_nonneg; lia). lia.
  - destruct (e' - e) as [|d|d] eqn:Ed; try lia; reflexivity.
Qed.

(** An integer multiple [S * 2^ez] of a small power of two that lies within
    a quarter unit in the last place of [1] rounds to [1]. *)
Lemma round_to_one (S : positive) (ez : Z) :
  ez <= -53 ->
  4 * Z.abs (Z.pos S - 2 ^ (- ez)) <= 2 ^ (-52 - ez) ->
  binary_round prec emax false S ez = S754_finite false (2 ^ 52)%positive (-52).
Proof.
  intros Hez Hnear.
  set (k := -52 - ez) in *. assert (Hk : 1 <= k) by lia.
  assert (HT : 2 ^ (- ez) = 2 ^ 52 * 2 ^ k)
    by (rewrite <- Z.pow_add_r by lia; f_equal; lia).
  assert (Hpk : 2 <= 2 ^ k).
  { change 2 with (2 ^ 1) at 1. apply Z.pow_le_mono_r; lia. }
  unfold binary_round.
  destruct (Z.le_gt_cases (2 ^ (- ez)) (Z.pos S)) as [Hge|Hlt].
  - (* at or above one *)
    assert (Hd : Z.pos (digits2_pos S) = - ez + 1).
    { apply digits_unique. replace (- ez + 1 - 1) with (- ez) by lia.
      split; [exact Hge|]. rewrite Z.pow_add_r by lia. lia. }
    rewrite Hd, shl_align_spec, fexp64.
    replace (- ez + 1 + ez - 53) with (-52) by lia.
    replace (Z.max (-52) (-1074)) with (-52) by lia.
    destruct (Z.ltb_spec (-52) ez); [lia|].
    pose proof (bra_round S ez) as H0. cbv zeta in H0. rewrite Hd in H0.
    replace (- ez + 1 - 53) with k in H0 by lia.
    destruct H0 as (_ & ->); try lia.
    assert (Hq : Z.pos S / 2 ^ k = 2 ^ 52 /\ Z.pos S mod 2 ^ k = Z.pos S - 2 ^ (- ez)).
    { assert (Z.pos S = 2 ^ k * 2 ^ 52 + (Z.pos S - 2 ^ (- ez))) by lia.
      split; [symmetry; eapply Z.div_unique_pos|symmetry; eapply Z.mod_unique_pos];
        try eassumption; lia. }
    destruct Hq as (-> & ->).
    assert (Hhalf : 2 * 2 ^ (k - 1) = 2 ^ k).
    { rewrite <- Z.pow_succ_r by lia. f_equal. lia. }
    destruct (Z.ltb_spec (2 ^ (k - 1)) (Z.pos S - 2 ^ (- ez))); [lia|].
    destruct (Z.eqb_spec (Z.pos S - 2 ^ (- ez)) (2 ^ (k - 1))); [lia|].
    cbn [orb andb]. change (2 ^ 52 =? 2 ^ 53) with false. cbv iota.
    f_equal. lia.
  - (* below one *)
    assert (Hk2 : 2 <= k).
    { destruct (Z.eq_dec k 1) as [E|]; [|lia]. rewrite E in Hnear.
      change (2 ^ 1) with 2 in Hnear. lia. }
    assert (Hq4 : 4 * 2 ^ (k - 2) = 2 ^ k).
    { change 4 with (2 ^ 2). rewrite <- Z.pow_add_r by lia. f_equal. lia. }
    assert (Hhalf : 2 * 2 ^ (k - 1 - 1) = 2 ^ (k - 1)).
    { rewrite <- Z.pow_succ_r by lia. f_equal. lia. }
    assert (Hk1 : 2 * 2 ^ (k - 1) = 2 ^ k).
    { rewrite <- Z.pow_succ_r by lia. f_equal. lia. }
    replace (k - 1 - 1) with (k - 2) in Hhalf by lia.
    assert (HT' : 2 ^ (- ez) = 2 ^ 53 * 2 ^ (k - 1)).
    { rewrite <- Z.pow_add_r by lia. f_equal. lia. }
    assert (Hd : Z.pos (digits2_pos S) = - ez).
    { apply digits_unique. split; [|exact Hlt].
      replace (- ez) with (Z.succ (- ez - 1)) in HT, Hlt, Hnear by lia.
      rewrite Z.pow_succ_r in HT, Hlt, Hnear by lia. lia. }
    rewrite Hd, shl_align_spec, fexp64.
    replace (- ez + ez - 53) with (-53) by lia.
    replace (Z.max (-53) (-1074)) with (-53) by lia.
    destruct (Z.ltb_spec (-53) ez); [lia|].
    pose proof (bra_round S ez) as H0. cbv zeta in H0. rewrite Hd in H0.
    replace (- ez - 53) with (k - 1) in H0 by lia.
    destruct H0 as (_ & ->); try lia.
    assert (Hq : Z.pos S / 2 ^ (k - 1) = 2 ^ 53 - 1
                 /\ Z.pos S mod 2 ^ (k - 1) = 2 ^ (k - 1) - (2 ^ (- ez) - Z.pos S)).
    { assert (Z.pos S = 2 ^ (k - 1) * (2 ^ 53 - 1)
                        + (2 ^ (k - 1) - (2 ^ (- ez) - Z.pos S))) by lia.
      split; [symmetry; eapply Z.div_unique_pos|symmetry; eapply Z.mod_unique_pos];
        try eassumption; lia. }
    destruct Hq as (-> & ->).
    replace (k - 1 - 1) with (k - 2) by lia.
    set (R := 2 ^ (k - 1) - (2 ^ (- ez) - Z.pos S)) in *.
    assert (Hup : (2 ^ (k - 2) <? R) || (R =? 2 ^ (k - 2)) && Z.odd (2 ^ 53 - 1) = true).
    { change (Z.odd (2 ^ 53 - 1)) with true. rewrite andb_true_r.
      destruct (Z.ltb_spec (2 ^ (k - 2)) R); [reflexivity|].
      destruct (Z.eqb_spec R (2 ^ (k - 2))); [reflexivity|]. unfold R in *. lia. }
    rewrite Hup. replace (2 ^ 53 - 1 + 1) with (2 ^ 53) by lia.
    rewrite Z.eqb_refl. f_equal. lia.
Qed.


Lemma shl_align_fst (M : positive) (e ez : Z) :
  ez <= e -> Z.pos (fst (shl_align M e ez)) = Z.pos M * 2 ^ (e - ez).
Proof.
  intros Hle. rewrite shl_align_spec.
  destruct (Z.ltb_spec ez e); cbn [fst].
  - rewrite Z2Pos.id; [reflexivity|].
    apply Z.mul_pos_pos; [lia|]. apply Z.pow_pos_nonneg; lia.
  - replace (e - ez) with 0 by lia. change (2 ^ 0) with 1. lia.
Qed.

Lemma bounded_inv (m : positive) (e : Z) :
  bounded prec emax m e = true ->
  -1074 <= e <= 971 /\ Z.pos (digits2_pos m) <= 53 /\ Z.pos m < 2 ^ 53
  /\ (-1074 < e -> Z.pos (digits2_pos m) = 53).
Proof.
  unfold bounded, canonical_mantissa. rewrite andb_true_iff, fexp64.
  change (emax - prec) with 971.
  intros (Hc & He). apply Z.eqb_eq in Hc. apply Z.leb_le in He.
  pose proof (digits_bounds m) as [_ Hhi].
  assert (Hd : Z.pos (digits2_pos m) <= 53) by lia.
  repeat split; try lia.
  eapply Z.lt_le_trans; [exact Hhi|]. apply Z.pow_le_mono_r; lia.
Qed.

(** [1 - p] for a number [p = m * 2^e] below one: the difference is
    rounded by at most a quarter of the unit in the last place of [1] at
    the exponent where it is added back to [p]. *)
Lemma one_minus (m : positive) (e : Z) :
  bounded prec emax m e = true -> e <= -53 ->
  exists (mq : positive) (eq : Z),
    SF64sub (S754_finite false (2 ^ 52)%positive (-52)) (S754_finite false m e)
    = S754_finite false mq eq
    /\ Z.min eq e <= -53
    /\ 4 * Z.abs (Z.pos mq * 2 ^ (eq - Z.min eq e) + Z.pos m * 2 ^ (e - Z.min eq e)
                  - 2 ^ (- Z.min eq e))
       <= 2 ^ (-52 - Z.min eq e).
Proof.
  intros Hb He.
  destruct (bounded_inv m e Hb) as (Hrange & Hdm & Hm & _).
  unfold SF64sub, SFsub. cbv zeta.
  replace (Z.min (-52) e) with e by lia.
  unfold cond_Zopp.
  rewrite (shl_align_fst (2 ^ 52) (-52) e) by lia.
  rewrite (shl_align_fst m e e) by lia.
  replace (e - e) with 0 by lia. change (2 ^ 0) with 1. rewrite Z.mul_1_r.
  change (Z.pos (2 ^ 52)) with (2 ^ 52). rewrite <- Z.pow_add_r by lia.
  replace (52 + (-52 - e)) with (- e) by lia.
  assert (HT : 2 ^ 53 <= 2 ^ (- e)) by (apply Z.pow_le_mono_r; lia).
  destruct (2 ^ (- e) - Z.pos m) as [|D|D] eqn:ED; try lia.
  cbn [binary_normalize]. unfold binary_round.
  pose proof (digits_bounds D) as [HD1 HD2].
  set (dD := Z.pos (digits2_pos D)) in *.
  assert (HdD : dD <= - e).
  { destruct (Z.le_gt_cases dD (- e)); auto. exfalso.
    assert (2 ^ (- e) <= 2 ^ (dD - 1)) by (apply Z.pow_le_mono_r; lia). lia. }
  rewrite shl_align_spec, fexp64.
  set (e1 := Z.max (dD + e - 53) (-1074)).
  destruct (Z.ltb_spec e1 e) as [Hlt|Hge].
  - (* fewer than 53 bits are left: the difference is exact *)
    assert (Hpos : 0 < 2 ^ (e - e1)) by (apply Z.pow_pos_nonneg; lia).
    exists (Z.to_pos (Z.pos D * 2 ^ (e - e1))), e1.
    split; [|split].
    + rewrite bra_exact; [reflexivity| |lia].
      rewrite (digits_unique _ (dD + (e - e1))).
      * rewrite fexp64. unfold e1. lia.
      * rewrite Z2Pos.id by lia.
        replace (dD + (e - e1) - 1) with (dD - 1 + (e - e1)) by lia.
        rewrite !Z.pow_add_r by lia. split; nia.
    + lia.
    + replace (Z.min e1 e) with e1 by lia.
      rewrite Z2Pos.id by lia. replace (e1 - e1) with 0 by lia.
      rewrite Z.mul_1_r, <- Z.mul_add_distr_r.
      replace (Z.pos D + Z.pos m) with (2 ^ (- e)) by lia.
      rewrite <- Z.pow_add_r by lia. replace (- e + (e - e1)) with (- e1) by lia.
      rewrite Z.sub_diag. simpl Z.abs.
      assert (0 < 2 ^ (-52 - e1)) by (apply Z.pow_pos_nonneg; lia). lia.
  - destruct (Z.eq_dec e1 e) as [Heq|Hne].
    + (* exactly 53 bits, or a subnormal: exact again *)
      exists D, e. split; [|split].
      * apply bra_exact; [|lia]. rewrite fexp64. fold dD. fold e1. lia.
      * lia.
      * replace (Z.min e e) with e by lia. replace (e - e) with 0 by lia.
        rewrite !Z.mul_1_r. replace (Z.pos D + Z.pos m - 2 ^ (- e)) with 0 by lia.
        simpl Z.abs.
        assert (0 < 2 ^ (-52 - e)) by (apply Z.pow_pos_nonneg; lia). lia.
    + (* more than 53 bits: rounded to nearest *)
      assert (HkA : 0 < dD - 53) by (unfold e1 in *; lia).
      pose proof (bra_round D e) as H0. cbv zeta in H0. fold dD in H0.
      destruct H0 as (Hm0 & Hres); try (unfold e1 in *; lia).
      set (k := dD - 53) in *.
      set (m0 := Z.pos D / 2 ^ k) in *.
      set (R := Z.pos D mod 2 ^ k) in *.
      set (up := (2 ^ (k - 1) <? R) || (R =? 2 ^ (k - 1)) && Z.odd m0) in *.
      set (m1 := if up then m0 + 1 else m0) in *.
      assert (Hpk : 0 < 2 ^ k) by (apply Z.pow_pos_nonneg; lia).
      assert (HDR : Z.pos D = 2 ^ k * m0 + R) by (apply Z.div_mod; lia).
      assert (HR : 0 <= R < 2 ^ k) by (apply Z.mod_pos_bound; lia).
      assert (Hhalf : 2 * 2 ^ (k - 1) = 2 ^ k).
      { rewrite <- Z.pow_succ_r by lia. f_equal. lia. }
      assert (Herr : 2 * Z.abs (m1 * 2 ^ k - Z.pos D) <= 2 ^ k).
      { unfold m1, up.
        destruct (Z.ltb_spec (2 ^ (k - 1)) R); cbn [orb]; [lia|].
        destruct (Z.eqb_spec R (2 ^ (k - 1))); cbn [andb]; [|lia].
        destruct (Z.odd m0); lia. }
      assert (Hm1 : 2 ^ 52 <= m1 <= 2 ^ 53) by (unfold m1; destruct up; lia).
      assert (Hquarter : 2 * 2 ^ k <= 2 ^ (-52 - e)).
      { rewrite <- Z.pow_succ_r by lia. apply Z.pow_le_mono_r; unfold k; lia. }
      clearbody m1.
      destruct (Z.eqb_spec m1 (2 ^ 53)) as [E53|N53].
      * exists (2 ^ 52)%positive, (e + k + 1). split; [exact Hres|].
        replace (Z.min (e + k + 1) e) with e by lia. split; [lia|].
        replace (e + k + 1 - e) with (k + 1) by lia.
        replace (e - e) with 0 by lia. rewrite Z.mul_1_r.
        change (Z.pos (2 ^ 52)) with (2 ^ 52).
        rewrite Z.pow_add_r by lia. change (2 ^ 1) with 2.
        replace (2 ^ 52 * (2 ^ k * 2)) with (m1 * 2 ^ k) by (rewrite E53; lia).
        replace (m1 * 2 ^ k + Z.pos m - 2 ^ (- e)) with (m1 * 2 ^ k - Z.pos D) by lia.
        lia.
      * exists (Z.to_pos m1), (e + k). split; [exact Hres|].
        replace (Z.min (e + k) e) with e by lia. split; [lia|].
        replace (e + k - e) with k by lia.
        replace (e - e) with 0 by lia. rewrite Z.mul_1_r.
        rewrite Z2Pos.id by lia.
        replace (m1 * 2 ^ k + Z.pos m - 2 ^ (- e)) with (m1 * 2 ^ k - Z.pos D) by lia.
        lia.
Qed.


(** Adding [p] back to the rounded [1 - p] gives exactly [1], for every
    binary64 number [p] between 0 and 1. *)
Lemma one_minus_plus (p : float) :
  (0 <=? p)%float = true -> (p <=? 1)%float = true -> (1 - p + p)%float = 1%float.
Proof.
  intros H0 H1. apply Prim2SF_inj. rewrite FloatAxioms.add_spec, FloatAxioms.sub_spec.
  pose proof (Prim2SF_valid p) as Hv.
  rewrite FloatAxioms.leb_spec in H0, H1. unfold SFleb in H0, H1.
  change (Prim2SF 0) with (S754_zero false) in H0.
  assert (Hone : Prim2SF 1 = S754_finite false (2 ^ 52)%positive (-52))
    by (vm_compute; reflexivity).
  rewrite Hone in *.
  destruct (Prim2SF p) as [s|s| |s m e].
  - reflexivity.
  - destruct s; simpl in H0, H1; discriminate.
  - discriminate.
  - assert (s = false) as -> by (destruct s; [discriminate|reflexivity]).
    cbn [valid_binary] in Hv.
    destruct (bounded_inv m e Hv) as (Hrange & Hdm & Hm & Hnorm).
    cbn [SFcompare] in H1.
    destruct (Z.compare_spec e (-52)) as [Heq|Hlt|Hgt]; try discriminate.
    + (* the same exponent as 1: p is 1 *)
      subst e. assert (Hd : Z.pos (digits2_pos m) = 53) by (apply Hnorm; lia).
      pose proof (digits_bounds m) as [Hlo _]. rewrite Hd in Hlo.
      rewrite Pos.compare_cont_spec in H1. cbn [Pos.switch_Eq] in H1.
      assert (m = (2 ^ 52)%positive).
      { destruct (Pos.compare_spec m (2 ^ 52)%positive) as [E|L|G];
          try discriminate; auto.
        apply Pos2Z.pos_lt_pos in L. change (Z.pos (2 ^ 52)) with (2 ^ 52) in L.
        change (53 - 1) with 52 in Hlo. lia. }
      subst m. vm_compute. reflexivity.
    + (* below 1 *)
      destruct (one_minus m e Hv ltac:(lia)) as (mq & eq & -> & Hez & Hnear).
      unfold SF64add, SFadd. cbv zeta. unfold cond_Zopp.
      set (ez := Z.min eq e) in *.
      rewrite (shl_align_fst mq eq ez), (shl_align_fst m e ez) by lia.
      assert (Hp1 : 0 < 2 ^ (eq - ez)) by (apply Z.pow_pos_nonneg; lia).
      assert (Hp2 : 0 < 2 ^ (e - ez)) by (apply Z.pow_pos_nonneg; lia).
      destruct (Z.pos mq * 2 ^ (eq - ez) + Z.pos m * 2 ^ (e - ez)) as [|S|S] eqn:ES;
        try nia.
      cbn [binary_normalize]. now apply round_to_one.
Qed.

(** A positive integer multiple of a power of two, in the range of the
    normal numbers, rounds to a normal number. *)
Lemma binary_round_normal (I : positive) (e : Z) :
  -1021 <= Z.pos (digits2_pos I) + e <= 1023 ->
  exists (m' : positive) (e' : Z),
    binary_round prec emax false I e = S754_finite false m' e'
    /\ 2 ^ 52 <= Z.pos m' < 2 ^ 53
    /\ Z.pos (digits2_pos I) + e - 53 <= e' <= Z.pos (digits2_pos I) + e - 52.
Proof.
  intros Hr. unfold binary_round.
  pose proof (digits_bounds I) as [HI1 HI2].
  set (dI := Z.pos (digits2_pos I)) in *.
  rewrite shl_align_spec, fexp64.
  replace (Z.max (dI + e - 53) (-1074)) with (dI + e - 53) by lia.
  destruct (Z.ltb_spec (dI + e - 53) e) as [Hlt|Hge].
  - assert (Hpos : 0 < 2 ^ (e - (dI + e - 53))) by (apply Z.pow_pos_nonneg; lia).
    assert (Hb : 2 ^ 52 <= Z.pos I * 2 ^ (e - (dI + e - 53)) < 2 ^ 53).
    { replace (e - (dI + e - 53)) with (53 - dI) in * by lia.
      assert (H52 : 2 ^ 52 = 2 ^ (dI - 1) * 2 ^ (53 - dI))
        by (rewrite <- Z.pow_add_r by lia; f_equal; lia).
      assert (H53 : 2 ^ 53 = 2 ^ dI * 2 ^ (53 - dI))
        by (rewrite <- Z.pow_add_r by lia; f_equal; lia).
      rewrite H52, H53. split.
      - apply Z.mul_le_mono_nonneg_r; lia.
      - apply Z.mul_lt_mono_pos_r; lia. }
    exists (Z.to_pos (Z.pos I * 2 ^ (e - (dI + e - 53)))), (dI + e - 53).
    split; [|split; [rewrite Z2Pos.id by lia; exact Hb|lia]].
    apply bra_exact; [|lia].
    rewrite (digits_unique _ 53) by (rewrite Z2Pos.id by lia; exact Hb).
    rewrite fexp64. lia.
  - destruct (Z.eq_dec (dI + e - 53) e) as [Heq|Hne].
    + exists I, e. split; [|split].
      * apply bra_exact; [|lia]. fold dI. rewrite fexp64. lia.
      * replace dI with 53 in * by lia. exact (conj HI1 HI2).
      * lia.
    + pose proof (bra_round I e) as H0. cbv zeta in H0. fold dI in H0.
      destruct H0 as (Hm0 & Hres); try lia.
      set (k := dI - 53) in *.
      set (m0 := Z.pos I / 2 ^ k) in *.
      set (R := Z.pos I mod 2 ^ k) in *.
      set (up := (2 ^ (k - 1) <? R) || (R =? 2 ^ (k - 1)) && Z.odd m0) in *.
      set (m1 := if up then m0 + 1 else m0) in *.
      assert (Hm1 : 2 ^ 52 <= m1 <= 2 ^ 53) by (unfold m1; destruct up; lia).
      clearbody m1.
      destruct (Z.eqb_spec m1 (2 ^ 53)) as [E53|N53].
      * exists (2 ^ 52)%positive, (e + k + 1). split; [exact Hres|].
        split; [split; [reflexivity|reflexivity]|unfold k; lia].
      * exists (Z.to_pos m1), (e + k). split; [exact Hres|].
        rewrite Z2Pos.id by lia. split; [lia|unfold k; lia].
Qed.


(** A count between 2 and [2^63], as a number, less one: a positive number
    (so neither zero nor NaN), and a finite one. *)
Lemma count_minus_one (n : nat) :
  (2 <= n)%nat -> Z.of_nat n < 2 ^ 63 ->
  exists (m : positive) (e : Z),
    Prim2SF (Num.of_nat n - 1) = S754_finite false m e.
Proof.
  intros Hn Hbig. unfold Num.of_nat.
  rewrite FloatAxioms.sub_spec, of_uint63_spec, Uint63.of_Z_spec.
  rewrite Z.mod_small by (change wB with (2 ^ 63); lia).
  assert (Hone : Prim2SF 1 = S754_finite false (2 ^ 52)%positive (-52))
    by (vm_compute; reflexivity).
  rewrite Hone.
  destruct (Z.of_nat n) as [|N|N] eqn:EN; try lia.
  cbn [binary_normalize].
  pose proof (digits_bounds N) as [HN1 HN2].
  assert (HdN : 2 <= Z.pos (digits2_pos N) <= 63).
  { set (d := Z.pos (digits2_pos N)) in *. split.
    - destruct (Z.le_gt_cases 2 d); auto. exfalso.
      assert (2 ^ d <= 2 ^ 1) by (apply Z.pow_le_mono_r; lia).
      change (2 ^ 1) with 2 in *. lia.
    - destruct (Z.le_gt_cases d 63); auto. exfalso.
      assert (2 ^ 63 <= 2 ^ (d - 1)) by (apply Z.pow_le_mono_r; lia). lia. }
  destruct (binary_round_normal N 0 ltac:(lia)) as (mN & eN & -> & HmN & HeN).
  unfold SF64sub, SFsub. cbv zeta. unfold cond_Zopp.
  replace (Z.min eN (-52)) with (-52) by lia.
  rewrite (shl_align_fst mN eN (-52)), (shl_align_fst (2 ^ 52) (-52) (-52)) by lia.
  change (-52 - -52) with 0. change (2 ^ 0) with 1. rewrite Z.mul_1_r.
  change (Z.pos (2 ^ 52)) with (2 ^ 52).
  assert (Hp : 2 <= 2 ^ (eN - -52)).
  { change 2 with (2 ^ 1) at 1. apply Z.pow_le_mono_r; lia. }
  assert (Hq : 2 ^ (eN - -52) <= 2 ^ 63) by (apply Z.pow_le_mono_r; lia).
  destruct (Z.pos mN * 2 ^ (eN - -52) - 2 ^ 52) as [|I|I] eqn:EI; try nia.
  cbn [binary_normalize].
  pose proof (digits_bounds I) as [HI1 HI2].
  assert (HdI : 53 <= Z.pos (digits2_pos I) <= 116).
  { set (d := Z.pos (digits2_pos I)) in *. split.
    - destruct (Z.le_gt_cases 53 d); auto. exfalso.
      assert (2 ^ d <= 2 ^ 52) by (apply Z.pow_le_mono_r; lia). nia.
    - destruct (Z.le_gt_cases d 116); auto. exfalso.
      assert (2 ^ 116 <= 2 ^ (d - 1)) by (apply Z.pow_le_mono_r; lia).
      assert (Z.pos I < 2 ^ 53 * 2 ^ 63) by nia.
      change (2 ^ 53 * 2 ^ 63) with (2 ^ 116) in *. lia. }
  destruct (binary_round_normal I (-52) ltac:(lia)) as (m & e & -> & _).
  eauto.
Qed.

End Round.

(** A finite number is a zero or has a mantissa and an exponent. *)
Lemma finite_cases (x : float) :
  PrimFloat.is_finite x = true ->
  (exists s, Prim2SF x = S754_zero s) \/ (exists s m e, Prim2SF x = S754_finite s m e).
Proof.
  unfold PrimFloat.is_finite, PrimFloat.is_nan, PrimFloat.is_infinity.
  rewrite !FloatAxioms.eqb_spec, FloatAxioms.abs_spec.
  change (Prim2SF infinity) with (S754_infinity false).
  destruct (Prim2SF x) as [s|s| |s m e]; eauto.
  - destruct s; vm_compute; discriminate.
  - vm_compute; discriminate.
Qed.

(** C4, as stated, fails: with [start = 1e16] and [end = 1], [end - start]
    rounds to [-1e16], so the two-point [linspace] ends in [0], not in
    [1]; and with [start = 1e308] and [end = -1e308], [end - start]
    overflows, so it starts with NaN, not with [start]. *)
Lemma linspace_misses_endpoints :
  linspace 1e16 1 2 = [1e16; 0]
  /\ (JS.at_num (linspace 1e16 1 2) 1 =? 1) = false
  /\ linspace 1e308 (-1e308) 2 = [nan; neg_infinity]
  /\ (JS.at_num (linspace 1e308 (-1e308) 2) 0 =? 1e308) = false.
Proof. repeat split; vm_compute; reflexivity. Qed.

(** C4, amended: for a count of at least 2 that an array can have (below
    2^32; from there on [Array.from] throws a [RangeError]),
    [linspace(start, end, count)] returns an array of exactly [count]
    elements whose [i]-th element is the binary64 value of
    [start + (end - start) * i / (count - 1)]; the divisor [count - 1] is
    a positive finite number, and the first element [===] [start] whenever
    [start] is not NaN and [end - start] does not overflow.  The last
    element is that formula at [i = count - 1]; every call the registry
    makes starts exactly at [start] and ends exactly at [end], and
    [linspace(0, Math.PI, 300)] has length 300, first element 0 and a last
    element within 1e-9 of [Math.PI] (it is [Math.PI]). *)
Theorem linspace_spec (start end_ : float) (n : nat) :
  (2 <= n)%nat -> (Z.of_nat n < 2 ^ 32)%Z ->
  linspace_call start end_ n = Normal (linspace start end_ n)
  /\ List.length (linspace start end_ n) = n
  /\ (forall i, (i < n)%nat ->
        JS.at_num (linspace start end_ n) i
        = start + (end_ - start) * Num.of_nat i / (Num.of_nat n - 1))
  /\ (0 <? Num.of_nat n - 1) = true
  /\ (Num.of_nat n - 1 <? infinity) = true
  /\ (PrimFloat.is_nan start = false ->
      PrimFloat.is_finite (end_ - start) = true ->
      (JS.at_num (linspace start end_ n) 0 =? start) = true)
  /\ (forall m : nat, (2 ^ 32 <= Z.of_nat m)%Z ->
        linspace_call start end_ m = Throw (RangeError "Invalid array length"))
  /\ forallb hits_endpoints linspace_calls = true
  /\ List.length (linspace 0 Num.Math_PI 300) = 300%nat
  /\ JS.at_num (linspace 0 Num.Math_PI 300) 0 = 0
  /\ Num.within 1e-9 (JS.at_num (linspace 0 Num.Math_PI 300) 299) Num.Math_PI = true
  /\ JS.at_num (linspace 0 Num.Math_PI 300) 299 = Num.Math_PI.
Proof.
  intros Hn Hbig.
  split.
  { unfold linspace_call. now rewrite (proj2 (Z.ltb_lt _ _) Hbig). }
  split; [apply linspace_length|].
  split; [intros i Hi; now apply linspace_nth|].
  destruct (Round.count_minus_one n Hn ltac:(lia)) as (mq & eq & Hq).
  split; [rewrite FloatAxioms.ltb_spec, Hq; reflexivity|].
  split; [rewrite FloatAxioms.ltb_spec, Hq; reflexivity|].
  split.
  { intros Hnan Hfin. rewrite linspace_nth by lia.
    change (Num.of_nat 0) with 0.
    rewrite FloatAxioms.eqb_spec, FloatAxioms.add_spec, FloatAxioms.div_spec,
      FloatAxioms.mul_spec, Hq.
    change (Prim2SF 0) with (S754_zero false).
    unfold PrimFloat.is_nan in Hnan. rewrite FloatAxioms.eqb_spec in Hnan.
    destruct (finite_cases _ Hfin) as [(s & ->)|(s & m & e & ->)];
      destruct (Prim2SF start) as [s0|s0| |s0 m0 e0]; simpl in Hnan |- *;
      try discriminate; try reflexivity.
    all: try (destruct s0, s; reflexivity).
    all: try (destruct s0; reflexivity).
    all: now apply negb_false_iff in Hnan. }
  split.
  { intros m Hm. unfold linspace_call.
    now rewrite (proj2 (Z.ltb_ge _ _) Hm). }
  repeat split; vm_compute; reflexivity.
Qed.

Lemma linspace_spec_witness :
  (2 <= 60)%nat /\ (Z.of_nat 60 < 2 ^ 32)%Z
  /\ linspace_call 60 150 60 = Normal (linspace 60 150 60)
  /\ List.length (linspace 60 150 60) = 60%nat
  /\ (JS.at_num (linspace 60 150 60) 0 =? 60) = true
  /\ JS.at_num (linspace 60 150 60) 59 = 150.
Proof.
  assert (Hn : (2 <= 60)%nat) by lia.
  assert (Hb : (Z.of_nat 60 < 2 ^ 32)%Z) by reflexivity.
  split; [exact Hn|]. split; [exact Hb|].
  destruct (linspace_spec 60 150 60 Hn Hb) as (Hcall & Hlen & Hnth & _ & _ & H0 & _).
  split; [exact Hcall|]. split; [exact Hlen|].
  split.
  - apply H0; vm_compute; reflexivity.
  - rewrite Hnth by lia. vm_compute. reflexivity.
Defined.


(** ** Rounding is faithful: bounds on sums, products and quotients *)

Module Faithful.

Import Round Dyadic.

Local Open Scope Z_scope.

Lemma loc_exact_iff (m : Z) (r s : bool) :
  loc_of_shr_record (Build_shr_record m r s) = loc_Exact <-> r = false /\ s = false.
Proof. destruct r, s; simpl; split; intros H; try discriminate; intuition congruence. Qed.

(** Shifting any record right by [k] bits: the quotient, and when nothing
    was lost. *)
Lemma shr_iter_gen (r0 : shr_record) (k : nat) :
  0 <= shr_m r0 ->
  let r := Nat.iter k shr_1 r0 in
  shr_m r = shr_m r0 / 2 ^ Z.of_nat k
  /\ (loc_of_shr_record r = loc_Exact
      <-> loc_of_shr_record r0 = loc_Exact /\ shr_m r0 mod 2 ^ Z.of_nat k = 0).
Proof.
  intros H0. induction k as [|k IH].
  - simpl. rewrite Z.div_1_r, Z.mod_1_r. tauto.
  - cbv zeta in IH |- *. simpl Nat.iter.
    destruct (Nat.iter k shr_1 r0) as [mk rk sk].
    simpl shr_m in IH. destruct IH as (Hm & Hloc).
    assert (Hpow : 0 < 2 ^ Z.of_nat k) by (apply Z.pow_pos_nonneg; lia).
    assert (Hmk : 0 <= mk) by (subst mk; apply Z.div_pos; lia).
    rewrite shr_1_nonneg by assumption. simpl shr_m.
    rewrite Nat2Z.inj_succ, Z.pow_succ_r by lia.
    split.
    + subst mk. rewrite Z.div_div by lia. f_equal. lia.
    + rewrite loc_exact_iff. rewrite loc_exact_iff in Hloc.
      assert (HR : shr_m r0 mod (2 * 2 ^ Z.of_nat k)
                   = shr_m r0 mod 2 ^ Z.of_nat k + 2 ^ Z.of_nat k * (mk mod 2)).
      { subst mk. rewrite (Z.mul_comm 2). rewrite Z.rem_mul_r by lia. reflexivity. }
      rewrite HR.
      pose proof (Z.mod_pos_bound (shr_m r0) (2 ^ Z.of_nat k) Hpow) as HRb.
      pose proof (Z.mod_pos_bound mk 2 ltac:(lia)) as Hb.
      rewrite orb_false_iff, Zodd_mod.
      destruct (Z.eqb_spec (mk mod 2) 1) as [H1|H1].
      * rewrite H1. split; [intros (? & _); discriminate|]. intros (_ & ?). lia.
      * assert (mk mod 2 = 0) as -> by lia.
        split.
        -- intros (_ & Hrs). destruct (proj1 Hloc Hrs) as (? & ?). split; auto. lia.
        -- intros (He & Hmod). split; [destruct (Z.eqb_spec 0 1); [lia|reflexivity]|].
           apply Hloc. split; auto. lia.
Qed.

Lemma Zdigits2_nonneg (M : Z) : 0 <= Zdigits2 M.
Proof. destruct M; simpl; lia. Qed.

Lemma Zdigits2_bounds (M : Z) :
  0 < M -> 2 ^ (Zdigits2 M - 1) <= M < 2 ^ Zdigits2 M.
Proof. destruct M as [|p|p]; try lia. intros _. apply digits_bounds. Qed.

Lemma Zdigits2_unique (M d : Z) :
  2 ^ (d - 1) <= M < 2 ^ d -> 0 < M -> Zdigits2 M = d.
Proof.
  destruct M as [|p|p]; try lia. intros H _. simpl. now apply digits_unique.
Qed.

Lemma loc_of_record_of_loc (m : Z) (l : location) :
  loc_of_shr_record (shr_record_of_loc m l) = l
  /\ shr_m (shr_record_of_loc m l) = m.
Proof. destruct l as [|[| |]]; simpl; auto. Qed.

(** The first step of rounding: the mantissa is cut to the precision of
    the format. *)
Lemma shr_fexp_spec (M e : Z) (l : location) :
  0 <= M ->
  let k := Z.max (fexp prec emax (Zdigits2 M + e) - e) 0 in
  exists mrs,
    shr_fexp prec emax M e l = (mrs, e + k)
    /\ shr_m mrs = M / 2 ^ k
    /\ (loc_of_shr_record mrs = loc_Exact <-> l = loc_Exact /\ M mod 2 ^ k = 0).
Proof.
  intros HM k. unfold shr_fexp.
  destruct (loc_of_record_of_loc M l) as (Hl & Hm).
  destruct (fexp prec emax (Zdigits2 M + e) - e) as [|p|p] eqn:Ek; subst k.
  - exists (shr_record_of_loc M l). simpl. rewrite Z.add_0_r, Z.div_1_r, Z.mod_1_r.
    rewrite Hl. tauto.
  - cbn [shr]. eexists. split; [f_equal; lia|].
    rewrite iter_pos_nat.
    pose proof (shr_iter_gen (shr_record_of_loc M l) (Pos.to_nat p)) as H.
    rewrite Hm, Hl, positive_nat_Z in H. specialize (H HM). cbv zeta in H.
    replace (Z.max (Z.pos p) 0) with (Z.pos p) by lia. exact H.
  - exists (shr_record_of_loc M l). simpl. rewrite Z.add_0_r, Z.div_1_r, Z.mod_1_r.
    rewrite Hl. tauto.
Qed.

Lemma round_nearest_even_bounds (m : Z) (l : location) :
  m <= round_nearest_even m l <= m + 1
  /\ (l = loc_Exact -> round_nearest_even m l = m).
Proof.
  destruct l as [|[| |]]; simpl; try (destruct (Z.even m)); split; try lia;
    try reflexivity; discriminate.
Qed.

(** Rounding, step by step: cut to the precision, round to nearest even,
    cut again if the mantissa grew by a bit, and check the exponent. *)
Lemma bra_pipeline (s : bool) (M e : Z) (l : location) :
  0 <= M ->
  let k := Z.max (fexp prec emax (Zdigits2 M + e) - e) 0 in
  let m' := M / 2 ^ k in
  let e' := e + k in
  exists m1,
    m' <= m1 <= m' + 1
    /\ (l = loc_Exact -> M mod 2 ^ k = 0 -> m1 = m')
    /\ let k2 := Z.max (fexp prec emax (Zdigits2 m1 + e') - e') 0 in
       let m'' := m1 / 2 ^ k2 in
       let e'' := e' + k2 in
       0 <= m''
       /\ binary_round_aux prec emax s M e l
          = match m'' with
            | 0 => S754_zero s
            | Z.pos p => if e'' <=? 971 then S754_finite s p e'' else S754_infinity s
            | Z.neg _ => S754_nan
            end.
Proof.
  intros HM k m' e'.
  destruct (shr_fexp_spec M e l HM) as (mrs & Hshr & Hm & Hloc).
  fold k in Hshr, Hm, Hloc. fold m' in Hm. fold e' in Hshr.
  assert (Hk : 0 <= k) by (subst k; lia).
  assert (Hm' : 0 <= m') by (subst m'; apply Z.div_pos; [lia|apply Z.pow_pos_nonneg; lia]).
  set (m1 := round_nearest_even (shr_m mrs) (loc_of_shr_record mrs)).
  destruct (round_nearest_even_bounds (shr_m mrs) (loc_of_shr_record mrs)) as (Hb & Hex).
  fold m1 in Hb, Hex. rewrite Hm in Hb, Hex.
  exists m1. split; [exact Hb|]. split.
  { intros Hl Hmod. apply Hex. apply Hloc. auto. }
  intros k2 m'' e''.
  assert (Hm1 : 0 <= m1) by lia.
  destruct (shr_fexp_spec m1 e' loc_Exact Hm1) as (mrs2 & Hshr2 & Hm2 & _).
  fold k2 in Hshr2, Hm2. fold m'' in Hm2. fold e'' in Hshr2.
  assert (Hm'' : 0 <= m'')
    by (subst m''; apply Z.div_pos; [lia|apply Z.pow_pos_nonneg; subst k2; lia]).
  split; [exact Hm''|].
  unfold binary_round_aux. rewrite Hshr. fold m1. rewrite Hshr2, Hm2.
  reflexivity.
Qed.



Lemma w_pos (e : Z) : -2148 <= e -> 0 < w e.
Proof. intros. unfold w. apply Z.pow_pos_nonneg; lia. Qed.

Lemma w_add (e k : Z) : -2148 <= e -> 0 <= k -> w (e + k) = w e * 2 ^ k.
Proof.
  intros. unfold w. replace (e + k + 2148) with (e + 2148 + k) by lia.
  apply Z.pow_add_r; lia.
Qed.

Lemma fexp_mono (x y : Z) : x <= y -> fexp prec emax x <= fexp prec emax y.
Proof. rewrite !fexp64. lia. Qed.

Lemma bounded_canonical (m : positive) (e : Z) :
  bounded prec emax m e = true -> fexp prec emax (Z.pos (digits2_pos m) + e) = e.
Proof.
  unfold bounded, canonical_mantissa. rewrite andb_true_iff.
  intros (Hc & _). now apply Z.eqb_eq in Hc.
Qed.

(** A number of the format is below [2^1024]. *)
Lemma bounded_below_top (m : positive) (e : Z) :
  bounded prec emax m e = true -> Z.pos m * w e < 2 ^ (1024 + 2148).
Proof.
  intros Hb. destruct (bounded_inv m e Hb) as (He & _ & Hm & _).
  assert (w e <= w 971) by (unfold w; apply Z.pow_le_mono_r; lia).
  assert (0 < w e) by (apply w_pos; lia).
  change (2 ^ (1024 + 2148)) with (2 ^ 53 * w 971).
  nia.
Qed.

(** A positive number is at least the power of two of its magnitude. *)
Lemma magnitude_le (M e : Z) :
  0 < M -> -2148 <= e -> 2 ^ (Zdigits2 M - 1 + e + 2148) <= M * w e.
Proof.
  intros HM He. pose proof (Zdigits2_bounds M HM) as [Hlo _].
  assert (0 < Zdigits2 M) by (destruct M; simpl in *; lia).
  replace (Zdigits2 M - 1 + e + 2148) with ((Zdigits2 M - 1) + (e + 2148)) by lia.
  rewrite Z.pow_add_r by lia. fold (w e).
  apply Z.mul_le_mono_nonneg_r; [pose proof (w_pos e He); lia|exact Hlo].
Qed.

Lemma magnitude_lt (m : positive) (e : Z) :
  -2148 <= e -> Z.pos m * w e < 2 ^ (Z.pos (digits2_pos m) + e + 2148).
Proof.
  intros He. pose proof (digits_bounds m) as [_ Hhi].
  replace (Z.pos (digits2_pos m) + e + 2148)
    with (Z.pos (digits2_pos m) + (e + 2148)) by lia.
  rewrite Z.pow_add_r by lia. fold (w e).
  apply Z.mul_lt_mono_pos_r; [apply w_pos; lia|exact Hhi].
Qed.

(** Rounding never goes above a number of the format that is above the
    exact value. *)
Lemma bra_upper (M e : Z) (l : location) (mF : positive) (eF : Z) :
  0 <= M -> -2148 <= e ->
  e <= Z.max 971 (fexp prec emax (Zdigits2 M + e)) ->
  bounded prec emax mF eF = true ->
  (match l with loc_Exact => M | _ => M + 1 end) * w e <= Z.pos mF * w eF ->
  binary_round_aux prec emax false M e l = S754_zero false
  \/ exists m'' e'',
       binary_round_aux prec emax false M e l = S754_finite false m'' e''
       /\ -1074 <= e'' /\ Z.pos m'' * w e'' <= Z.pos mF * w eF.
Proof.
  intros HM He Hpre HF HU.
  set (U := match l with loc_Exact => M | _ => M + 1 end) in *.
  assert (HMU : M <= U) by (subst U; destruct l; lia).
  assert (HUex : U = M -> l = loc_Exact)
    by (subst U; destruct l; intros; [reflexivity|lia]).
  destruct (bra_pipeline false M e l HM) as (m1 & Hb & Hex & Hrest).
  cbv zeta in Hrest. destruct Hrest as (Hm''pos & HR).
  set (dM := Zdigits2 M) in *.
  set (k := Z.max (fexp prec emax (dM + e) - e) 0) in *.
  set (m' := M / 2 ^ k) in *. set (e' := e + k) in *.
  set (k2 := Z.max (fexp prec emax (Zdigits2 m1 + e') - e') 0) in *.
  set (m'' := m1 / 2 ^ k2) in *. set (e'' := e' + k2) in *.
  set (Fv := Z.pos mF * w eF) in *.
  destruct (bounded_inv mF eF HF) as (HeF & HdF & HmF & _).
  pose proof (bounded_canonical mF eF HF) as HcF.
  assert (Hk : 0 <= k) by (subst k; lia).
  assert (Hk2 : 0 <= k2) by (subst k2; lia).
  assert (Hwe : 0 < w e) by now apply w_pos.
  assert (He' : -2148 <= e') by (subst e'; lia).
  assert (Hwe' : w e' = w e * 2 ^ k) by (subst e'; now apply w_add).
  assert (Hpk : 0 < 2 ^ k) by (apply Z.pow_pos_nonneg; lia).
  assert (Hpk2 : 0 < 2 ^ k2) by (apply Z.pow_pos_nonneg; lia).
  assert (Hm' : 0 <= m') by (subst m'; apply Z.div_pos; lia).
  assert (Hfloor : m' * 2 ^ k <= M) by (subst m'; rewrite Z.mul_comm; apply Z.mul_div_le; lia).
  assert (He'lo : -1074 <= e').
  { subst e' k. rewrite fexp64. lia. }
  (* the rounded mantissa stays below the bound *)
  assert (HA : m1 * w e' <= Fv).
  { destruct (Z.eq_dec k 0) as [Hk0|Hk0].
    - assert (Hm'M : m' = M) by (subst m'; rewrite Hk0; apply Z.div_1_r).
      assert (Hmod : M mod 2 ^ k = 0) by (rewrite Hk0; apply Z.mod_1_r).
      assert (m1 <= U).
      { destruct (Z.eq_dec U M) as [HUM|HUM].
        - rewrite (Hex (HUex HUM) Hmod). lia.
        - lia. }
      assert (Hww : w e' = w e) by (rewrite Hwe', Hk0; change (2 ^ 0) with 1; lia).
      rewrite Hww.
      apply Z.le_trans with (U * w e); [|exact HU].
      apply Z.mul_le_mono_nonneg_r; lia.
    - assert (Hke : e' = fexp prec emax (dM + e)) by (subst e' k; lia).
      destruct (Z.eq_dec U 0) as [HU0|HU0].
      { assert (M = 0) by lia. assert (m' = 0) by (subst m' M; apply Z.div_0_l; lia).
        assert (Hmod : M mod 2 ^ k = 0) by (subst M; apply Z.mod_0_l; lia).
        rewrite (Hex (HUex ltac:(lia)) Hmod). 
        subst Fv. pose proof (w_pos eF ltac:(lia)). nia. }
      assert (Hmag : dM + e <= Z.pos (digits2_pos mF) + eF).
      { destruct (Z.le_gt_cases (dM + e) (Z.pos (digits2_pos mF) + eF)) as [|Hlt]; auto.
        exfalso.
        pose proof (magnitude_lt mF eF ltac:(lia)) as H1. fold Fv in H1.
        assert (H2 : 2 ^ (Z.pos (digits2_pos mF) + eF + 2148) <= 2 ^ (dM - 1 + e + 2148))
          by (apply Z.pow_le_mono_r; lia).
        assert (H3 : 2 ^ (dM - 1 + e + 2148) <= U * w e).
        { destruct (Z.eq_dec M 0) as [HM0|HM0].
          - subst dM. rewrite HM0. simpl Zdigits2.
            apply Z.le_trans with (w e).
            + unfold w. apply Z.pow_le_mono_r; lia.
            + nia.
          - apply Z.le_trans with (M * w e).
            + apply magnitude_le; lia.
            + apply Z.mul_le_mono_nonneg_r; lia. }
        lia. }
      assert (HeFe' : e' <= eF).
      { rewrite Hke, <- HcF. now apply fexp_mono. }
      set (N := Z.pos mF * 2 ^ (eF - e')).
      assert (HFN : Fv = N * w e').
      { subst Fv N. replace eF with (e' + (eF - e')) at 1 by lia.
        rewrite w_add by lia. ring. }
      assert (HUN : U <= N * 2 ^ k).
      { apply (Z.mul_le_mono_pos_r _ _ (w e)); [exact Hwe|].
        replace (N * 2 ^ k * w e) with (N * w e') by (rewrite Hwe'; ring).
        now rewrite <- HFN. }
      assert (Hm1N : m1 <= N).
      { destruct (Z.le_gt_cases m1 N) as [|Hgt]; auto. exfalso.
        assert (N <= m') by lia.
        assert (N * 2 ^ k <= m' * 2 ^ k) by (apply Z.mul_le_mono_nonneg_r; lia).
        assert (HMeq : M = U) by lia.
        assert (HMk : M = m' * 2 ^ k) by lia.
        assert (Hmod : M mod 2 ^ k = 0).
        { rewrite HMk. apply Z.mod_mul. lia. }
        assert (HNm : N = m') by (apply (Z.mul_cancel_r _ _ (2 ^ k)); lia).
        rewrite (Hex (HUex (eq_sym HMeq)) Hmod) in Hgt. lia. }
      rewrite HFN. apply Z.mul_le_mono_nonneg_r; [|exact Hm1N].
      pose proof (w_pos e' He'). lia. }
  assert (Hwe'' : w e'' = w e' * 2 ^ k2) by (subst e''; now apply w_add).
  assert (Hfloor2 : m'' * 2 ^ k2 <= m1)
    by (subst m''; rewrite Z.mul_comm; apply Z.mul_div_le; lia).
  assert (HB : m'' * w e'' <= Fv).
  { apply Z.le_trans with (m1 * w e'); [|exact HA].
    rewrite Hwe''. pose proof (w_pos e' He'). nia. }
  rewrite HR.
  destruct m'' as [|p|p] eqn:Em''; [left; reflexivity| |lia].
  right.
  assert (Hm1pos : 0 < m1) by nia.
  destruct (Z.leb_spec e'' 971) as [Hfin|Hinf].
  - exists p, e''. split; [reflexivity|]. split; [subst e''; lia|exact HB].
  - exfalso.
    pose proof (bounded_below_top mF eF HF) as Htop. fold Fv in Htop.
    assert (Hbig : 2 ^ (1024 + 2148) <= m1 * w e').
    { destruct (Z.eq_dec k2 0) as [Hk20|Hk20].
      - (* no second cut *)
        assert (He''e' : e'' = e') by (subst e''; lia).
        assert (Hfe : e' = fexp prec emax (dM + e)).
        { subst e' k. rewrite fexp64 in *. lia. }
        assert (HMpos : 0 < M).
        { destruct (Z.eq_dec M 0) as [HM0|]; [|lia]. exfalso.
          subst dM. rewrite HM0 in Hfe. simpl Zdigits2 in Hfe. rewrite fexp64 in Hfe.
          subst e' k. lia. }
        exfalso.
        assert (2 ^ (1024 + 2148) <= M * w e).
        { apply Z.le_trans with (2 ^ (dM - 1 + e + 2148)).
          * apply Z.pow_le_mono_r; [lia|]. rewrite fexp64 in Hfe. lia.
          * apply magnitude_le; lia. }
        assert (M * w e <= U * w e) by (apply Z.mul_le_mono_nonneg_r; lia).
        lia.
      - assert (He''f : e'' = fexp prec emax (Zdigits2 m1 + e')) by (subst e'' k2; lia).
        apply Z.le_trans with (2 ^ (Zdigits2 m1 - 1 + e' + 2148)).
        + apply Z.pow_le_mono_r; [lia|]. rewrite fexp64 in He''f. lia.
        + apply magnitude_le; lia. }
    lia.
Qed.


(** Rounding never goes below a number of the format that is below the
    exact value. *)
Lemma bra_lower (M e : Z) (l : location) (mF : positive) (eF : Z) :
  0 <= M -> -2148 <= e ->
  bounded prec emax mF eF = true ->
  Z.pos mF * w eF <= M * w e ->
  binary_round_aux prec emax false M e l = S754_infinity false
  \/ exists m'' e'',
       binary_round_aux prec emax false M e l = S754_finite false m'' e''
       /\ -1074 <= e'' /\ Z.pos mF * w eF <= Z.pos m'' * w e''.
Proof.
  intros HM He HF HL.
  destruct (bra_pipeline false M e l HM) as (m1 & Hb & _ & Hrest).
  cbv zeta in Hrest. destruct Hrest as (Hm''pos & HR).
  set (dM := Zdigits2 M) in *.
  set (k := Z.max (fexp prec emax (dM + e) - e) 0) in *.
  set (m' := M / 2 ^ k) in *. set (e' := e + k) in *.
  set (k2 := Z.max (fexp prec emax (Zdigits2 m1 + e') - e') 0) in *.
  set (m'' := m1 / 2 ^ k2) in *. set (e'' := e' + k2) in *.
  set (Fv := Z.pos mF * w eF) in *.
  destruct (bounded_inv mF eF HF) as (HeF & HdF & HmF & _).
  pose proof (bounded_canonical mF eF HF) as HcF.
  assert (Hk : 0 <= k) by (subst k; lia).
  assert (Hk2 : 0 <= k2) by (subst k2; lia).
  assert (Hwe : 0 < w e) by now apply w_pos.
  assert (HweF : 0 < w eF) by (apply w_pos; lia).
  assert (HFpos : 0 < Fv) by (subst Fv; apply Z.mul_pos_pos; lia).
  assert (HMpos : 0 < M) by nia.
  assert (He' : -2148 <= e') by (subst e'; lia).
  assert (Hwe' : w e' = w e * 2 ^ k) by (subst e'; now apply w_add).
  assert (Hpk : 0 < 2 ^ k) by (apply Z.pow_pos_nonneg; lia).
  assert (Hpk2 : 0 < 2 ^ k2) by (apply Z.pow_pos_nonneg; lia).
  assert (He'lo : -1074 <= e') by (subst e' k; rewrite fexp64; lia).
  pose proof (Zdigits2_bounds M HMpos) as [HdMlo HdMhi]. fold dM in HdMlo, HdMhi.
  assert (HdMpos : 0 < dM) by (subst dM; destruct M; simpl in *; lia).
  (* the cut mantissa stays above the bound *)
  assert (HA : Fv <= m' * w e').
  { destruct (Z.eq_dec k 0) as [Hk0|Hk0].
    - assert (Hm'M : m' = M) by (subst m'; rewrite Hk0; apply Z.div_1_r).
      assert (Hww : w e' = w e) by (rewrite Hwe', Hk0; change (2 ^ 0) with 1; lia).
      now rewrite Hm'M, Hww.
    - assert (Hke : e' = fexp prec emax (dM + e)) by (subst e' k; lia).
      destruct (Z.le_gt_cases (dM + e) (Z.pos (digits2_pos mF) + eF)) as [Hmag|Hmag].
      + (* the bound is on the grid of the result *)
        assert (HeFe' : e' <= eF) by (rewrite Hke, <- HcF; now apply fexp_mono).
        set (N := Z.pos mF * 2 ^ (eF - e')).
        assert (HFN : Fv = N * w e').
        { subst Fv N. replace eF with (e' + (eF - e')) at 1 by lia.
          rewrite w_add by lia. ring. }
        assert (HNM : N * 2 ^ k <= M).
        { apply (Z.mul_le_mono_pos_r _ _ (w e)); [exact Hwe|].
          replace (N * 2 ^ k * w e) with (N * w e') by (rewrite Hwe'; ring).
          now rewrite <- HFN. }
        assert (HNm' : N <= m').
        { subst m'. apply Z.div_le_lower_bound; [lia|]. now rewrite Z.mul_comm. }
        rewrite HFN. apply Z.mul_le_mono_nonneg_r; [|exact HNm'].
        pose proof (w_pos e' He'). lia.
      + (* the bound is of a smaller magnitude *)
        pose proof (magnitude_lt mF eF ltac:(lia)) as H1. fold Fv in H1.
        assert (H2 : 2 ^ (Z.pos (digits2_pos mF) + eF + 2148) <= 2 ^ (dM - 1 + e + 2148))
          by (apply Z.pow_le_mono_r; lia).
        assert (Hkd : k <= dM - 1).
        { subst k. rewrite fexp64. 
          assert (0 < Z.pos (digits2_pos mF)) by lia. lia. }
        assert (Hm'lo : 2 ^ (dM - 1 - k) <= m').
        { subst m'. apply Z.div_le_lower_bound; [lia|].
          rewrite <- Z.pow_add_r by lia. now replace (k + (dM - 1 - k)) with (dM - 1) by lia. }
        assert (H3 : 2 ^ (dM - 1 + e + 2148) <= m' * w e').
        { replace (dM - 1 + e + 2148) with ((dM - 1 - k) + (e' + 2148)) by (subst e'; lia).
          rewrite Z.pow_add_r by lia. fold (w e').
          apply Z.mul_le_mono_nonneg_r; [pose proof (w_pos e' He'); lia|exact Hm'lo]. }
        lia. }
  assert (Hm'pos : 0 < m').
  { pose proof (w_pos e' He'). nia. }
  (* after the first cut the mantissa fits *)
  assert (Hfit : fexp prec emax (Zdigits2 m' + e') <= e').
  { destruct (Z.eq_dec k 0) as [Hk0|Hk0].
    - assert (Hm'M : m' = M) by (subst m'; rewrite Hk0; apply Z.div_1_r).
      rewrite Hm'M. fold dM. subst e'. rewrite Hk0, Z.add_0_r. subst k. lia.
    - assert (Hkd : k <= dM - 1).
      { destruct (Z.le_gt_cases k (dM - 1)) as [|Hgt]; auto. exfalso.
        assert (2 ^ dM <= 2 ^ k) by (apply Z.pow_le_mono_r; lia).
        assert (m' = 0) by (subst m'; apply Z.div_small; lia). lia. }
      assert (Hd' : Zdigits2 m' = dM - k).
      { apply Zdigits2_unique; [|exact Hm'pos]. split.
        - subst m'. apply Z.div_le_lower_bound; [lia|].
          rewrite <- Z.pow_add_r by lia.
          now replace (k + (dM - k - 1)) with (dM - 1) by lia.
        - subst m'. apply Z.div_lt_upper_bound; [lia|].
          rewrite <- Z.pow_add_r by lia.
          now replace (k + (dM - k)) with dM by lia. }
      rewrite Hd'. replace (dM - k + e') with (dM + e) by (subst e'; lia).
      subst e' k. lia. }
  (* so the second cut loses nothing *)
  assert (Hexact : m'' * 2 ^ k2 = m1).
  { destruct (Z.eq_dec k2 0) as [Hk20|Hk20].
    - subst m''. rewrite Hk20. change (2 ^ 0) with 1. rewrite Z.div_1_r. lia.
    - set (d' := Zdigits2 m') in *.
      pose proof (Zdigits2_bounds m' Hm'pos) as [Hd'lo Hd'hi]. fold d' in Hd'lo, Hd'hi.
      assert (Hd'pos : 0 < d') by (subst d'; destruct m'; simpl in *; lia).
      assert (Hm1pos : 0 < m1) by lia.
      pose proof (Zdigits2_bounds m1 Hm1pos) as [Hd1lo Hd1hi].
      set (d1 := Zdigits2 m1) in *.
      assert (Hd1 : d' < d1).
      { destruct (Z.le_gt_cases d1 d') as [Hle|]; auto. exfalso.
        assert (fexp prec emax (d1 + e') <= fexp prec emax (d' + e'))
          by (apply fexp_mono; lia).
        subst k2. lia. }
      assert (Hpow : 2 ^ d' <= 2 ^ (d1 - 1)) by (apply Z.pow_le_mono_r; lia).
      assert (Hm1eq : m1 = 2 ^ d') by lia.
      assert (Hd1eq : d1 = d' + 1).
      { subst d1. apply Zdigits2_unique; [|exact Hm1pos].
        replace (d' + 1 - 1) with d' by lia. rewrite Z.pow_add_r by lia.
        change (2 ^ 1) with 2. lia. }
      assert (Hk21 : k2 = 1).
      { subst k2. rewrite Hd1eq. rewrite fexp64 in *. lia. }
      subst m''. rewrite Hk21, Hm1eq. change (2 ^ 1) with 2.
      replace d' with (1 + (d' - 1)) at 1 2 by lia.
      rewrite Z.pow_add_r by lia. change (2 ^ 1) with 2.
      rewrite (Z.mul_comm 2), Z.div_mul by lia. reflexivity. }
  assert (Hwe'' : w e'' = w e' * 2 ^ k2) by (subst e''; now apply w_add).
  assert (HB : Fv <= m'' * w e'').
  { apply Z.le_trans with (m' * w e'); [exact HA|].
    rewrite Hwe''. replace (m'' * (w e' * 2 ^ k2)) with (m'' * 2 ^ k2 * w e') by ring.
    rewrite Hexact. apply Z.mul_le_mono_nonneg_r; [pose proof (w_pos e' He')|]; lia. }
  rewrite HR.
  destruct m'' as [|p|p] eqn:Em''; [lia| |lia].
  destruct (Z.leb_spec e'' 971) as [Hfin|Hinf]; [right|left; reflexivity].
  exists p, e''. split; [reflexivity|]. split; [subst e''; lia|exact HB].
Qed.

(** The sign only shows in the outcome. *)
Lemma bra_opp (s : bool) (M e : Z) (l : location) :
  binary_round_aux prec emax (negb s) M e l
  = SFopp (binary_round_aux prec emax s M e l).
Proof.
  unfold binary_round_aux.
  destruct (shr_fexp prec emax M e l) as [mrs' e'].
  destruct (shr_fexp prec emax _ e' loc_Exact) as [mrs'' e''].
  destruct (shr_m mrs''); try reflexivity.
  now destruct (e'' <=? emax - prec).
Qed.


(** The outcome of rounding a non-negative mantissa carries the sign it
    was given: it is never NaN. *)
Lemma bra_sign (s : bool) (M e : Z) (l : location) :
  0 <= M ->
  binary_round_aux prec emax s M e l = S754_zero s
  \/ binary_round_aux prec emax s M e l = S754_infinity s
  \/ exists m'' e'', binary_round_aux prec emax s M e l = S754_finite s m'' e''.
Proof.
  intros HM. destruct (bra_pipeline s M e l HM) as (m1 & _ & _ & Hrest).
  cbv zeta in Hrest. destruct Hrest as (Hpos & ->).
  destruct (m1 / 2 ^ _) as [|p|p]; [auto| |lia].
  destruct (_ <=? 971); eauto.
Qed.


Lemma w_ulps (e : Z) : -1074 <= e -> w e = 2 ^ (e + 1074) * 2 ^ 1074.
Proof.
  intros. unfold w. rewrite <- Z.pow_add_r by lia. f_equal. lia.
Qed.

Lemma ulps_finite (s : bool) (m : positive) (e : Z) :
  -1074 <= e ->
  ulps (S754_finite s m e) * 2 ^ 1074 = cond_Zopp s (Z.pos m * w e).
Proof. intros He. rewrite (w_ulps e He). destruct s; cbn [ulps cond_Zopp]; ring. Qed.

Lemma ulps_opp (x : spec_float) : ulps (SFopp x) = - ulps x.
Proof. destruct x as [| | |[|] m e]; simpl; lia. Qed.

Lemma fin_opp (x : spec_float) : fin (SFopp x) = fin x.
Proof. now destruct x. Qed.

Lemma valid_opp (x : spec_float) :
  valid_binary (SFopp x) = valid_binary x.
Proof. now destruct x. Qed.

Lemma pow1074_pos : 0 < 2 ^ 1074.
Proof. now apply Z.pow_pos_nonneg. Qed.

(** Of two numbers of the format, the one with the smaller exponent is
    the smaller one. *)
Lemma canon_lt (m1 m2 : positive) (e1 e2 : Z) :
  bounded prec emax m1 e1 = true -> bounded prec emax m2 e2 = true ->
  e1 < e2 ->
  Z.pos m1 * 2 ^ (e1 + 1074) < Z.pos m2 * 2 ^ (e2 + 1074).
Proof.
  intros H1 H2 Hlt.
  destruct (bounded_inv m1 e1 H1) as (He1 & _ & Hm1 & _).
  destruct (bounded_inv m2 e2 H2) as (He2 & _ & _ & Hd2).
  pose proof (digits_bounds m2) as [Hlo _]. rewrite Hd2 in Hlo by lia.
  change (2 ^ (53 - 1)) with (2 ^ 52) in Hlo.
  replace (e2 + 1074) with ((e1 + 1074) + (e2 - e1)) by lia.
  rewrite (Z.pow_add_r 2 (e1 + 1074) (e2 - e1)) by lia.
  assert (0 < 2 ^ (e1 + 1074)) by (apply Z.pow_pos_nonneg; lia).
  assert (2 ^ 1 <= 2 ^ (e2 - e1)) by (apply Z.pow_le_mono_r; lia).
  change (2 ^ 1) with 2 in *. change (2 ^ 53) with (2 * 2 ^ 52) in Hm1.
  set (P := 2 ^ (e1 + 1074)) in *. set (Q := 2 ^ (e2 - e1)) in *.
  assert (Z.pos m1 * P < 2 * 2 ^ 52 * P) by (apply Z.mul_lt_mono_pos_r; lia).
  assert (2 ^ 52 * (P * 2) <= Z.pos m2 * (P * 2)) by (apply Z.mul_le_mono_nonneg_r; lia).
  assert (Z.pos m2 * (P * 2) <= Z.pos m2 * (P * Q)).
  { apply Z.mul_le_mono_nonneg_l; [lia|]. apply Z.mul_le_mono_nonneg_l; lia. }
  lia.
Qed.

(** On the numbers of the format, [<=] is the order of the values. *)
Lemma SFleb_ulps (x y : spec_float) :
  valid_binary x = true -> valid_binary y = true ->
  fin x = true -> fin y = true ->
  SFleb x y = (ulps x <=? ulps y).
Proof.
  intros Hvx Hvy Hfx Hfy.
  assert (Hpos : forall m e, bounded prec emax m e = true -> 0 < Z.pos m * 2 ^ (e + 1074)).
  { intros m e Hb. destruct (bounded_inv m e Hb) as (He & _).
    apply Z.mul_pos_pos; [lia|apply Z.pow_pos_nonneg; lia]. }
  destruct x as [sx|sx| |sx mx ex], y as [sy|sy| |sy my ey]; try discriminate;
    cbn [valid_binary SpecFloat.valid_binary] in Hvx, Hvy; unfold SFleb;
    cbn [SFcompare]; unfold ulps.
  - reflexivity.
  - pose proof (Hpos my ey Hvy). destruct sy; cbn [cond_Zopp]; symmetry;
      [apply Z.leb_gt|apply Z.leb_le]; lia.
  - pose proof (Hpos mx ex Hvx). destruct sx; cbn [cond_Zopp]; symmetry;
      [apply Z.leb_le|apply Z.leb_gt]; lia.
  - pose proof (Hpos mx ex Hvx). pose proof (Hpos my ey Hvy).
    rewrite Pos.compare_cont_spec. cbn [Pos.switch_Eq].
    destruct sx, sy; cbn [cond_Zopp]; symmetry.
    + destruct (Z.compare_spec ex ey) as [->|Hlt|Hgt].
      * destruct (bounded_inv my ey Hvy) as (Hey & _).
        assert (0 < 2 ^ (ey + 1074)) by (apply Z.pow_pos_nonneg; lia).
        destruct (Pos.compare_spec mx my) as [->|Hm|Hm]; cbn [Pos.switch_Eq CompOpp];
          [apply Z.leb_le; lia|apply Z.leb_gt|apply Z.leb_le].
        -- assert (Z.pos mx * 2 ^ (ey + 1074) < Z.pos my * 2 ^ (ey + 1074))
             by (apply Z.mul_lt_mono_pos_r; lia). lia.
        -- assert (Z.pos my * 2 ^ (ey + 1074) < Z.pos mx * 2 ^ (ey + 1074))
             by (apply Z.mul_lt_mono_pos_r; lia). lia.
      * pose proof (canon_lt mx my ex ey Hvx Hvy Hlt). apply Z.leb_gt. lia.
      * pose proof (canon_lt my mx ey ex Hvy Hvx ltac:(lia)). apply Z.leb_le. lia.
    + apply Z.leb_le. lia.
    + apply Z.leb_gt. lia.
    + destruct (Z.compare_spec ex ey) as [->|Hlt|Hgt].
      * destruct (bounded_inv my ey Hvy) as (Hey & _).
        assert (0 < 2 ^ (ey + 1074)) by (apply Z.pow_pos_nonneg; lia).
        destruct (Pos.compare_spec mx my) as [->|Hm|Hm]; cbn [Pos.switch_Eq];
          [apply Z.leb_le; lia|apply Z.leb_le|apply Z.leb_gt].
        -- assert (Z.pos mx * 2 ^ (ey + 1074) < Z.pos my * 2 ^ (ey + 1074))
             by (apply Z.mul_lt_mono_pos_r; lia). lia.
        -- assert (Z.pos my * 2 ^ (ey + 1074) < Z.pos mx * 2 ^ (ey + 1074))
             by (apply Z.mul_lt_mono_pos_r; lia). lia.
      * pose proof (canon_lt mx my ex ey Hvx Hvy Hlt). apply Z.leb_le. lia.
      * pose proof (canon_lt my mx ey ex Hvy Hvx ltac:(lia)). apply Z.leb_gt. lia.
Qed.

(** Rounding a positive exact value, from above... *)
Lemma round_upper (M : positive) (e : Z) (H : spec_float) :
  valid_binary H = true -> fin H = true ->
  -2148 <= e ->
  e <= Z.max 971 (fexp prec emax (Z.pos (digits2_pos M) + e)) ->
  Z.pos M * w e <= ulps H * 2 ^ 1074 ->
  let R := binary_round_aux prec emax false (Z.pos M) e loc_Exact in
  fin R = true /\ 0 <= ulps R <= ulps H.
Proof.
  intros Hv Hf He Hpre HV R.
  pose proof (w_pos e He) as Hw. pose proof pow1074_pos as HS.
  assert (HVpos : 0 < Z.pos M * w e) by (apply Z.mul_pos_pos; lia).
  destruct H as [sH|sH| |sH mH eH]; try discriminate; try (cbn [ulps] in HV; lia).
  cbn [valid_binary SpecFloat.valid_binary] in Hv. destruct (bounded_inv mH eH Hv) as (HeH & _).
  rewrite ulps_finite in HV by lia.
  destruct sH; [cbn [cond_Zopp] in HV; pose proof (w_pos eH ltac:(lia)); nia|].
  cbn [cond_Zopp] in HV.
  destruct (bra_upper (Z.pos M) e loc_Exact mH eH ltac:(lia) He Hpre Hv HV)
    as [HR|(m'' & e'' & HR & He'' & Hle)]; subst R; rewrite HR.
  - cbn [fin ulps cond_Zopp]. split; [reflexivity|]. split; [lia|].
    apply Z.mul_nonneg_nonneg; [lia|]. apply Z.pow_nonneg; lia.
  - split; [reflexivity|].
    rewrite (w_ulps e'' He''), (w_ulps eH) in Hle by lia.
    cbn [ulps cond_Zopp]. 
    assert (0 < 2 ^ (e'' + 1074)) by (apply Z.pow_pos_nonneg; lia).
    split; [nia|].
    apply (Z.mul_le_mono_pos_r _ _ (2 ^ 1074)); [exact HS|]. lia.
Qed.

(** ... and from below. *)
Lemma round_lower (M : positive) (e : Z) (L : spec_float) :
  valid_binary L = true -> fin L = true ->
  -2148 <= e ->
  ulps L * 2 ^ 1074 <= Z.pos M * w e ->
  let R := binary_round_aux prec emax false (Z.pos M) e loc_Exact in
  R = S754_infinity false \/ (fin R = true /\ ulps L <= ulps R).
Proof.
  intros Hv Hf He HV R.
  pose proof (w_pos e He) as Hw. pose proof pow1074_pos as HS.
  assert (Hsign : R = S754_infinity false \/ (fin R = true /\ 0 <= ulps R)).
  { destruct (bra_sign false (Z.pos M) e loc_Exact ltac:(lia))
      as [HR|[HR|(m'' & e'' & HR)]]; subst R; rewrite HR; auto; right;
      cbn [fin ulps cond_Zopp].
    - split; [reflexivity|lia].
    - split; [reflexivity|]. apply Z.mul_nonneg_nonneg; [lia|apply Z.pow_nonneg; lia]. }
  destruct (Z.le_gt_cases (ulps L) 0) as [HL0|HLpos].
  { destruct Hsign as [|(? & ?)]; [left|right]; auto. split; [assumption|lia]. }
  destruct L as [sL|sL| |sL mL eL]; try discriminate; try (cbn [ulps] in HLpos; lia).
  cbn [valid_binary SpecFloat.valid_binary] in Hv. destruct (bounded_inv mL eL Hv) as (HeL & _).
  destruct sL.
  { exfalso. cbn [ulps cond_Zopp] in HLpos.
    assert (0 < 2 ^ (eL + 1074)) by (apply Z.pow_pos_nonneg; lia). nia. }
  rewrite ulps_finite in HV by lia. simpl cond_Zopp in HV.
  destruct (bra_lower (Z.pos M) e loc_Exact mL eL ltac:(lia) He Hv HV)
    as [HR|(m'' & e'' & HR & He'' & Hle)]; subst R; rewrite HR; [now left|right].
  split; [reflexivity|].
  rewrite (w_ulps e'' He''), (w_ulps eL) in Hle by lia.
  cbn [ulps cond_Zopp]. apply (Z.mul_le_mono_pos_r _ _ (2 ^ 1074)); [exact HS|]. lia.
Qed.

(** Rounding an exact value of either sign that lies between two numbers
    of the format gives a number between them. *)
Lemma round_between (s : bool) (M : positive) (e : Z) (L H : spec_float) :
  valid_binary L = true -> valid_binary H = true ->
  fin L = true -> fin H = true ->
  -2148 <= e ->
  e <= Z.max 971 (fexp prec emax (Z.pos (digits2_pos M) + e)) ->
  ulps L * 2 ^ 1074 <= cond_Zopp s (Z.pos M * w e) <= ulps H * 2 ^ 1074 ->
  let R := binary_round_aux prec emax s (Z.pos M) e loc_Exact in
  fin R = true /\ ulps L <= ulps R <= ulps H.
Proof.
  intros HvL HvH HfL HfH He Hpre [HlV HVh]. cbv zeta.
  destruct s; cbn [cond_Zopp] in HlV, HVh.
  - change true with (negb false). rewrite bra_opp.
    rewrite fin_opp, ulps_opp.
    pose proof (round_upper M e (SFopp L)) as Hup.
    pose proof (round_lower M e (SFopp H)) as Hlo. cbv zeta in Hup, Hlo.
    rewrite valid_opp, fin_opp, ulps_opp in Hup, Hlo.
    destruct (Hup HvL HfL He Hpre ltac:(lia)) as (Hfin & H0 & Hu).
    destruct (Hlo HvH HfH He ltac:(lia)) as [Hinf|(_ & Hl)].
    + rewrite Hinf in Hfin. discriminate.
    + split; [exact Hfin|lia].
  - pose proof (round_upper M e H HvH HfH He Hpre HVh) as Hup.
    pose proof (round_lower M e L HvL HfL He HlV) as Hlo. cbv zeta in Hup, Hlo.
    destruct Hup as (Hfin & H0 & Hu).
    destruct Hlo as [Hinf|(_ & Hl)].
    + rewrite Hinf in Hfin. discriminate.
    + split; [exact Hfin|lia].
Qed.


Lemma digits_shift (M : positive) (j : Z) :
  0 <= j ->
  Z.pos (digits2_pos (Z.to_pos (Z.pos M * 2 ^ j))) = Z.pos (digits2_pos M) + j.
Proof.
  intros Hj. pose proof (digits_bounds M) as [Hlo Hhi].
  assert (Hp : 0 < 2 ^ j) by (apply Z.pow_pos_nonneg; lia).
  apply digits_unique. rewrite Z2Pos.id by (apply Z.mul_pos_pos; lia).
  replace (Z.pos (digits2_pos M) + j - 1) with (Z.pos (digits2_pos M) - 1 + j) by lia.
  rewrite !Z.pow_add_r by lia. split.
  - apply Z.mul_le_mono_nonneg_r; lia.
  - apply Z.mul_lt_mono_pos_r; lia.
Qed.

(** [binary_round] first gives the mantissa all the bits the format can
    keep: the value is unchanged. *)
Lemma binary_round_shape (s : bool) (M : positive) (e : Z) :
  -1074 <= e ->
  exists (mz : positive) (ez : Z),
    binary_round prec emax s M e
    = binary_round_aux prec emax s (Z.pos mz) ez loc_Exact
    /\ -1074 <= ez
    /\ ez <= fexp prec emax (Z.pos (digits2_pos mz) + ez)
    /\ Z.pos mz * w ez = Z.pos M * w e.
Proof.
  intros He. unfold binary_round. rewrite shl_align_spec.
  set (f := fexp prec emax (Z.pos (digits2_pos M) + e)).
  assert (Hf : -1074 <= f) by (subst f; rewrite fexp64; lia).
  destruct (Z.ltb_spec f e) as [Hlt|Hge].
  - exists (Z.to_pos (Z.pos M * 2 ^ (e - f))), f.
    split; [reflexivity|]. split; [exact Hf|].
    rewrite digits_shift by lia.
    replace (Z.pos (digits2_pos M) + (e - f) + f) with (Z.pos (digits2_pos M) + e) by lia.
    fold f. split; [lia|].
    rewrite Z2Pos.id
      by (apply Z.mul_pos_pos; [lia|apply Z.pow_pos_nonneg; lia]).
    replace e with (f + (e - f)) at 2 by lia. rewrite w_add by lia. ring.
  - exists M, e. repeat split; auto. 
Qed.

Lemma binary_round_between (s : bool) (M : positive) (e : Z) (L H : spec_float) :
  valid_binary L = true -> valid_binary H = true ->
  fin L = true -> fin H = true ->
  -1074 <= e ->
  ulps L * 2 ^ 1074 <= cond_Zopp s (Z.pos M * w e) <= ulps H * 2 ^ 1074 ->
  fin (binary_round prec emax s M e) = true
  /\ ulps L <= ulps (binary_round prec emax s M e) <= ulps H.
Proof.
  intros HvL HvH HfL HfH He HV.
  destruct (binary_round_shape s M e He) as (mz & ez & -> & Hez & Hpre & Hval).
  rewrite <- Hval in HV.
  apply (round_between s mz ez L H); auto; lia.
Qed.

Lemma binary_round_lower (M : positive) (e : Z) (L : spec_float) :
  valid_binary L = true -> fin L = true ->
  -1074 <= e ->
  ulps L * 2 ^ 1074 <= Z.pos M * w e ->
  binary_round prec emax false M e = S754_infinity false
  \/ (fin (binary_round prec emax false M e) = true
      /\ ulps L <= ulps (binary_round prec emax false M e)).
Proof.
  intros HvL HfL He HV.
  destruct (binary_round_shape false M e He) as (mz & ez & -> & Hez & Hpre & Hval).
  rewrite <- Hval in HV.
  apply (round_lower mz ez L); auto; lia.
Qed.

(** The exact product of two numbers, in units of [2^-2148]. *)
Lemma ulps_mul (sa sb : bool) (ma mb : positive) (ea eb : Z) :
  -1074 <= ea -> -1074 <= eb ->
  cond_Zopp (xorb sa sb) (Z.pos (ma * mb) * w (ea + eb))
  = ulps (S754_finite sa ma ea) * ulps (S754_finite sb mb eb).
Proof.
  intros Ha Hb. unfold w.
  replace (ea + eb + 2148) with ((ea + 1074) + (eb + 1074)) by lia.
  rewrite Z.pow_add_r by lia. rewrite Pos2Z.inj_mul.
  destruct sa, sb; cbn [xorb cond_Zopp ulps]; ring.
Qed.

(** The product of two numbers of the format has at least the bits the
    format keeps, or a small exponent. *)
Lemma mul_pre (ma mb : positive) (ea eb : Z) :
  bounded prec emax ma ea = true -> bounded prec emax mb eb = true ->
  ea + eb <= Z.max 971 (fexp prec emax (Z.pos (digits2_pos (ma * mb)) + (ea + eb))).
Proof.
  intros Ha Hb.
  destruct (bounded_inv ma ea Ha) as (Hea & _ & _ & Hda).
  destruct (bounded_inv mb eb Hb) as (Heb & _ & _ & Hdb).
  destruct (Z.le_gt_cases (ea + eb) 971) as [|Hbig]; [lia|].
  pose proof (digits_bounds ma) as [Hla _]. rewrite Hda in Hla by lia.
  pose proof (digits_bounds mb) as [Hlb _]. rewrite Hdb in Hlb by lia.
  change (2 ^ (53 - 1)) with (2 ^ 52) in Hla, Hlb.
  pose proof (digits_bounds (ma * mb)) as [_ Hhi].
  rewrite Pos2Z.inj_mul in Hhi.
  assert (H104 : 2 ^ 104 <= Z.pos ma * Z.pos mb).
  { change (2 ^ 104) with (2 ^ 52 * 2 ^ 52). apply Z.mul_le_mono_nonneg; lia. }
  set (d := Z.pos (digits2_pos (ma * mb))) in *.
  assert (104 < d).
  { destruct (Z.le_gt_cases d 104) as [Hle|]; auto. exfalso.
    assert (2 ^ d <= 2 ^ 104) by (apply Z.pow_le_mono_r; lia). lia. }
  rewrite fexp64. lia.
Qed.


(** *** At the level of the numbers *)


Lemma leb_value (x y : float) :
  finite x = true -> finite y = true ->
  (x <=? y)%float = (value x <=? value y).
Proof.
  intros Hx Hy. rewrite FloatAxioms.leb_spec.
  apply SFleb_ulps; auto using Prim2SF_valid.
Qed.

Lemma inb_value (lo hi x : float) :
  finite lo = true -> finite hi = true -> inb lo hi x ->
  finite x = true /\ value lo <= value x <= value hi.
Proof.
  intros Hlo Hhi [H1 H2].
  assert (Hx : finite x = true).
  { unfold finite in *. rewrite FloatAxioms.leb_spec in H1, H2. unfold SFleb in H1, H2.
    destruct (Prim2SF x) as [sx|[|]| |sx mx ex]; try reflexivity; exfalso.
    - destruct (Prim2SF lo) as [?|?| |[|] ? ?]; simpl in *; discriminate.
    - destruct (Prim2SF hi) as [?|?| |[|] ? ?]; simpl in *; discriminate.
    - destruct (Prim2SF lo); discriminate. }
  split; [exact Hx|].
  rewrite leb_value in H1, H2 by assumption.
  apply Z.leb_le in H1, H2. lia.
Qed.

Lemma value_inb (lo hi x : float) :
  finite lo = true -> finite hi = true -> finite x = true ->
  value lo <= value x <= value hi -> inb lo hi x.
Proof.
  intros Hlo Hhi Hx [H1 H2]. unfold inb.
  rewrite !leb_value by assumption. split; now apply Z.leb_le.
Qed.

(** The product of two numbers lies between any two numbers that bracket
    the exact product. *)
Lemma mul_value (a b L H : float) :
  finite a = true -> finite b = true -> finite L = true -> finite H = true ->
  value L * 2 ^ 1074 <= value a * value b <= value H * 2 ^ 1074 ->
  finite (a * b) = true /\ value L <= value (a * b)%float <= value H.
Proof.
  unfold finite, value. rewrite FloatAxioms.mul_spec.
  pose proof (Prim2SF_valid a) as Hva. pose proof (Prim2SF_valid b) as Hvb.
  pose proof (Prim2SF_valid L) as HvL. pose proof (Prim2SF_valid H) as HvH.
  pose proof pow1074_pos as HS.
  intros Ha Hb HL HH HV.
  destruct (Prim2SF a) as [sa|sa| |sa ma ea]; try discriminate;
    destruct (Prim2SF b) as [sb|sb| |sb mb eb]; try discriminate;
    cbn [SF64mul SFmul]; try (cbn [fin ulps] in *; split; [reflexivity|lia]).
  cbn [valid_binary SpecFloat.valid_binary] in Hva, Hvb.
  destruct (bounded_inv ma ea Hva) as (Hea & _).
  destruct (bounded_inv mb eb Hvb) as (Heb & _).
  rewrite <- ulps_mul in HV by lia.
  unfold SF64mul. cbn [SFmul].
  apply (round_between (xorb sa sb) (ma * mb) (ea + eb)); auto; try lia.
  now apply mul_pre.
Qed.

Lemma interval_mul (a b A1 A2 B1 B2 lo hi : Z) :
  0 <= A1 -> A1 <= a <= A2 -> B1 <= b <= B2 ->
  lo <= A1 * B1 -> lo <= A2 * B1 -> A1 * B2 <= hi -> A2 * B2 <= hi ->
  lo <= a * b <= hi.
Proof.
  intros H0 [Ha1 Ha2] [Hb1 Hb2] Hl1 Hl2 Hh1 Hh2. split.
  - apply Z.le_trans with (a * B1); [|apply Z.mul_le_mono_nonneg_l; lia].
    destruct (Z.le_gt_cases 0 B1).
    + apply Z.le_trans with (A1 * B1); [lia|apply Z.mul_le_mono_nonneg_r; lia].
    + apply Z.le_trans with (A2 * B1); [lia|apply Z.mul_le_mono_nonpos_r; lia].
  - apply Z.le_trans with (a * B2); [apply Z.mul_le_mono_nonneg_l; lia|].
    destruct (Z.le_gt_cases 0 B2).
    + apply Z.le_trans with (A2 * B2); [apply Z.mul_le_mono_nonneg_r; lia|lia].
    + apply Z.le_trans with (A1 * B2); [apply Z.mul_le_mono_nonpos_r; lia|lia].
Qed.


Lemma mul_interval (tl th ul uh L H t u : float) :
  mul_ok tl th ul uh L H = true ->
  inb tl th t -> inb ul uh u -> inb L H (t * u).
Proof.
  unfold mul_ok. rewrite !andb_true_iff, !Z.leb_le.
  intros ((((((((((Ftl & Fth) & Ful) & Fuh) & FL) & FH) & H0) & Hl1) & Hl2) & Hh1) & Hh2) Ht Hu.
  destruct (inb_value tl th t Ftl Fth Ht) as (Ft & Htv).
  destruct (inb_value ul uh u Ful Fuh Hu) as (Fu & Huv).
  pose proof (interval_mul (value t) (value u) (value tl) (value th) (value ul) (value uh)
                _ _ H0 Htv Huv Hl1 Hl2 Hh1 Hh2) as HV.
  destruct (mul_value t u L H Ft Fu FL FH HV) as (Fr & Hr).
  now apply value_inb.
Qed.

(** The exact sum of two numbers, as the mantissa that is rounded. *)
Lemma add_finite_exact (sa sb : bool) (ma mb : positive) (ea eb : Z) :
  -1074 <= ea -> -1074 <= eb ->
  exists Zs ez,
    SFadd prec emax (S754_finite sa ma ea) (S754_finite sb mb eb)
    = binary_normalize prec emax Zs ez false
    /\ -1074 <= ez
    /\ Zs * w ez
       = (ulps (S754_finite sa ma ea) + ulps (S754_finite sb mb eb)) * 2 ^ 1074.
Proof.
  intros Hea Heb. cbn [SFadd].
  set (ez := Z.min ea eb).
  rewrite (shl_align_fst ma ea ez), (shl_align_fst mb eb ez) by (subst ez; lia).
  eexists _, ez. split; [reflexivity|]. split; [subst ez; lia|].
  assert (Hez : -1074 <= ez) by (subst ez; lia).
  assert (Hwa : w ea = w ez * 2 ^ (ea - ez))
    by (rewrite <- w_add by (subst ez; lia); f_equal; lia).
  assert (Hwb : w eb = w ez * 2 ^ (eb - ez))
    by (rewrite <- w_add by (subst ez; lia); f_equal; lia).
  rewrite (Z.mul_add_distr_r (ulps _)), !ulps_finite, Hwa, Hwb by lia.
  destruct sa, sb; cbn [cond_Zopp]; ring.
Qed.

(** The sum of two numbers lies between any two numbers that bracket the
    exact sum. *)
Lemma add_value (a b L H : float) :
  finite a = true -> finite b = true -> finite L = true -> finite H = true ->
  value L <= value a + value b <= value H ->
  finite (a + b) = true /\ value L <= value (a + b)%float <= value H.
Proof.
  unfold finite, value. rewrite FloatAxioms.add_spec.
  pose proof (Prim2SF_valid a) as Hva. pose proof (Prim2SF_valid b) as Hvb.
  pose proof (Prim2SF_valid L) as HvL. pose proof (Prim2SF_valid H) as HvH.
  pose proof pow1074_pos as HS.
  intros Ha Hb HL HH HV.
  destruct (Prim2SF a) as [sa|sa| |sa ma ea]; try discriminate;
    destruct (Prim2SF b) as [sb|sb| |sb mb eb]; try discriminate;
    unfold SF64add.
  - cbn [SFadd]. destruct sa, sb; cbn [fin ulps] in *; split; try reflexivity; lia.
  - cbn [SFadd]. change (ulps (S754_zero sa)) with 0 in HV. split; [reflexivity|lia].
  - cbn [SFadd]. change (ulps (S754_zero sb)) with 0 in HV. split; [reflexivity|lia].
  - cbn [valid_binary SpecFloat.valid_binary] in Hva, Hvb.
    destruct (bounded_inv ma ea Hva) as (Hea & _).
    destruct (bounded_inv mb eb Hvb) as (Heb & _).
    destruct (add_finite_exact sa sb ma mb ea eb) as (Zs & ez & -> & Hez & Hsum); try lia.
    assert (HV' : ulps (Prim2SF L) * 2 ^ 1074 <= Zs * w ez <= ulps (Prim2SF H) * 2 ^ 1074).
    { rewrite Hsum. split; apply Z.mul_le_mono_nonneg_r; lia. }
    destruct Zs as [|p|p] eqn:EZs; cbn [binary_normalize].
    + cbn [fin ulps]. split; [reflexivity|]. 
      split; apply (Z.mul_le_mono_pos_r _ _ (2 ^ 1074)); lia.
    + apply binary_round_between; auto.
    + apply binary_round_between; auto. cbn [cond_Zopp].
      rewrite <- Z.mul_opp_l. exact HV'.
Qed.


Lemma add_interval (cl ch ul uh L H c u : float) :
  add_ok cl ch ul uh L H = true ->
  inb cl ch c -> inb ul uh u -> inb L H (c + u).
Proof.
  unfold add_ok. rewrite !andb_true_iff, !Z.leb_le.
  intros (((((((Fcl & Fch) & Ful) & Fuh) & FL) & FH) & Hl) & Hh) Hc Hu.
  destruct (inb_value cl ch c Fcl Fch Hc) as (Fc & Hcv).
  destruct (inb_value ul uh u Ful Fuh Hu) as (Fu & Huv).
  destruct (add_value c u L H Fc Fu FL FH ltac:(lia)) as (Fr & Hr).
  now apply value_inb.
Qed.


(** *** Signs *)

Lemma nonneg_cases (y : float) :
  (0 <=? y)%float = true ->
  (exists s, Prim2SF y = S754_zero s)
  \/ Prim2SF y = S754_infinity false
  \/ exists m e, Prim2SF y = S754_finite false m e.
Proof.
  rewrite FloatAxioms.leb_spec. unfold SFleb.
  change (Prim2SF 0) with (S754_zero false).
  destruct (Prim2SF y) as [s|[|]| |[|] m e]; cbn [SFcompare]; try discriminate; eauto.
Qed.

Lemma cases_nonneg (y : float) :
  (exists s, Prim2SF y = S754_zero s)
  \/ Prim2SF y = S754_infinity false
  \/ (exists m e, Prim2SF y = S754_finite false m e) ->
  (0 <=? y)%float = true.
Proof.
  rewrite FloatAxioms.leb_spec. unfold SFleb.
  change (Prim2SF 0) with (S754_zero false).
  intros [(s & ->)|[->|(m & e & ->)]]; reflexivity.
Qed.

(** A positive number times a non-negative one is non-negative. *)
Lemma scale_nonneg (c x : float) :
  (exists m e, Prim2SF c = S754_finite false m e) ->
  (0 <=? x)%float = true -> (0 <=? c * x)%float = true.
Proof.
  intros (mc & ec & Hc) Hx. apply cases_nonneg.
  rewrite FloatAxioms.mul_spec, Hc. unfold SF64mul.
  destruct (nonneg_cases x Hx) as [(s & ->)|[->|(m & e & ->)]]; cbn [SFmul xorb]; eauto.
  destruct (bra_sign false (Z.pos (mc * m)) (ec + e) loc_Exact ltac:(lia))
    as [->|[->|(m'' & e'' & ->)]]; eauto.
Qed.

Lemma abs_nonneg (x : float) :
  Prim2SF x <> S754_nan -> (0 <=? abs x)%float = true.
Proof.
  intros Hx. apply cases_nonneg. rewrite FloatAxioms.abs_spec.
  destruct (Prim2SF x); cbn [SFabs]; eauto. congruence.
Qed.

Lemma one_sf : Prim2SF 1 = S754_finite false (2 ^ 52)%positive (-52).
Proof. reflexivity. Qed.

(** One plus a non-negative number is at least one. *)
Lemma one_plus (y : float) :
  (0 <=? y)%float = true -> (1 <=? 1 + y)%float = true.
Proof.
  intros Hy. pose proof (Prim2SF_valid (1 + y)) as Hv.
  rewrite FloatAxioms.leb_spec. rewrite FloatAxioms.add_spec in Hv |- *.
  pose proof (Prim2SF_valid y) as Hvy.
  rewrite one_sf in *. unfold SF64add in *.
  destruct (nonneg_cases y Hy) as [(s & ->)|[->|(m & e & Ey)]]; try reflexivity.
  rewrite Ey in *. cbn [valid_binary SpecFloat.valid_binary] in Hvy.
  destruct (bounded_inv m e Hvy) as (He & _).
  destruct (add_finite_exact false false (2 ^ 52) m (-52) e) as (Zs & ez & HR & Hez & Hsum);
    try lia.
  rewrite HR in *.
  assert (H1 : 0 < ulps (S754_finite false (2 ^ 52) (-52))) by reflexivity.
  assert (Hy0 : 0 < ulps (S754_finite false m e)).
  { cbn [ulps cond_Zopp]. apply Z.mul_pos_pos; [lia|apply Z.pow_pos_nonneg; lia]. }
  pose proof pow1074_pos as HS. pose proof (w_pos ez ltac:(lia)) as Hw.
  destruct Zs as [|p|p]; try nia. cbn [binary_normalize] in *.
  destruct (binary_round_lower p ez (S754_finite false (2 ^ 52) (-52)))
    as [->|(Hfin & Hle)]; auto; try reflexivity.
  - rewrite Hsum. apply Z.mul_le_mono_nonneg_r; lia.
  - rewrite SFleb_ulps; auto. now apply Z.leb_le.
Qed.


Lemma new_location_exact (nb r : Z) :
  new_location nb r = loc_Exact <-> r = 0.
Proof.
  unfold new_location, new_location_even, new_location_odd.
  destruct (Z.even nb); destruct (Z.eqb_spec r 0); split; intros; try discriminate;
    auto; congruence.
Qed.

(** The reciprocal of a number that is at least one is between zero and
    one. *)
Lemma recip_unit (z : float) :
  (1 <=? z)%float = true -> inb 0 1 (1 / z).
Proof.
  intros Hz. pose proof (Prim2SF_valid z) as Hvz. pose proof (Prim2SF_valid (1 / z)) as Hv.
  unfold inb. rewrite !FloatAxioms.leb_spec in *.
  rewrite FloatAxioms.div_spec in *. rewrite one_sf in *.
  change (Prim2SF 0) with (S754_zero false).
  unfold SF64div in *.
  destruct (Prim2SF z) as [s|[|]| |[|] mz ez]; try discriminate.
  { split; reflexivity. }
  cbn [valid_binary SpecFloat.valid_binary] in Hvz.
  destruct (bounded_inv mz ez Hvz) as (Hez & _).
  rewrite SFleb_ulps in Hz by auto. apply Z.leb_le in Hz.
  cbn [ulps cond_Zopp] in Hz.
  change (Z.pos (2 ^ 52) * 2 ^ (-52 + 1074)) with (2 ^ 1074) in Hz.
  cbn [SFdiv xorb] in *. unfold SFdiv_core_binary in *.
  change (Zdigits2 (Z.pos (2 ^ 52))) with 53 in *.
  cbn [Zdigits2] in *.
  set (d2 := Z.pos (digits2_pos mz)) in *.
  set (e' := Z.min (fexp prec emax (53 + -52 - (d2 + ez))) (-52 - ez)) in *.
  set (s := -52 - ez - e') in *.
  set (m' := match s with Z.pos _ => Z.shiftl (Z.pos (2 ^ 52)) s
             | 0 => Z.pos (2 ^ 52) | Z.neg _ => 0 end) in *.
  assert (Hs : 0 <= s) by (subst s e'; lia).
  assert (Hm' : m' = 2 ^ (52 + s)).
  { subst m'. rewrite Z.pow_add_r by lia.
    destruct s as [|p|p] eqn:Es; [reflexivity| |lia].
    rewrite Z.shiftl_mul_pow2 by lia. reflexivity. }
  clearbody m'.
  pose proof (digits_bounds mz) as [_ Hdhi]. fold d2 in Hdhi.
  assert (Hmag : 1 <= d2 + ez).
  { destruct (Z.le_gt_cases 1 (d2 + ez)) as [|Hlt]; auto. exfalso.
    assert (H2 : Z.pos mz * 2 ^ (ez + 1074) < 2 ^ d2 * 2 ^ (ez + 1074)).
    { apply Z.mul_lt_mono_pos_r; [apply Z.pow_pos_nonneg; lia|exact Hdhi]. }
    rewrite <- Z.pow_add_r in H2 by lia.
    assert (2 ^ (d2 + (ez + 1074)) <= 2 ^ 1074) by (apply Z.pow_le_mono_r; lia).
    lia. }
  assert (He' : -1074 <= e' <= -53).
  { subst e'. rewrite fexp64. lia. }
  set (A := - e').
  assert (HmA : m' <= Z.pos mz * 2 ^ A).
  { apply (Z.mul_le_mono_pos_r _ _ (2 ^ (ez + 1074))); [apply Z.pow_pos_nonneg; lia|].
    rewrite Hm', <- Z.pow_add_r by lia.
    replace (52 + s + (ez + 1074)) with (1074 + A) by (subst s A; lia).
    rewrite Z.pow_add_r by lia.
    replace (Z.pos mz * 2 ^ A * 2 ^ (ez + 1074))
      with (Z.pos mz * 2 ^ (ez + 1074) * 2 ^ A) by ring.
    apply Z.mul_le_mono_nonneg_r; [apply Z.pow_nonneg; lia|exact Hz]. }
  pose proof (Z_div_mod m' (Z.pos mz) ltac:(lia)) as Hdm.
  destruct (Z.div_eucl m' (Z.pos mz)) as [q r]. destruct Hdm as (Hdiv & Hr).
  assert (Hm'pos : 0 < m') by (rewrite Hm'; apply Z.pow_pos_nonneg; lia).
  assert (HpA : 0 < 2 ^ A) by (apply Z.pow_pos_nonneg; subst A; lia).
  assert (Hq : 0 <= q) by nia.
  set (l := new_location (Z.pos mz) r) in *.
  assert (HU : (match l with loc_Exact => q | _ => q + 1 end) <= 2 ^ A).
  { destruct (Z.eq_dec r 0) as [Hr0|Hr0].
    - assert (Hl : l = loc_Exact) by (now apply new_location_exact).
      rewrite Hl. nia.
    - assert (Hl : l <> loc_Exact) by (intros Hl; now apply new_location_exact in Hl).
      assert (q < 2 ^ A) by nia.
      destruct l; [congruence|lia]. }
  assert (Hone : Z.pos (2 ^ 52) * w (-52) = 2 ^ A * w e').
  { rewrite <- (Z.mul_comm (w e')), <- w_add by (subst A; lia).
    replace (e' + A) with 0 by (subst A; lia). reflexivity. }
  destruct (bra_upper q e' l (2 ^ 52) (-52) Hq ltac:(lia) ltac:(lia) eq_refl)
    as [HR|(m'' & e'' & HR & He'' & Hle)].
  { rewrite Hone. apply Z.mul_le_mono_nonneg_r; [pose proof (w_pos e' ltac:(lia)); lia|exact HU]. }
  - rewrite HR. split; reflexivity.
  - rewrite HR in *. split; [reflexivity|].
    rewrite SFleb_ulps by auto. apply Z.leb_le.
    apply (Z.mul_le_mono_pos_r _ _ (2 ^ 1074)); [exact pow1074_pos|].
    rewrite !ulps_finite by lia. exact Hle.
Qed.

End Faithful.

Import Dyadic Faithful.

(** ** The symmetry of [normCDF] *)

Lemma opp_involutive (x : float) : - - x = x.
Proof.
  apply Prim2SF_inj. rewrite !FloatAxioms.opp_spec.
  destruct (Prim2SF x) as [s|s| |s m e]; simpl; now rewrite ?negb_involutive.
Qed.

Lemma abs_opp (x : float) : abs (- x) = abs x.
Proof.
  apply Prim2SF_inj. rewrite !FloatAxioms.abs_spec, FloatAxioms.opp_spec.
  now destruct (Prim2SF x).
Qed.

Lemma mul_comm (x y : float) : x * y = y * x.
Proof.
  apply Prim2SF_inj. rewrite !FloatAxioms.mul_spec. unfold SF64mul, SFmul.
  destruct (Prim2SF x) as [sx|sx| |sx mx ex], (Prim2SF y) as [sy|sy| |sy my ey];
    try reflexivity; try (now rewrite xorb_comm).
  now rewrite xorb_comm, Pos.mul_comm, Z.add_comm.
Qed.

Lemma gt_opp (x : float) : Num.gt x 0 = true -> Num.gt (- x) 0 = false.
Proof.
  unfold Num.gt. rewrite !FloatAxioms.ltb_spec, FloatAxioms.opp_spec. unfold SFltb.
  change (Prim2SF 0) with (S754_zero false).
  destruct (Prim2SF x) as [s|s| |s m e]; simpl; try discriminate;
    destruct s; simpl; try discriminate; reflexivity.
Qed.

Lemma inb_const (c : float) : (c <=? c) = true -> inb c c c.
Proof. now split. Qed.

(** A number between 0 and 1 is below one half or above it. *)
Lemma unit_halves (t : float) :
  inb 0 1 t -> inb 0 0.5 t \/ inb 0.5 1 t.
Proof.
  intros Ht. destruct (inb_value 0 1 t eq_refl eq_refl Ht) as (Ft & Hv).
  destruct Ht as [H0 H1].
  destruct (t <=? 0.5) eqn:E; [left; now split|right].
  split; [|exact H1].
  rewrite leb_value in E |- * by auto. apply Z.leb_gt in E. apply Z.leb_le. lia.
Qed.

Ltac by_mul Ht Hu :=
  refine (mul_interval _ _ _ _ _ _ _ _ _ Ht Hu); vm_compute; reflexivity.
Ltac by_add Hc Hu :=
  refine (add_interval _ _ _ _ _ _ _ _ _ Hc Hu); vm_compute; reflexivity.

(** The polynomial of the approximation stays positive and small on the
    unit interval. *)
Lemma normCDF_poly_bounds (t : float) :
  inb 0 1 t ->
  inb 0.14 1.51
    (0.3193815300 + t * (-0.3565637820 + t * (1.7814779370
       + t * (-1.8212559780 + t * 1.3302744290)))).
Proof.
  intros Ht.
  pose proof (inb_const 1.3302744290 eq_refl) as C5.
  pose proof (inb_const (-1.8212559780) eq_refl) as C4.
  pose proof (inb_const 1.7814779370 eq_refl) as C3.
  pose proof (inb_const (-0.3565637820) eq_refl) as C2.
  pose proof (inb_const 0.3193815300 eq_refl) as C1.
  destruct (unit_halves t Ht) as [Hh|Hh].
  - assert (H1 : inb 0 0.666 (t * 1.3302744290)) by (by_mul Hh C5).
    assert (H2 : inb (-1.822) (-1.155) (-1.8212559780 + t * 1.3302744290)) by (by_add C4 H1).
    assert (H3 : inb (-0.912) 0 (t * (-1.8212559780 + t * 1.3302744290))) by (by_mul Hh H2).
    assert (H4 : inb 0.869 1.782
                   (1.7814779370 + t * (-1.8212559780 + t * 1.3302744290)))
      by (by_add C3 H3).
    assert (H5 : inb 0 0.892
                   (t * (1.7814779370 + t * (-1.8212559780 + t * 1.3302744290))))
      by (by_mul Hh H4).
    assert (H6 : inb (-0.357) 0.536
                   (-0.3565637820 + t * (1.7814779370
                      + t * (-1.8212559780 + t * 1.3302744290))))
      by (by_add C2 H5).
    assert (H7 : inb (-0.179) 0.269
                   (t * (-0.3565637820 + t * (1.7814779370
                      + t * (-1.8212559780 + t * 1.3302744290)))))
      by (by_mul Hh H6).
    by_add C1 H7.
  - assert (H1 : inb 0.665 1.331 (t * 1.3302744290)) by (by_mul Hh C5).
    assert (H2 : inb (-1.157) (-0.49) (-1.8212559780 + t * 1.3302744290)) by (by_add C4 H1).
    assert (H3 : inb (-1.158) (-0.244) (t * (-1.8212559780 + t * 1.3302744290)))
      by (by_mul Hh H2).
    assert (H4 : inb 0.623 1.538
                   (1.7814779370 + t * (-1.8212559780 + t * 1.3302744290)))
      by (by_add C3 H3).
    assert (H5 : inb 0.311 1.539
                   (t * (1.7814779370 + t * (-1.8212559780 + t * 1.3302744290))))
      by (by_mul Hh H4).
    assert (H6 : inb (-0.046) 1.183
                   (-0.3565637820 + t * (1.7814779370
                      + t * (-1.8212559780 + t * 1.3302744290))))
      by (by_add C2 H5).
    assert (H7 : inb (-0.046) 1.184
                   (t * (-0.3565637820 + t * (1.7814779370
                      + t * (-1.8212559780 + t * 1.3302744290)))))
      by (by_mul Hh H6).
    by_add C1 H7.
Qed.

Lemma gt_zero_cases (x : float) :
  Num.gt x 0 = true ->
  Prim2SF x = S754_infinity false \/ exists m e, Prim2SF x = S754_finite false m e.
Proof.
  unfold Num.gt. rewrite FloatAxioms.ltb_spec. unfold SFltb.
  change (Prim2SF 0) with (S754_zero false).
  destruct (Prim2SF x) as [s|[|]| |[|] m e]; cbn [SFcompare]; try discriminate; eauto.
Qed.

(** The quotient of the division of two mantissas is not negative. *)
Lemma SFdiv_core_nonneg (m1 m2 : positive) (e1 e2 : Z) :
  (0 <= fst (fst (SFdiv_core_binary prec emax (Z.pos m1) e1 (Z.pos m2) e2)))%Z.
Proof.
  unfold SFdiv_core_binary.
  set (s := (e1 - e2 - _)%Z).
  set (m' := match s with Z.pos _ => Z.shiftl (Z.pos m1) s | 0%Z => Z.pos m1 | Z.neg _ => 0%Z end).
  assert (Hm' : (0 <= m')%Z).
  { subst m'. destruct s; try lia. apply Z.shiftl_nonneg. lia. }
  pose proof (Z_div_mod m' (Z.pos m2) ltac:(lia)) as Hdm.
  destruct (Z.div_eucl m' (Z.pos m2)) as [q r]. cbn [fst]. nia.
Qed.

(** For a positive [x] the argument [-x * x / 2] of [Math.exp] is not
    positive. *)
Lemma normCDF_arg_nonpos (x : float) :
  Num.gt x 0 = true -> (- x * x / 2 <=? 0) = true.
Proof.
  intros Hx. rewrite FloatAxioms.leb_spec, FloatAxioms.div_spec, FloatAxioms.mul_spec,
    FloatAxioms.opp_spec.
  change (Prim2SF 2) with (S754_finite false (2 ^ 52)%positive (-51)).
  change (Prim2SF 0) with (S754_zero false).
  unfold SF64div, SF64mul.
  assert (Hneg : forall y, y = S754_zero true \/ y = S754_infinity true
                           \/ (exists m e, y = S754_finite true m e) ->
                 SFleb (SFdiv prec emax y (S754_finite false (2 ^ 52) (-51)))
                       (S754_zero false) = true).
  { intros y [->|[->|(m & e & ->)]]; try reflexivity.
    cbn [SFdiv xorb].
    pose proof (SFdiv_core_nonneg m (2 ^ 52) e (-51)) as Hq.
    destruct (SFdiv_core_binary prec emax (Z.pos m) e (Z.pos (2 ^ 52)) (-51))
      as [[q e'] l]. cbn [fst] in Hq.
    destruct (bra_sign true q e' l Hq) as [->|[->|(m'' & e'' & ->)]]; reflexivity. }
  apply Hneg.
  destruct (gt_zero_cases x Hx) as [->|(m & e & ->)]; cbn [SFopp SFmul negb xorb]; auto.
  destruct (bra_sign true (Z.pos (m * m)) (e + e) loc_Exact ltac:(lia))
    as [->|[->|(m'' & e'' & ->)]]; eauto.
Qed.

Section Symmetry.
  Context {M : HostMath}.

Lemma normCDF_p_even (x : float) : normCDF_p (- x) = normCDF_p x.
Proof.
  unfold normCDF_p, Num.Math_abs.
  now rewrite abs_opp, opp_involutive, (mul_comm x (- x)).
Qed.

Lemma normCDF_branches (x : float) :
  Num.gt x 0 = true ->
  normCDF (- x) = normCDF_p x /\ normCDF x = 1 - normCDF (- x).
Proof.
  intros Hx. unfold normCDF. rewrite Hx, (gt_opp x Hx), normCDF_p_even.
  split; reflexivity.
Qed.

(** The variable [t] of the approximation is between 0 and 1. *)
Lemma normCDF_t_unit (x : float) :
  Num.gt x 0 = true -> inb 0 1 (1 / (1 + 0.2316419 * Num.Math_abs x)).
Proof.
  intros Hx. apply recip_unit, one_plus, scale_nonneg.
  - vm_compute. eauto.
  - apply abs_nonneg. destruct (gt_zero_cases x Hx) as [->|(m & e & ->)]; discriminate.
Qed.

(** Where [Math.exp] returns a number between 0 and 1, the tail [p] is
    between 0 and 1. *)
Lemma normCDF_p_unit (x : float) :
  Num.gt x 0 = true ->
  inb 0 1 (Math_exp (- x * x / 2)) ->
  inb 0 1 (normCDF_p x).
Proof.
  intros Hx He. unfold normCDF_p. cbv zeta.
  pose proof (normCDF_t_unit x Hx) as Ht.
  pose proof (normCDF_poly_bounds _ Ht) as Hq.
  set (t := 1 / (1 + 0.2316419 * Num.Math_abs x)) in *.
  pose proof (inb_const 0.3989422820 eq_refl) as C0.
  assert (Hd : inb 0 0.399 (0.3989422820 * Math_exp (- x * x / 2))) by (by_mul C0 He).
  assert (Hdt : inb 0 0.4 (0.3989422820 * Math_exp (- x * x / 2) * t)) by (by_mul Hd Ht).
  by_mul Hdt Hq.
Qed.

(** C10: for every [x > 0] the negative branch returns the tail [p] and
    the positive branch returns [1 - p] for the same [p], so
    [normCDF(x) = 1 - normCDF(-x)] holds exactly and [normCDF] is
    determined by its values at the non-positive numbers; and the
    binary64 sum [normCDF(x) + normCDF(-x)] is exactly 1, on every host
    whose [Math.exp] returns a number between 0 and 1 at the non-positive
    argument [-x * x / 2] it is called with: the tail is then itself
    between 0 and 1. *)
Theorem normCDF_symmetric (x : float) :
  Num.gt x 0 = true ->
  (0 <=? Math_exp (- x * x / 2)) = true ->
  (Math_exp (- x * x / 2) <=? 1) = true ->
  normCDF (- x) = normCDF_p x
  /\ normCDF x = 1 - normCDF (- x)
  /\ normCDF x + normCDF (- x) = 1
  /\ (- x * x / 2 <=? 0) = true
  /\ (0 <=? normCDF (- x)) = true /\ (normCDF (- x) <=? 1) = true.
Proof.
  intros Hx H0 H1. destruct (normCDF_branches x Hx) as (Hneg & Hpos).
  destruct (normCDF_p_unit x Hx (conj H0 H1)) as (Hp0 & Hp1).
  rewrite <- Hneg in Hp0, Hp1.
  repeat split; auto.
  - rewrite Hpos. now apply Round.one_minus_plus.
  - now apply normCDF_arg_nonpos.
Qed.

End Symmetry.

Lemma normCDF_symmetric_witness :
  Num.gt AtTheMoney.d1 0 = true
  /\ (0 <=? Math_exp (HostMath := SampleHost.host)
              (- AtTheMoney.d1 * AtTheMoney.d1 / 2)) = true
  /\ (Math_exp (HostMath := SampleHost.host)
        (- AtTheMoney.d1 * AtTheMoney.d1 / 2) <=? 1) = true
  /\ normCDF (M := SampleHost.host) AtTheMoney.d1
     + normCDF (M := SampleHost.host) (- AtTheMoney.d1) = 1.
Proof.
  assert (Hx : Num.gt AtTheMoney.d1 0 = true) by reflexivity.
  assert (H0 : (0 <=? Math_exp (HostMath := SampleHost.host)
                        (- AtTheMoney.d1 * AtTheMoney.d1 / 2)) = true)
    by (vm_compute; reflexivity).
  assert (H1 : (Math_exp (HostMath := SampleHost.host)
                  (- AtTheMoney.d1 * AtTheMoney.d1 / 2) <=? 1) = true)
    by (vm_compute; reflexivity).
  split; [exact Hx|]. split; [exact H0|]. split; [exact H1|].
  exact (proj1 (proj2 (proj2 (normCDF_symmetric (M := SampleHost.host) _ Hx H0 H1)))).
Defined.

(** ** The range of [normCDF] *)

Lemma sub_add_opp (x y : float) : x - y = x + - y.
Proof.
  apply Prim2SF_inj.
  rewrite FloatAxioms.sub_spec, FloatAxioms.add_spec, FloatAxioms.opp_spec.
  unfold SF64sub, SF64add, SFsub, SFadd.
  destruct (Prim2SF x) as [sx|sx| |sx mx ex], (Prim2SF y) as [sy|sy| |sy my ey];
    cbn [SFopp]; try reflexivity;
    destruct sx, sy; reflexivity.
Qed.

Lemma opp_interval (lo hi x : float) :
  finite lo = true -> finite hi = true ->
  inb lo hi x -> inb (- hi) (- lo) (- x).
Proof.
  intros Hlo Hhi Hx. destruct (inb_value lo hi x Hlo Hhi Hx) as (Fx & Hv).
  assert (Hf : forall y, finite (- y) = finite y).
  { intros y. unfold finite. now rewrite FloatAxioms.opp_spec, fin_opp. }
  assert (Hu : forall y, value (- y) = (- value y)%Z).
  { intros y. unfold value. now rewrite FloatAxioms.opp_spec, ulps_opp. }
  apply value_inb; rewrite ?Hf, ?Hu; auto. lia.
Qed.

(** The complement of a number between 0 and 1 is between 0 and 1. *)
Lemma one_minus_unit (p : float) : inb 0 1 p -> inb 0 1 (1 - p).
Proof.
  intros Hp. rewrite sub_add_opp.
  pose proof (opp_interval 0 1 p eq_refl eq_refl Hp) as Hn.
  pose proof (inb_const 1 eq_refl) as C1.
  by_add C1 Hn.
Qed.

Lemma not_nan_spec (x : float) : PrimFloat.is_nan x = false -> Prim2SF x <> S754_nan.
Proof.
  unfold PrimFloat.is_nan. rewrite FloatAxioms.eqb_spec. intros H E. rewrite E in H.
  discriminate H.
Qed.

Lemma mul_nan_r (x : float) : x * nan = nan.
Proof.
  apply Prim2SF_inj. rewrite FloatAxioms.mul_spec. unfold SF64mul, SFmul.
  change (Prim2SF nan) with S754_nan. now destruct (Prim2SF x).
Qed.

Lemma mul_nan_l (x : float) : nan * x = nan.
Proof. now rewrite mul_comm, mul_nan_r. Qed.

Section Range.
  Context {M : HostMath}.

Lemma normCDF_t_unit_all (x : float) :
  PrimFloat.is_nan x = false -> inb 0 1 (1 / (1 + 0.2316419 * Num.Math_abs x)).
Proof.
  intros Hx. apply recip_unit, one_plus, scale_nonneg.
  - vm_compute. eauto.
  - apply abs_nonneg. now apply not_nan_spec.
Qed.

Lemma normCDF_p_unit_all (x : float) :
  PrimFloat.is_nan x = false ->
  inb 0 1 (Math_exp (- x * x / 2)) ->
  inb 0 1 (normCDF_p x).
Proof.
  intros Hx He. unfold normCDF_p. cbv zeta.
  pose proof (normCDF_t_unit_all x Hx) as Ht.
  pose proof (normCDF_poly_bounds _ Ht) as Hq.
  set (t := 1 / (1 + 0.2316419 * Num.Math_abs x)) in *.
  pose proof (inb_const 0.3989422820 eq_refl) as C0.
  assert (Hd : inb 0 0.399 (0.3989422820 * Math_exp (- x * x / 2))) by (by_mul C0 He).
  assert (Hdt : inb 0 0.4 (0.3989422820 * Math_exp (- x * x / 2) * t)) by (by_mul Hd Ht).
  by_mul Hdt Hq.
Qed.

(** X10: [normCDF] returns a probability: for every number [x] (the infinities
    included, NaN apart) the value of [normCDF(x)] in binary64 arithmetic
    is between 0 and 1, on every host whose [Math.exp] returns a number
    between 0 and 1 at the argument [-x * x / 2] it is called with.  So
    the option delta, which is [normCDF(d1)], is between 0 and 1 for
    every price and time at which [d1] is a number. *)
Theorem normCDF_is_a_probability (x : float) :
  PrimFloat.is_nan x = false ->
  (0 <=? Math_exp (- x * x / 2)) = true ->
  (Math_exp (- x * x / 2) <=? 1) = true ->
  (0 <=? normCDF x) = true /\ (normCDF x <=? 1) = true
  /\ forall s t, bs_d1 s (Num.Math_max t 1e-6) = x ->
                 (0 <=? delta s t) = true /\ (delta s t <=? 1) = true.
Proof.
  intros Hx H0 H1.
  assert (Hp : inb 0 1 (normCDF_p x)) by (apply normCDF_p_unit_all; [exact Hx|now split]).
  assert (Hn : inb 0 1 (normCDF x)).
  { unfold normCDF. cbv zeta. destruct (Num.gt x 0); [now apply one_minus_unit|exact Hp]. }
  destruct Hn as [Hn0 Hn1]. split; [exact Hn0|]. split; [exact Hn1|].
  intros s t Hd. unfold delta. cbv zeta. rewrite Hd. now split.
Qed.

End Range.

(** ** The clamp of the time to maturity *)

Lemma is_nan_eq (x : float) : PrimFloat.is_nan x = true -> x = nan.
Proof.
  unfold PrimFloat.is_nan. rewrite FloatAxioms.eqb_spec. intros H.
  apply Prim2SF_inj. change (Prim2SF nan) with S754_nan.
  destruct (Prim2SF x) as [s|s| |s m e] eqn:E; try reflexivity; exfalso.
  - destruct s; discriminate H.
  - destruct s; discriminate H.
  - unfold SFeqb in H. rewrite SFcompare_refl in H by discriminate. discriminate H.
Qed.

Lemma leb_refl (x : float) : PrimFloat.is_nan x = false -> (x <=? x) = true.
Proof.
  intros H. rewrite FloatAxioms.leb_spec. unfold SFleb.
  now rewrite SFcompare_refl by (now apply not_nan_spec).
Qed.

Lemma ltb_leb (x y : float) : (x <? y) = true -> (x <=? y) = true.
Proof.
  rewrite FloatAxioms.ltb_spec, FloatAxioms.leb_spec. unfold SFltb, SFleb.
  now destruct (SFcompare (Prim2SF x) (Prim2SF y)) as [[| |]|].
Qed.

(** Two numbers neither of which is below the other compare equal. *)
Lemma compare_eq_cases (x y : spec_float) :
  x <> S754_nan -> y <> S754_nan ->
  SFltb x y = false -> SFltb y x = false -> SFcompare x y = Some Eq.
Proof.
  intros Hx Hy. unfold SFltb.
  destruct x as [sx|sx| |sx mx ex], y as [sy|sy| |sy my ey]; try congruence;
    cbn [SFcompare]; try (destruct sx, sy; simpl; congruence);
    try (destruct sx; simpl; congruence); try (destruct sy; simpl; congruence).
  destruct sx, sy; try (simpl; congruence).
  - destruct (Z.compare ex ey) eqn:Ee.
    + apply Z.compare_eq in Ee. subst ey. rewrite Z.compare_refl.
      rewrite !Pos.compare_cont_spec. cbn [Pos.switch_Eq].
      rewrite (Pos.compare_antisym mx my).
      destruct (Pos.compare mx my); simpl; congruence.
    + rewrite (Z.compare_antisym ex ey), Ee. simpl. congruence.
    + rewrite (Z.compare_antisym ex ey), Ee. simpl. congruence.
  - destruct (Z.compare ex ey) eqn:Ee.
    + apply Z.compare_eq in Ee. subst ey. rewrite Z.compare_refl.
      rewrite !Pos.compare_cont_spec. cbn [Pos.switch_Eq].
      rewrite (Pos.compare_antisym mx my).
      destruct (Pos.compare mx my); simpl; congruence.
    + rewrite (Z.compare_antisym ex ey), Ee. simpl. congruence.
    + rewrite (Z.compare_antisym ex ey), Ee. simpl. congruence.
Qed.

Lemma Math_max_cases (t : float) :
  PrimFloat.is_nan t = false ->
  (Num.Math_max t 1e-6 = 1e-6 /\ (t <=? 1e-6) = true)
  \/ (Num.Math_max t 1e-6 = t /\ (1e-6 <=? t) = true).
Proof.
  intros Hn. unfold Num.Math_max. rewrite Hn.
  change (PrimFloat.is_nan 1e-6) with false. cbn [orb].
  destruct (t <? 1e-6) eqn:E1; [left; split; [reflexivity|now apply ltb_leb]|].
  destruct (1e-6 <? t) eqn:E2; [right; split; [reflexivity|now apply ltb_leb]|].
  change (PrimFloat.is_zero 1e-6) with false. rewrite andb_false_r.
  right. split; [reflexivity|].
  rewrite FloatAxioms.ltb_spec in E1, E2.
  assert (Hc : SFcompare (Prim2SF t) (Prim2SF 1e-6) = Some Eq).
  { apply compare_eq_cases; auto; [now apply not_nan_spec|vm_compute; discriminate]. }
  assert (Hf : exists m e, Prim2SF 1e-6 = S754_finite false m e) by (vm_compute; eauto).
  destruct Hf as (m & e & Hf). rewrite Hf in Hc.
  apply SFcompare_eq_finite in Hc. rewrite <- Hf in Hc. apply Prim2SF_inj in Hc.
  subst t. reflexivity.
Qed.

Lemma add_nan_r (x : float) : x + nan = nan.
Proof.
  apply Prim2SF_inj. rewrite FloatAxioms.add_spec. unfold SF64add, SFadd.
  change (Prim2SF nan) with S754_nan. now destruct (Prim2SF x).
Qed.

Lemma div_nan_l (x : float) : nan / x = nan.
Proof.
  apply Prim2SF_inj. rewrite FloatAxioms.div_spec. unfold SF64div, SFdiv.
  change (Prim2SF nan) with S754_nan. reflexivity.
Qed.

Lemma sub_nan_l (x : float) : nan - x = nan.
Proof.
  apply Prim2SF_inj. rewrite FloatAxioms.sub_spec. unfold SF64sub, SFsub.
  change (Prim2SF nan) with S754_nan. reflexivity.
Qed.

Section Clamp.
  Context {M : HostMath}.

(** X11: the pricer sees the time to maturity only through the clamp
    [Math.max(t, 1e-6)]: for every time [t] that is a number, the clamped
    time is [t] itself or [1e-6], is at least [1e-6] and at least [t], and
    clamping a second time changes nothing, so the price and the delta at
    [t] are the price and the delta at the clamped time, for every stock
    price and on every host. *)
Theorem time_is_clamped (s t : float) :
  PrimFloat.is_nan t = false ->
  let tt := Num.Math_max t 1e-6 in
  (tt = t \/ tt = 1e-6)
  /\ (1e-6 <=? tt) = true
  /\ (t <=? tt) = true
  /\ Num.Math_max tt 1e-6 = tt
  /\ bsCall s tt = bsCall s t
  /\ delta s tt = delta s t.
Proof.
  intros Hn tt.
  assert (Hcases : tt = t \/ tt = 1e-6).
  { destruct (Math_max_cases t Hn) as [[H _]|[H _]]; auto. }
  assert (Hlo : (1e-6 <=? tt) = true).
  { subst tt. destruct (Math_max_cases t Hn) as [[-> _]|[-> H]]; auto. }
  assert (Hge : (t <=? tt) = true).
  { subst tt. destruct (Math_max_cases t Hn) as [[-> H]|[-> _]]; auto.
    now apply leb_refl. }
  assert (Hidem : Num.Math_max tt 1e-6 = tt).
  { subst tt. destruct (Math_max_cases t Hn) as [[-> _]|[H _]].
    - reflexivity.
    - rewrite H. exact H. }
  repeat split; auto.
  - unfold bsCall. cbv zeta. fold tt. now rewrite Hidem.
  - unfold delta. cbv zeta. fold tt. now rewrite Hidem.
Qed.

(** X12: a time to maturity that is NaN is not clamped: [Math.max] returns NaN,
    [d1] and [d2] are NaN whatever the host's [Math.log], [Math.sqrt] and
    [Math.exp] return, [normCDF(NaN)] is NaN, and so are the price and
    the delta, for every stock price. *)
Theorem nan_time_gives_nan (s t : float) :
  PrimFloat.is_nan t = true ->
  Num.Math_max t 1e-6 = nan
  /\ normCDF nan = nan
  /\ bsCall s t = nan
  /\ delta s t = nan.
Proof.
  intros Hn. apply is_nan_eq in Hn. subst t.
  assert (Hmax : Num.Math_max nan 1e-6 = nan) by reflexivity.
  assert (HN : normCDF nan = nan).
  { unfold normCDF, normCDF_p. cbv zeta.
    change (Num.gt nan 0) with false. cbv iota.
    change (1 / (1 + 0.2316419 * Num.Math_abs nan)) with nan.
    rewrite mul_nan_r. reflexivity. }
  assert (Hd1 : forall s', bs_d1 s' nan = nan).
  { intros s'. unfold bs_d1. now rewrite mul_nan_r, add_nan_r, div_nan_l. }
  repeat split; auto.
  - unfold bsCall. cbv zeta. rewrite Hmax, Hd1, sub_nan_l, HN.
    now rewrite !mul_nan_r, sub_nan_l.
  - unfold delta. cbv zeta. now rewrite Hmax, Hd1, HN.
Qed.

End Clamp.

Lemma time_is_clamped_witness :
  PrimFloat.is_nan 0 = false
  /\ Num.Math_max 0 1e-6 = 1e-6
  /\ bsCall (M := SampleHost.host) 100 1e-6 = bsCall (M := SampleHost.host) 100 0.
Proof.
  assert (Hn : PrimFloat.is_nan 0 = false) by reflexivity.
  pose proof (time_is_clamped (M := SampleHost.host) 100 0 Hn) as H.
  cbv zeta in H. destruct H as (_ & _ & _ & _ & Hc & _).
  split; [exact Hn|]. split; [reflexivity|]. exact Hc.
Defined.

Lemma nan_time_gives_nan_witness :
  PrimFloat.is_nan nan = true
  /\ bsCall (M := SampleHost.host) 100 nan = nan.
Proof.
  assert (Hn : PrimFloat.is_nan nan = true) by reflexivity.
  split; [exact Hn|].
  exact (proj1 (proj2 (proj2 (nan_time_gives_nan (M := SampleHost.host) 100 nan Hn)))).
Defined.

Lemma normCDF_is_a_probability_witness :
  PrimFloat.is_nan (- infinity) = false
  /\ (0 <=? Math_exp (HostMath := SampleHost.host) (- - infinity * - infinity / 2)) = true
  /\ (Math_exp (HostMath := SampleHost.host) (- - infinity * - infinity / 2) <=? 1) = true
  /\ (0 <=? normCDF (M := SampleHost.host) (- infinity)) = true
  /\ (normCDF (M := SampleHost.host) (- infinity) <=? 1) = true.
Proof.
  assert (Hn : PrimFloat.is_nan (- infinity) = false) by reflexivity.
  assert (H0 : (0 <=? Math_exp (HostMath := SampleHost.host)
                        (- - infinity * - infinity / 2)) = true)
    by (vm_compute; reflexivity).
  assert (H1 : (Math_exp (HostMath := SampleHost.host)
                  (- - infinity * - infinity / 2) <=? 1) = true)
    by (vm_compute; reflexivity).
  split; [exact Hn|]. split; [exact H0|]. split; [exact H1|].
  destruct (normCDF_is_a_probability (M := SampleHost.host) _ Hn H0 H1) as (Ha & Hb & _).
  split; [exact Ha|exact Hb].
Defined.

(** ** [linspace] below two points *)

Lemma zero_quotient_nan (d : float) : d * 0 / 0 = nan.
Proof.
  apply Prim2SF_inj. rewrite FloatAxioms.div_spec, FloatAxioms.mul_spec.
  change (Prim2SF nan) with S754_nan. change (Prim2SF 0) with (S754_zero false).
  unfold SF64div, SF64mul, SFdiv, SFmul.
  now destruct (Prim2SF d).
Qed.

(** X13: [linspace] needs two points: with [n = 0] it returns the empty array,
    and with [n = 1] its one element is [start + (end - start) * 0 / 0],
    which is NaN for every [start] and [end], not [start]. *)
Theorem linspace_below_two_points (start end_ : float) :
  linspace start end_ 0 = []
  /\ linspace start end_ 1 = [nan]
  /\ (JS.at_num (linspace start end_ 1) 0 =? start) = false.
Proof.
  split; [reflexivity|].
  assert (H : linspace start end_ 1 = [nan]).
  { unfold linspace, JS.Array_from. cbn [seq map].
    change (Num.of_nat 0) with 0. change (Num.of_nat 1 - 1) with 0.
    now rewrite zero_quotient_nan, add_nan_r. }
  split; [exact H|]. rewrite H. cbn [JS.at_num nth].
  rewrite FloatAxioms.eqb_spec. reflexivity.
Qed.

(** ** [meshgrid] *)

Lemma nth_repeat_lt {A : Type} (v d : A) (n i : nat) :
  (i < n)%nat -> nth i (repeat v n) d = v.
Proof.
  revert i. induction n as [|n IH]; intros [|i] Hi; simpl; try lia; auto.
  apply IH. lia.
Qed.

Lemma nth_map_lt {A B : Type} (f : A -> B) (l : list A) (d : B) (d' : A) (j : nat) :
  (j < List.length l)%nat -> nth j (map f l) d = f (nth j l d').
Proof.
  intros Hj. rewrite (nth_indep _ d (f d')) by (now rewrite length_map).
  apply map_nth.
Qed.

(** X14: [meshgrid(xArr, yArr)] returns two grids with a row per element of
    [yArr] and a column per element of [xArr]: row [j] of the first is a
    copy of [xArr], and row [j] of the second holds [yArr[j]] in every
    column, so [X[j][i] = xArr[i]] and [Y[j][i] = yArr[j]]. *)
Theorem meshgrid_elements (xArr yArr : list float) (i j : nat) :
  (i < List.length xArr)%nat -> (j < List.length yArr)%nat ->
  let X := fst (meshgrid xArr yArr) in
  let Y := snd (meshgrid xArr yArr) in
  List.length X = List.length yArr
  /\ List.length Y = List.length yArr
  /\ nth j X [] = xArr
  /\ List.length (nth j Y []) = List.length xArr
  /\ JS.at_num (nth j X []) i = JS.at_num xArr i
  /\ JS.at_num (nth j Y []) i = JS.at_num yArr j.
Proof.
  intros Hi Hj X Y. subst X Y. unfold meshgrid. cbn [fst snd].
  rewrite !length_map.
  rewrite (nth_map_lt (fun _ => xArr) yArr [] nan j Hj).
  rewrite (nth_map_lt (fun y => JS.Array_fill (List.length xArr) y) yArr [] nan j Hj).
  rewrite Array_fill_length.
  repeat split; auto.
  unfold JS.Array_fill, JS.at_num at 1. now apply nth_repeat_lt.
Qed.

Lemma meshgrid_elements_witness :
  JS.at_num (nth 1 (fst (meshgrid [1; 2; 3] [10; 20])) []) 2 = 3
  /\ JS.at_num (nth 1 (snd (meshgrid [1; 2; 3] [10; 20])) []) 2 = 20.
Proof.
  assert (Hi : (2 < List.length [1; 2; 3])%nat) by (simpl; lia).
  assert (Hj : (1 < List.length [10; 20])%nat) by (simpl; lia).
  pose proof (meshgrid_elements [1; 2; 3] [10; 20] 2 1 Hi Hj) as H.
  cbv zeta in H. destruct H as (_ & _ & _ & _ & HX & HY).
  split; [exact HX|exact HY].
Defined.

(** ** [boxMesh] *)

Lemma boxMesh_triangles (x0 x1 y0 y1 z0 z1 : float) (color : jsval) :
  Mesh.triangles (boxMesh x0 x1 y0 y1 z0 z1 color)
  = [(0, 1, 2); (0, 2, 3); (4, 5, 6); (4, 6, 7); (0, 1, 5); (0, 5, 4);
     (1, 2, 6); (1, 6, 5); (2, 3, 7); (2, 7, 6); (3, 0, 4); (3, 4, 7)]%nat.
Proof. vm_compute. reflexivity. Qed.

Lemma boxMesh_watertight (x0 x1 y0 y1 z0 z1 : float) (color : jsval) :
  Mesh.watertight (boxMesh x0 x1 y0 y1 z0 z1 color) = true.
Proof. vm_compute. reflexivity. Qed.

Lemma boxMesh_coordinates (x0 x1 y0 y1 z0 z1 : float) (color : jsval) :
  let t := boxMesh x0 x1 y0 y1 z0 z1 color in
  Mesh.nums_of (JS.get "x" t) = [x0; x1; x1; x0; x0; x1; x1; x0]
  /\ Mesh.nums_of (JS.get "y" t) = [y0; y0; y1; y1; y0; y0; y1; y1]
  /\ Mesh.nums_of (JS.get "z" t) = [z0; z0; z0; z0; z1; z1; z1; z1].
Proof. repeat split; reflexivity. Qed.

(** X15: whatever its bounds and colour, [boxMesh] returns a closed box: 8
    vertices and 12 triangles, each triangle on three different vertices
    that share their [x], their [y] or their [z] (it lies in a face of
    the box), and every side of a triangle shared by exactly two
    triangles. *)
Theorem boxMesh_is_a_closed_box (x0 x1 y0 y1 z0 z1 : float) (color : jsval) :
  let t := boxMesh x0 x1 y0 y1 z0 z1 color in
  List.length (Mesh.nums_of (JS.get "x" t)) = 8%nat
  /\ List.length (Mesh.triangles t) = 12%nat
  /\ Forall (fun tri => Mesh.proper 8 tri = true /\ Mesh.on_face t tri) (Mesh.triangles t)
  /\ Mesh.watertight t = true.
Proof.
  intros t. subst t.
  split; [reflexivity|].
  rewrite boxMesh_triangles.
  split; [reflexivity|].
  split; [|apply boxMesh_watertight].
  destruct (boxMesh_coordinates x0 x1 y0 y1 z0 z1 color) as (Hx & Hy & Hz).
  unfold Mesh.on_face, Mesh.same_along.
  rewrite Hx, Hy, Hz. unfold JS.at_num.
  repeat (apply Forall_cons; [split; [reflexivity|cbn [nth]; tauto]|]).
  apply Forall_nil.
Qed.
